(** * hidden-lava-crossing: the T-maze environment and the PPO rollout

    A shallow embedding of the two scripts of the repository:

    - [main_dqn.py]: the [TMaze] environment with a goal and a lava corner,
      the grey decoy boxes, the arrow hint and the four-directional [step];
    - [main.py]: the older [TMaze] variant (goal only, scalar arrow), the
      rollout of the PPO loop with its compute penalty, and the backward
      pass of generalized advantage estimation.

    Python integers are [Z]; Python floats are exact rationals [Q], except in
    the advantage pass, which is stated over an arbitrary carrier with
    uninterpreted arithmetic; exceptions are values of [exn], and a method of
    a mutable object is a function from the object to a result and the
    object as the method left it (mutations done before a raise persist). *)

From Stdlib Require Import ZArith QArith String Lia Lqa Bool.
From stdpp Require Import base option list.

Local Open Scope Z_scope.

(** ** Python results and exceptions *)

Inductive exn : Type :=
| AssertionError
| AttributeError (name : string)
| ValueError (msg : string)
| TypeError
| IndexError
| ZeroDivisionError
| RuntimeError.

Inductive result (A : Type) : Type :=
| Ok (a : A)
| Raise (e : exn).
Arguments Ok {A} a.
Arguments Raise {A} e.

#[global] Instance result_ret : MRet result := fun _ a => Ok a.
#[global] Instance result_bind : MBind result := fun _ _ f m =>
  match m with
  | Ok a => f a
  | Raise e => Raise e
  end.

Definition is_Ok {A} (r : result A) : Prop :=
  match r with Ok _ => True | Raise _ => False end.

(** [assert c]: an [AssertionError] when [c] is false. *)
Definition assert (c : bool) : result unit :=
  if c then Ok tt else Raise AssertionError.

(** A method of an object of class [S]: the result, and the object after the
    call. *)
Definition method (S A : Type) : Type := S → result A * S.

#[global] Instance method_ret {S} : MRet (method S) := fun _ a s => (Ok a, s).
#[global] Instance method_bind {S} : MBind (method S) := fun _ _ f m s =>
  match m s with
  | (Ok a, s') => f a s'
  | (Raise e, s') => (Raise e, s')
  end.

Definition get {S} : method S S := fun s => (Ok s, s).
Definition gets {S A} (f : S → A) : method S A := fun s => (Ok (f s), s).
Definition modify {S} (f : S → S) : method S unit := fun s => (Ok tt, f s).
Definition raise {S A} (e : exn) : method S A := fun s => (Raise e, s).
(** A fallible pure computation used inside a method. *)
Definition lift {S A} (r : result A) : method S A := fun s => (r, s).

(** [for x in xs: body x] inside a method. *)
Fixpoint for_each {S A} (xs : list A) (body : A → method S unit) : method S unit :=
  match xs with
  | [] => mret tt
  | x :: xs' => body x ≫= λ _, for_each xs' body
  end.

(** The same loop over a fallible pure update of a value. *)
Fixpoint fold_result {A B} (f : B → A → result B) (xs : list A) (b : B) : result B :=
  match xs with
  | [] => Ok b
  | x :: xs' => f b x ≫= fold_result f xs'
  end.

(** [l[i]] on a Python list: negative indices count from the end, and an
    index out of range raises [IndexError]. *)
Definition getitem {A} (l : list A) (i : Z) : result A :=
  let n := Z.of_nat (length l) in
  let k := if i <? 0 then n + i else i in
  if (0 <=? k) && (k <? n) then
    match l !! Z.to_nat k with
    | Some a => Ok a
    | None => Raise IndexError
    end
  else Raise IndexError.

(** [l[i] = v] on a list or on the first axis of a tensor. *)
Definition setitem {A} (l : list A) (i : Z) (v : A) : result (list A) :=
  let n := Z.of_nat (length l) in
  let k := if i <? 0 then n + i else i in
  if (0 <=? k) && (k <? n) then Ok (<[Z.to_nat k := v]> l) else Raise IndexError.

(** ** minigrid: world objects and the grid

    The library classes the environment is built on, as far as the
    environment uses them. *)

Inductive Color : Type := green | grey.

(** [Wall()], [Goal(color)] (green by default) and [Lava()]. *)
Inductive WorldObj : Type :=
| Wall
| Goal (color : Color)
| Lava.

#[global] Instance Color_eq_dec : EqDecision Color.
Proof. solve_decision. Defined.
#[global] Instance WorldObj_eq_dec : EqDecision WorldObj.
Proof. solve_decision. Defined.

(** [obj.type] *)
Definition type (o : WorldObj) : string :=
  match o with
  | Wall => "wall"
  | Goal _ => "goal"
  | Lava => "lava"
  end.

(** [obj.can_overlap()]: the agent may stand on a goal and on lava, not on a
    wall. *)
Definition can_overlap (o : WorldObj) : bool :=
  match o with
  | Wall => false
  | Goal _ => true
  | Lava => true
  end.

Module Grid.

(** [Grid(width, height)]: the cells in row-major order, cell (i, j) at
    index [j * width + i]. *)
Record t : Type := mk {
  width : Z;
  height : Z;
  grid : list (option WorldObj)
}.

Definition new (w h : Z) : result t :=
  _ ← assert (3 <=? w);
  _ ← assert (3 <=? h);
  Ok (mk w h (replicate (Z.to_nat (w * h)) None)).

Definition set (g : t) (i j : Z) (v : option WorldObj) : result t :=
  _ ← assert ((0 <=? i) && (i <? width g));
  _ ← assert ((0 <=? j) && (j <? height g));
  Ok (mk (width g) (height g) (<[Z.to_nat (j * width g + i) := v]> (grid g))).

Definition get (g : t) (i j : Z) : result (option WorldObj) :=
  _ ← assert ((0 <=? i) && (i <? width g));
  _ ← assert ((0 <=? j) && (j <? height g));
  match grid g !! Z.to_nat (j * width g + i) with
  | Some c => Ok c
  | None => Raise IndexError
  end.

(** [for i in range(0, length): self.set(x + i, y, Wall())] *)
Definition horz_wall (g : t) (x y length : Z) : result t :=
  fold_result (λ g i, set g (x + i) y (Some Wall)) (seqZ 0 length) g.

(** [for j in range(0, length): self.set(x, y + j, Wall())] *)
Definition vert_wall (g : t) (x y length : Z) : result t :=
  fold_result (λ g j, set g x (y + j) (Some Wall)) (seqZ 0 length) g.

Definition wall_rect (g : t) (x y w h : Z) : result t :=
  g ← horz_wall g x y w;
  g ← horz_wall g x (y + h - 1) w;
  g ← vert_wall g x y h;
  vert_wall g (x + w - 1) y h.

(** The content of cell (i, j), [None] also outside the grid: a read that
    never raises, for stating properties. *)
Definition cell (g : t) (i j : Z) : option WorldObj :=
  if (0 <=? i) && (i <? width g) && (0 <=? j) && (j <? height g)
  then default None (grid g !! Z.to_nat (j * width g + i))
  else None.

(** How many cells hold an object satisfying [p]. *)
Definition holds (p : WorldObj → bool) (c : option WorldObj) : bool :=
  match c with
  | Some o => p o
  | None => false
  end.

Fixpoint count_cells (p : WorldObj → bool) (l : list (option WorldObj)) : nat :=
  match l with
  | [] => 0
  | c :: l' => (if holds p c then 1 else 0) + count_cells p l'
  end.

Definition count (p : WorldObj → bool) (g : t) : nat := count_cells p (grid g).

End Grid.

(** ** numpy: the random generator

    [Generator] is the interface of [numpy.random.Generator] as the
    environment uses it, every draw returning the value and the generator
    advanced; [randint] is [numpy.random.randint] of the legacy global
    generator, which [main.py] calls, over the same kind of state. *)

Class Generator (G : Type) : Type := {
  (** [gymnasium.utils.seeding.np_random(seed)] *)
  default_rng : Z → G;
  (** [integers(high)]: an integer of [0, high) *)
  integers : Z → G → Z * G;
  (** [random()]: a float of [0, 1) *)
  random : G → Q * G;
  (** [uniform(low, high, size)]: [size] floats of [low, high) *)
  uniform : Q → Q → nat → G → list Q * G;
  (** [choice(a)] over the [n] rows of [a]: the index of the row drawn *)
  choice : nat → G → nat * G;
  (** [randint(low, high)]: an integer of [low, high) *)
  randint : Z → Z → G → Z * G
}.

(** What numpy documents of the draws: the half-open ranges. *)
Record GeneratorLaws (G : Type) `{Generator G} : Prop := {
  integers_range : ∀ high g, 0 < high → 0 ≤ (integers high g).1 < high;
  random_range : ∀ g, (0 <= (random g).1 ∧ (random g).1 < 1)%Q;
  uniform_length : ∀ low high n g, length (uniform low high n g).1 = n;
  uniform_range : ∀ low high n g, (low < high)%Q →
    Forall (λ x, low <= x ∧ x < high)%Q (uniform low high n g).1;
  choice_range : ∀ n g, (0 < n)%nat → ((choice n g).1 < n)%nat;
  randint_range : ∀ low high g, low < high → low ≤ (randint low high g).1 < high
}.

(** [x < y] on floats. *)
Definition Qltb (x y : Q) : bool := negb (Qle_bool y x).


(** The encoded egocentric view: minigrid's [gen_obs_grid] and [Grid.encode]
    compute it from the grid and the agent's pose and change neither; it is
    kept as the term it is computed from. *)
Inductive Image : Type :=
| encode_view (g : Grid.t) (agent_pos : Z * Z) (agent_dir : Z).

(** ** main_dqn.py: the environment *)

Module MainDqn.

(** [class Actions(IntEnum)] *)
Module Actions.
Definition left : Z := 0.
Definition forward : Z := 1.
Definition right : Z := 2.
Definition backward : Z := 3.
(** [Actions.done]: the enumeration has no such member. *)
Definition done : result Z := Raise (AttributeError "done").
End Actions.

Section TMaze.

Context {G : Type} `{Generator G}.

(** The attributes of a [TMaze] object that its methods read or write;
    those of rendering are left out. *)
Record TMaze : Type := mkTMaze {
  width : Z;
  height : Z;
  max_steps : Z;
  path_episode_threshold : Z;
  num_episodes : Z;
  goal_position : option (Z * Z);
  lava_position : option (Z * Z);
  arrow_q_values : list Q;
  grid : Grid.t;
  agent_pos : Z * Z;
  agent_dir : Z;
  step_count : Z;
  np_random : G
}.

(** The observation dictionary. *)
Record Obs : Type := mkObs {
  image : Image;
  direction : Z;
  mission : string;
  position : Z * Z;
  arrow : list Q
}.

Definition set_num_episodes (v : Z) (s : TMaze) : TMaze :=
  mkTMaze (width s) (height s) (max_steps s) (path_episode_threshold s) v
    (goal_position s) (lava_position s) (arrow_q_values s) (grid s)
    (agent_pos s) (agent_dir s) (step_count s) (np_random s).

Definition set_goal_position (v : option (Z * Z)) (s : TMaze) : TMaze :=
  mkTMaze (width s) (height s) (max_steps s) (path_episode_threshold s)
    (num_episodes s) v (lava_position s) (arrow_q_values s) (grid s)
    (agent_pos s) (agent_dir s) (step_count s) (np_random s).

Definition set_lava_position (v : option (Z * Z)) (s : TMaze) : TMaze :=
  mkTMaze (width s) (height s) (max_steps s) (path_episode_threshold s)
    (num_episodes s) (goal_position s) v (arrow_q_values s) (grid s)
    (agent_pos s) (agent_dir s) (step_count s) (np_random s).

Definition set_arrow_q_values (v : list Q) (s : TMaze) : TMaze :=
  mkTMaze (width s) (height s) (max_steps s) (path_episode_threshold s)
    (num_episodes s) (goal_position s) (lava_position s) v (grid s)
    (agent_pos s) (agent_dir s) (step_count s) (np_random s).

Definition set_grid (v : Grid.t) (s : TMaze) : TMaze :=
  mkTMaze (width s) (height s) (max_steps s) (path_episode_threshold s)
    (num_episodes s) (goal_position s) (lava_position s) (arrow_q_values s) v
    (agent_pos s) (agent_dir s) (step_count s) (np_random s).

Definition set_agent_pos (v : Z * Z) (s : TMaze) : TMaze :=
  mkTMaze (width s) (height s) (max_steps s) (path_episode_threshold s)
    (num_episodes s) (goal_position s) (lava_position s) (arrow_q_values s)
    (grid s) v (agent_dir s) (step_count s) (np_random s).

Definition set_agent_dir (v : Z) (s : TMaze) : TMaze :=
  mkTMaze (width s) (height s) (max_steps s) (path_episode_threshold s)
    (num_episodes s) (goal_position s) (lava_position s) (arrow_q_values s)
    (grid s) (agent_pos s) v (step_count s) (np_random s).

Definition set_step_count (v : Z) (s : TMaze) : TMaze :=
  mkTMaze (width s) (height s) (max_steps s) (path_episode_threshold s)
    (num_episodes s) (goal_position s) (lava_position s) (arrow_q_values s)
    (grid s) (agent_pos s) (agent_dir s) v (np_random s).

Definition set_np_random (v : G) (s : TMaze) : TMaze :=
  mkTMaze (width s) (height s) (max_steps s) (path_episode_threshold s)
    (num_episodes s) (goal_position s) (lava_position s) (arrow_q_values s)
    (grid s) (agent_pos s) (agent_dir s) (step_count s) v.

(** A call on [self.grid] that returns the grid updated, or raises and
    leaves it as it was. *)
Definition on_grid (f : Grid.t → result Grid.t) : method TMaze unit :=
  λ s, match f (grid s) with
       | Ok g => (Ok tt, set_grid g s)
       | Raise e => (Raise e, s)
       end.

(** A draw from [self.np_random]. *)
Definition draw {A} (f : G → A * G) : method TMaze A :=
  λ s, let '(a, g) := f (np_random s) in (Ok a, set_np_random g s).

(** [self.put_obj(obj, i, j)] (minigrid): [self.grid.set(i, j, obj)]. *)
Definition put_obj (obj : WorldObj) (i j : Z) : method TMaze unit :=
  on_grid (λ g, Grid.set g i j (Some obj)).

(** [np.array_equal(p, np.array(q))] for [p] a position or [None] *)
Definition array_equal (p : option (Z * Z)) (q : Z * Z) : bool :=
  match p with
  | Some (x, y) => (x =? q.1) && (y =? q.2)
  | None => false
  end.

(** [int(np.array_equal(self.goal_position, np.array((self.width - 2, 1))))]
    as [gen_obs] computes it *)
Definition goal_is_right (s : TMaze) : bool :=
  array_equal (goal_position s) (width s - 2, 1).

(** [TMaze.__init__(size, max_steps)] on top of [MiniGridEnv.__init__] with
    [grid_size=size], which makes the grid square; [rng] is the generator
    the object starts with. *)
Definition __init__ (size : Z) (max_steps : option Z) (rng : G) : result TMaze :=
  let max_steps := match max_steps with Some m => m | None => 2 * size ^ 2 end in
  g ← Grid.new size size;
  Ok (mkTMaze size size max_steps 2000 0 None None [] g (-1, -1) (-1) 0 rng).

(** [TMaze._gen_grid(width, height)] *)
Definition _gen_grid (width height : Z) : method TMaze unit :=
  _ ← lift (assert ((width mod 2 =? 1) && (height mod 2 =? 1)));
  g ← lift (Grid.new width height);
  _ ← modify (set_grid g);
  _ ← on_grid (λ g, Grid.wall_rect g 0 0 width height);
  _ ← on_grid (λ g, Grid.vert_wall g (width / 2 - 1) 2 (height - 3));
  _ ← on_grid (λ g, Grid.vert_wall g (width / 2 + 1) 2 (height - 3));
  _ ← on_grid (λ g, Grid.horz_wall g 0 0 width);
  _ ← on_grid (λ g, Grid.horz_wall g 0 2 (width / 2));
  _ ← on_grid (λ g, Grid.horz_wall g (width / 2 + 1) 2 (width / 2));
  _ ← modify (set_agent_pos (width / 2, height - 2));
  _ ← modify (set_agent_dir 3);
  let goal_positions := [(1, 1); (width - 2, 1)] in
  goal_choice ← draw (integers 2);
  let lava_choice := 1 - goal_choice in
  goal ← lift (getitem goal_positions goal_choice);
  _ ← modify (set_goal_position (Some goal));
  lava ← lift (getitem goal_positions lava_choice);
  _ ← modify (set_lava_position (Some lava));
  s ← get;
  _ ← modify (set_arrow_q_values
                (<[Nat.b2n (array_equal (goal_position s) (width - 2, 1)) := 1%Q]>
                   (replicate 4 0%Q)));
  _ ← put_obj (Goal green) goal.1 goal.2;
  put_obj Lava lava.1 lava.2.

(** The four cells a grey box can be put on. *)
Definition left_box (s : TMaze) : Z * Z :=
  (width s * 3 / 4 - 1, height s * 2 / 3 - 1).
Definition right_box (s : TMaze) : Z * Z :=
  (width s * 3 / 4 + 1, height s * 2 / 3 - 1).
Definition up_box (s : TMaze) : Z * Z :=
  (width s * 3 / 4, height s * 2 / 3 - 2).
Definition down_box (s : TMaze) : Z * Z :=
  (width s * 3 / 4, height s * 2 / 3).
Definition box_locations (s : TMaze) : list (Z * Z) :=
  [left_box s; right_box s; up_box s; down_box s].

(** The test of [gen_obs] for the cell where the arrow is shown. *)
Definition at_decision_cell (s : TMaze) : bool :=
  ((agent_pos s).1 =? (height s - 1) / 2) && ((agent_pos s).2 =? 1).

(** [TMaze.gen_obs()] *)
Definition gen_obs : method TMaze Obs :=
  let grey_box := Goal grey in
  s ← get;
  _ ← for_each (box_locations s) (λ box, on_grid (λ g, Grid.set g box.1 box.2 None));
  let '(w, h) :=
    if (agent_pos s).2 =? 1
    then (if goal_is_right s then right_box s else left_box s)
    else up_box s in
  _ ← (if path_episode_threshold s <? num_episodes s
       then put_obj grey_box w h
       else for_each (box_locations s) (λ box,
              r ← draw random;
              if Qltb r (1 # 2) then put_obj grey_box box.1 box.2 else mret tt));
  image ← gets (λ s, encode_view (grid s) (agent_pos s) (agent_dir s));
  maybe_random_arrow ← draw (uniform (-1) 1 4);
  s ← get;
  let maybe_random_arrow :=
    if at_decision_cell s then arrow_q_values s else maybe_random_arrow in
  mret (mkObs image (agent_dir s) "get to the green goal square" (agent_pos s)
          maybe_random_arrow).

(** [MiniGridEnv._reward()]: [1 - 0.9 * (self.step_count / self.max_steps)] *)
Definition _reward : method TMaze Q :=
  s ← get;
  if max_steps s =? 0 then raise ZeroDivisionError
  else mret (1 - (9 # 10) * (inject_Z (step_count s) / inject_Z (max_steps s)))%Q.

(** [TMaze.reset(seed)]: the episode counter, then gymnasium's [Env.reset]
    (a seed replaces the generator) and minigrid's [MiniGridEnv.reset]. *)
Definition reset (seed : option Z) : method TMaze Obs :=
  _ ← modify (λ s, set_num_episodes (num_episodes s + 1) s);
  _ ← match seed with
      | Some n => modify (set_np_random (default_rng n))
      | None => mret tt
      end;
  _ ← modify (set_agent_pos (-1, -1));
  _ ← modify (set_agent_dir (-1));
  s ← get;
  _ ← _gen_grid (width s) (height s);
  s ← get;
  _ ← lift (assert ((0 <=? (agent_pos s).1) && (0 <=? (agent_pos s).2)
                    && (0 <=? agent_dir s)));
  start_cell ← lift (Grid.get (grid s) (agent_pos s).1 (agent_pos s).2);
  _ ← lift (assert (match start_cell with
                    | None => true
                    | Some o => can_overlap o
                    end));
  _ ← modify (set_step_count 0);
  gen_obs.

(** One of the four movement blocks of [step], which differ in [fwd_pos]
    only; the result is [(reward, terminated)] as the block leaves them. *)
Definition move (fwd_pos : Z * Z) : method TMaze (Q * bool) :=
  s ← get;
  fwd_cell ← lift (Grid.get (grid s) fwd_pos.1 fwd_pos.2);
  _ ← (match fwd_cell with
       | None => modify (set_agent_pos fwd_pos)
       | Some o => if can_overlap o then modify (set_agent_pos fwd_pos) else mret tt
       end);
  '(reward, terminated) ←
    (match fwd_cell with
     | Some o =>
         if String.eqb (type o) "goal"
         then (r ← _reward; mret (r, true))
         else mret (0%Q, false)
     | None => mret (0%Q, false)
     end);
  let terminated :=
    match fwd_cell with
    | Some o => if String.eqb (type o) "lava" then true else terminated
    | None => terminated
    end in
  mret (reward, terminated).

(** [TMaze.step(action)]; the result is
    [(obs, reward, terminated, truncated)]. [self.actions] is [Actions],
    which has no member [done]: reading [self.actions.done] raises
    [AttributeError] before the last [else] is reached. *)
Definition step (action : Z) : method TMaze (Obs * Q * bool * bool) :=
  _ ← modify (λ s, set_step_count (step_count s + 1) s);
  s ← get;
  '(reward, terminated) ←
    (if action =? Actions.left then
       move ((agent_pos s).1 - 1, (agent_pos s).2)
     else if action =? Actions.right then
       move ((agent_pos s).1 + 1, (agent_pos s).2)
     else if action =? Actions.forward then
       move ((agent_pos s).1, (agent_pos s).2 - 1)
     else if action =? Actions.backward then
       move ((agent_pos s).1, (agent_pos s).2 + 1)
     else
       (done ← lift Actions.done;
        if action =? done then mret (0%Q, false)
        else raise (ValueError "Unknown action")));
  s ← get;
  let truncated := max_steps s <=? step_count s in
  obs ← gen_obs;
  mret (obs, reward, terminated, truncated).

End TMaze.

Arguments TMaze G : clear implicits.

(** *** The exploration schedule *)

(** Python's [max(a, b)] and [min(a, b)] on two floats: the first argument
    unless the second is strictly beyond it. *)
Definition pymax (a b : Q) : Q := if Qltb a b then b else a.
Definition pymin (a b : Q) : Q := if Qltb b a then b else a.

(** [linear_schedule(start_e, end_e, duration, t)]; [duration] is the float
    [exploration_fraction * total_timesteps], and the division of two
    Python floats raises on a zero divisor. *)
Definition linear_schedule (start_e end_e duration : Q) (t : Z) : result Q :=
  if Qeq_bool duration 0 then Raise ZeroDivisionError
  else
    let slope := ((end_e - start_e) / duration)%Q in
    Ok (pymax (slope * inject_Z t + start_e) end_e).

(** *** The grayscale wrapper *)

(** [np.array([0.2125, 0.7154, 0.0721])] *)
Definition grayscale_weights : Q * Q * Q :=
  (2125 # 10000, 7154 # 10000, 721 # 10000)%Q.

(** What the function of [GrayscaleObservation] computes of one pixel
    before the cast:
    [np.sum(255 - np.multiply(pixel, weights), axis=-1)]. *)
Definition grayscale_sum (pixel : Z * Z * Z) : Q :=
  let '(r, g, b) := pixel in
  let '(wr, wg, wb) := grayscale_weights in
  ((255 - inject_Z r * wr) + (255 - inject_Z g * wg) + (255 - inject_Z b * wb))%Q.

Section Grayscale.

(** [x.astype(np.uint8)] on a float: numpy's C cast, which is defined by
    the platform when [x] is not in the range of the type. *)
Variable astype_uint8 : Q → Z.

(** The function of the wrapper on the image of an observation, an array of
    rows of RGB pixels ([keep_dim = False]). *)
Definition grayscale (image : list (list (Z * Z * Z))) : list (list Z) :=
  map (map (λ pixel, astype_uint8 (grayscale_sum pixel))) image.

End Grayscale.

(** *** Rendering *)

(** minigrid's [WorldObj.encode()]: the indices of the type and of the
    colour, and the state. *)
Definition encode (o : WorldObj) : Z * Z * Z :=
  match o with
  | Wall => (2, 5, 0)
  | Goal green => (8, 1, 0)
  | Goal grey => (8, 5, 0)
  | Lava => (9, 0, 0)
  end.

Module DirectionlessGrid.

Section Render.

(** An image of one tile, and what [render_tile] draws when the tile is
    not cached: the grid lines, the object, a circle for the agent when
    [agent_dir] is not [None], the highlight, downsampled by [subdivs]. The
    direction itself is not used by the drawing. *)
Context {Tile : Type}.
Variable draw_tile : option WorldObj → bool → bool → Z → Z → Tile.

(** The key of the class-level [tile_cache]:
    [obj.encode() + (agent_dir, highlight, tile_size)]. *)
Definition Key : Type := option (Z * Z * Z) * option Z * bool * Z.

#[global] Instance Key_eq_dec : EqDecision Key.
Proof. solve_decision. Defined.

Definition Cache : Type := list (Key * Tile).

Fixpoint cache_get (c : Cache) (k : Key) : option Tile :=
  match c with
  | [] => None
  | (k', t) :: c' => if decide (k' = k) then Some t else cache_get c' k
  end.

(** [DirectionlessGrid.render_tile(obj, agent_dir, highlight, tile_size)]
    with [subdivs = 3]: the tile and the cache after the call. *)
Definition render_tile (obj : option WorldObj) (agent_dir : option Z)
    (highlight : bool) (tile_size : Z) (c : Cache) : Tile * Cache :=
  let subdivs := 3 in
  let key : Key := (encode <$> obj, agent_dir, highlight, tile_size) in
  match cache_get c key with
  | Some img => (img, c)
  | None =>
      let img := draw_tile obj (bool_decide (agent_dir ≠ None)) highlight tile_size
                   subdivs in
      (img, (key, img) :: c)
  end.

(** What [render] passes to [render_tile] for a cell:
    a green goal and lava are replaced by [None] when [invisible_goal] is
    set. *)
Definition shown (invisible_goal : bool) (cell : option WorldObj) : option WorldObj :=
  let cell :=
    match cell with
    | Some (Goal green) => if invisible_goal then None else cell
    | _ => cell
    end in
  match cell with
  | Some Lava => if invisible_goal then None else cell
  | _ => cell
  end.

(** The body of the two loops of [render] for the cell (i, j), with
    [highlight_mask] all [False]. *)
Definition render_cell (invisible_goal : bool) (g : Grid.t) (tile_size : Z)
    (agent_pos : Z * Z) (agent_dir : option Z) (i j : Z) (c : Cache)
  : result (Tile * Cache) :=
  cell ← Grid.get g i j;
  let agent_here := (agent_pos.1 =? i) && (agent_pos.2 =? j) in
  let cell := shown invisible_goal cell in
  Ok (render_tile cell (if agent_here then agent_dir else None) false tile_size c).

Fixpoint render_row (invisible_goal : bool) (g : Grid.t) (tile_size : Z)
    (agent_pos : Z * Z) (agent_dir : option Z) (j : Z) (cols : list Z) (c : Cache)
  : result (list Tile * Cache) :=
  match cols with
  | [] => Ok ([], c)
  | i :: cols' =>
      '(t, c) ← render_cell invisible_goal g tile_size agent_pos agent_dir i j c;
      '(ts, c) ← render_row invisible_goal g tile_size agent_pos agent_dir j cols' c;
      Ok (t :: ts, c)
  end.

Fixpoint render_rows (invisible_goal : bool) (g : Grid.t) (tile_size : Z)
    (agent_pos : Z * Z) (agent_dir : option Z) (js : list Z) (c : Cache)
  : result (list (list Tile) * Cache) :=
  match js with
  | [] => Ok ([], c)
  | j :: js' =>
      '(row, c) ← render_row invisible_goal g tile_size agent_pos agent_dir j
                    (seqZ 0 (Grid.width g)) c;
      '(rows, c) ← render_rows invisible_goal g tile_size agent_pos agent_dir js' c;
      Ok (row :: rows, c)
  end.

(** [DirectionlessGrid.render(tile_size, agent_pos, agent_dir,
    highlight_mask=None)]: the image as the rows of its tiles, tile (i, j)
    covering the pixels [j * tile_size, (j + 1) * tile_size) by
    [i * tile_size, (i + 1) * tile_size), and the cache after the call. *)
Definition render (invisible_goal : bool) (g : Grid.t) (tile_size : Z)
    (agent_pos : Z * Z) (agent_dir : option Z) (c : Cache)
  : result (list (list Tile) * Cache) :=
  render_rows invisible_goal g tile_size agent_pos agent_dir
    (seqZ 0 (Grid.height g)) c.

End Render.

End DirectionlessGrid.

(** *** The training loop *)

Section Loop.

(** The collaborators of the loop: [envs_reset] is [envs.reset()] and
    [envs_step] is [envs.step(actions)], on the environment behind its
    wrappers, returning the observation, the reward and the two end flags;
    [select_action] is the choice of the action from [epsilon] and the
    observation, by [random.random() < epsilon] between a sample of the
    action space and the argmax of the network; [rb_add] is [rb.add(obs,
    next_obs, actions, rewards, terminations, infos)]; [train] is the part
    of the iteration under [# ALGO LOGIC: training], which updates the
    networks from the buffer. *)
Context {Env ObsT Act Agent Buffer : Type}.
Variable envs_reset : Env → ObsT * Env.
Variable envs_step : Act → Env → (ObsT * Q * bool * bool) * Env.
Variable select_action : Q → ObsT → Agent → Act * Agent.
Variable rb_add : ObsT → ObsT → Act → Q → bool → Buffer → Buffer.
Variable train : Z → Buffer → Agent → Agent.

(** [args.start_e], [args.end_e], [args.exploration_fraction] and
    [args.total_timesteps] *)
Variables (start_e end_e exploration_fraction : Q) (total_timesteps : Z).

(** The variables an iteration reads that an iteration before it has
    assigned: [next_obs] and [rewards] are assigned by the first iteration,
    which steps the environment since the end flags start at [False]. *)
Record Loop : Type := mkLoop {
  obs : ObsT;
  next_obs : ObsT;
  rewards : Q;
  terminations : bool;
  truncations : bool;
  envs : Env;
  rb : Buffer;
  agent : Agent
}.

(** The body of [for global_step in range(args.total_timesteps)] from the
    second iteration on. *)
Definition iteration (global_step : Z) (l : Loop) : result Loop :=
  epsilon ← linear_schedule start_e end_e
              (exploration_fraction * inject_Z total_timesteps)%Q global_step;
  let '(actions, agent) := select_action epsilon (obs l) (agent l) in
  let '(obs, next_obs, rewards, terminations, truncations, envs) :=
    if terminations l || truncations l then
      let '(obs, envs) := envs_reset (envs l) in
      (obs, next_obs l, rewards l, false, false, envs)
    else
      let '((next_obs, rewards, terminations, truncations), envs) :=
        envs_step actions (envs l) in
      (obs l, next_obs, rewards, terminations, truncations, envs) in
  let real_next_obs := next_obs in
  let rb := rb_add obs real_next_obs actions rewards terminations (rb l) in
  let obs := next_obs in
  let agent := train global_step rb agent in
  Ok (mkLoop obs next_obs rewards terminations truncations envs rb agent).

End Loop.

End MainDqn.

(** ** main.py: the older environment, the rollout and the advantage pass *)

Module Main.

(** The two kinds of value [gen_obs] passes to [float]: a Python integer and
    a numpy array of booleans. *)
Inductive pyval : Type :=
| PyInt (n : Z)
| PyBoolArray (bs : list bool).

(** [float(v)]: numpy converts an array of one element only. *)
Definition float (v : pyval) : result Q :=
  match v with
  | PyInt n => Ok (inject_Z n)
  | PyBoolArray [b] => Ok (if b then 1%Q else 0%Q)
  | PyBoolArray _ => Raise TypeError
  end.

Section TMaze.

Context {G : Type} `{Generator G}.

(** The attributes of this [TMaze], and [np_random_global], the state of
    the module-level [np.random] that [gen_obs] draws from. *)
Record TMaze : Type := mkTMaze {
  width : Z;
  height : Z;
  max_steps : Z;
  goal_position : option (Z * Z);
  arrow_position : list bool;
  grid : Grid.t;
  agent_pos : Z * Z;
  agent_dir : Z;
  step_count : Z;
  np_random : G;
  np_random_global : G
}.

Record Obs : Type := mkObs {
  image : Image;
  direction : Z;
  mission : string;
  position : Z * Z;
  arrow : Q
}.

Definition set_goal_position (v : option (Z * Z)) (s : TMaze) : TMaze :=
  mkTMaze (width s) (height s) (max_steps s) v (arrow_position s) (grid s)
    (agent_pos s) (agent_dir s) (step_count s) (np_random s) (np_random_global s).

Definition set_arrow_position (v : list bool) (s : TMaze) : TMaze :=
  mkTMaze (width s) (height s) (max_steps s) (goal_position s) v (grid s)
    (agent_pos s) (agent_dir s) (step_count s) (np_random s) (np_random_global s).

Definition set_grid (v : Grid.t) (s : TMaze) : TMaze :=
  mkTMaze (width s) (height s) (max_steps s) (goal_position s) (arrow_position s) v
    (agent_pos s) (agent_dir s) (step_count s) (np_random s) (np_random_global s).

Definition set_agent_pos (v : Z * Z) (s : TMaze) : TMaze :=
  mkTMaze (width s) (height s) (max_steps s) (goal_position s) (arrow_position s)
    (grid s) v (agent_dir s) (step_count s) (np_random s) (np_random_global s).

Definition set_agent_dir (v : Z) (s : TMaze) : TMaze :=
  mkTMaze (width s) (height s) (max_steps s) (goal_position s) (arrow_position s)
    (grid s) (agent_pos s) v (step_count s) (np_random s) (np_random_global s).

Definition set_np_random (v : G) (s : TMaze) : TMaze :=
  mkTMaze (width s) (height s) (max_steps s) (goal_position s) (arrow_position s)
    (grid s) (agent_pos s) (agent_dir s) (step_count s) v (np_random_global s).

Definition set_np_random_global (v : G) (s : TMaze) : TMaze :=
  mkTMaze (width s) (height s) (max_steps s) (goal_position s) (arrow_position s)
    (grid s) (agent_pos s) (agent_dir s) (step_count s) (np_random s) v.

Definition on_grid (f : Grid.t → result Grid.t) : method TMaze unit :=
  λ s, match f (grid s) with
       | Ok g => (Ok tt, set_grid g s)
       | Raise e => (Raise e, s)
       end.

Definition draw {A} (f : G → A * G) : method TMaze A :=
  λ s, let '(a, g) := f (np_random s) in (Ok a, set_np_random g s).

(** A draw from the module-level [np.random]. *)
Definition draw_global {A} (f : G → A * G) : method TMaze A :=
  λ s, let '(a, g) := f (np_random_global s) in (Ok a, set_np_random_global g s).

Definition put_obj (obj : WorldObj) (i j : Z) : method TMaze unit :=
  on_grid (λ g, Grid.set g i j (Some obj)).

(** [TMaze.__init__(size, max_steps)] *)
Definition __init__ (size : Z) (max_steps : option Z) (rng rng_global : G)
  : result TMaze :=
  let max_steps := match max_steps with Some m => m | None => 4 * size ^ 2 end in
  g ← Grid.new size size;
  Ok (mkTMaze size size max_steps None [] g (-1, -1) (-1) 0 rng rng_global).

(** [TMaze._gen_grid(width, height)]: [choice] draws one row of
    [goal_positions], a numpy array of two integers, and comparing it with
    a tuple compares element by element. *)
Definition _gen_grid (width height : Z) : method TMaze unit :=
  _ ← lift (assert ((width mod 2 =? 1) && (height mod 2 =? 1)));
  g ← lift (Grid.new width height);
  _ ← modify (set_grid g);
  _ ← on_grid (λ g, Grid.wall_rect g 0 0 width height);
  _ ← on_grid (λ g, Grid.vert_wall g (width / 2 - 1) 2 (height - 3));
  _ ← on_grid (λ g, Grid.vert_wall g (width / 2 + 1) 2 (height - 3));
  _ ← on_grid (λ g, Grid.horz_wall g 0 0 width);
  _ ← on_grid (λ g, Grid.horz_wall g 0 2 (width / 2));
  _ ← on_grid (λ g, Grid.horz_wall g (width / 2 + 1) 2 (width / 2));
  _ ← modify (set_agent_pos (width / 2, height - 2));
  _ ← modify (set_agent_dir 3);
  let goal_positions := [(1, 1); (width - 2, 1)] in
  k ← draw (choice (length goal_positions));
  goal ← lift (getitem goal_positions (Z.of_nat k));
  _ ← modify (set_goal_position (Some goal));
  _ ← modify (set_arrow_position [goal.1 =? width - 2; goal.2 =? 1]);
  put_obj (Goal green) goal.1 goal.2.

Definition at_decision_cell (s : TMaze) : bool :=
  ((agent_pos s).1 =? (height s - 1) / 2) && ((agent_pos s).2 =? 1).

(** [TMaze.gen_obs()] *)
Definition gen_obs : method TMaze Obs :=
  image ← gets (λ s, encode_view (grid s) (agent_pos s) (agent_dir s));
  n ← draw_global (randint 0 1);
  s ← get;
  let maybe_random_arrow :=
    if at_decision_cell s then PyBoolArray (arrow_position s) else PyInt n in
  a ← lift (float maybe_random_arrow);
  mret (mkObs image (agent_dir s) "get to the green goal square" (agent_pos s) a).

End TMaze.

Arguments TMaze G : clear implicits.

(** *** The rollout step and its compute penalty *)

Section Rollout.

(** The environment behind its wrappers and the agent are collaborators of
    the loop: [envs_step] is [envs.step(action)], returning the image, the
    full observation's arrow, the reward and the two end flags;
    [get_action_and_value] is the agent's forward pass on the last image and
    arrow, returning the action, its log-probability and the value. *)
Context {Env Agent Img : Type}.
Variable envs_step : Z → Env → (Img * Q * Q * bool * bool) * Env.
Variable get_action_and_value : Img → Q → Agent → (Z * Q * Q) * Agent.

(** Modelled from the spec: [networks.GatedAgent] is not among the sources.
    [_last_gate] is what the agent recorded of its last forward pass, true
    when the cheap branch ran and false when the heavy branch ran (the
    agent "reports it took an expensive/heavy internal branch"; the loop's
    comment reads "If the heavy branch was used add the compute penalty"). *)
Variable _last_gate : Agent → bool.

Definition took_heavy_branch (a : Agent) : bool := negb (_last_gate a).

(** [Args.compute_penalty], 0.003 by default *)
Variable compute_penalty : Q.

(** The storage tensors of one rollout, one row per step. *)
Record Storage : Type := mkStorage {
  obs : list Img;
  actions : list Z;
  arrows : list Q;
  logprobs : list Q;
  rewards : list Q;
  dones : list Q;
  values : list Q
}.

(** What the loop carries from one step to the next. *)
Record Loop : Type := mkLoop {
  global_step : Z;
  next_obs : Img;
  full_obs_arrow : Q;
  next_done : Q;
  storage : Storage;
  envs : Env;
  agent : Agent
}.

(** [x.float()] of a boolean tensor *)
Definition bool_float (b : bool) : Q := if b then 1%Q else 0%Q.

(** The reward as the loop stores it:
    [penalty = (1 - agent._last_gate.float()) * args.compute_penalty;
     reward -= penalty]. *)
Definition penalised (reward : Q) (a : Agent) : Q :=
  let penalty := ((1 - bool_float (_last_gate a)) * compute_penalty)%Q in
  (reward - penalty)%Q.

(** The body of [for step in range(0, args.num_steps)], with one
    environment ([args.num_envs = 1]). *)
Definition rollout_step (step : Z) (l : Loop) : result Loop :=
  let st := storage l in
  let global_step := global_step l + 1 in
  obs' ← setitem (obs st) step (next_obs l);
  arrows' ← setitem (arrows st) step (full_obs_arrow l);
  dones' ← setitem (dones st) step (next_done l);
  let '((action, logprob, value), agent') :=
    get_action_and_value (next_obs l) (full_obs_arrow l) (agent l) in
  values' ← setitem (values st) step value;
  actions' ← setitem (actions st) step action;
  logprobs' ← setitem (logprobs st) step logprob;
  let '((next_obs', arrow', reward, terminations, truncations), envs') :=
    envs_step action (envs l) in
  let reward := penalised reward agent' in
  let next_done' := bool_float (terminations || truncations) in
  rewards' ← setitem (rewards st) step reward;
  Ok (mkLoop global_step next_obs' arrow' next_done'
        (mkStorage obs' actions' arrows' logprobs' rewards' dones' values')
        envs' agent').

(** [for step in range(0, args.num_steps): ...] *)
Definition rollout (num_steps : Z) (l : Loop) : result Loop :=
  fold_result (λ l step, rollout_step step l) (seqZ 0 num_steps) l.

End Rollout.

(** *** Generalized advantage estimation

    The arithmetic of the tensors is left uninterpreted: [F] is the carrier
    (a float, or a row of floats, one per environment) and [add], [sub] and
    [mul] are the operations torch applies, so what is proved of the loop
    holds of floating-point arithmetic as well. *)

Section GAE.

Context {F : Type}.
Variables (zero one : F) (add sub mul : F → F → F).
Variables (gamma gae_lambda : F).

(** The body of [for t in reversed(range(args.num_steps))]: the state is
    [(advantages, lastgaelam)]. *)
Definition gae_step (num_steps : Z) (rewards values dones : list F)
    (next_value next_done : F) (st : list F * F) (t : Z) : result (list F * F) :=
  let '(advantages, lastgaelam) := st in
  '(nextnonterminal, nextvalues) ←
    (if t =? num_steps - 1 then Ok (sub one next_done, next_value)
     else (d ← getitem dones (t + 1);
           v ← getitem values (t + 1);
           Ok (sub one d, v)));
  r ← getitem rewards t;
  v ← getitem values t;
  let delta := sub (add r (mul (mul gamma nextvalues) nextnonterminal)) v in
  let lastgaelam :=
    add delta (mul (mul (mul gamma gae_lambda) nextnonterminal) lastgaelam) in
  advantages ← setitem advantages t lastgaelam;
  Ok (advantages, lastgaelam).

(** [a + b] on two tensors of one shape. *)
Definition tensor_add (a b : list F) : result (list F) :=
  if (length a =? length b)%nat then Ok (zip_with add a b) else Raise RuntimeError.

(** The advantage pass: [(advantages, returns)]. *)
Definition gae (num_steps : Z) (rewards values dones : list F)
    (next_value next_done : F) : result (list F * list F) :=
  let advantages := replicate (length rewards) zero in
  let lastgaelam := zero in
  '(advantages, _) ←
    fold_result (gae_step num_steps rewards values dones next_value next_done)
      (reverse (seqZ 0 num_steps)) (advantages, lastgaelam);
  returns ← tensor_add advantages values;
  Ok (advantages, returns).

(** The recurrence as the specification words it, over total reads
    ([zero] outside the rollout). *)
Definition at_ (l : list F) (t : nat) : F := default zero (l !! t).

Definition nextnonterminal_spec (T : nat) (dones : list F) (next_done : F) (t : nat) : F :=
  if (S t =? T)%nat then sub one next_done else sub one (at_ dones (S t)).

Definition nextvalue_spec (T : nat) (values : list F) (next_value : F) (t : nat) : F :=
  if (S t =? T)%nat then next_value else at_ values (S t).

Definition delta_spec (T : nat) (rewards values dones : list F)
    (next_value next_done : F) (t : nat) : F :=
  sub (add (at_ rewards t)
         (mul (mul gamma (nextvalue_spec T values next_value t))
            (nextnonterminal_spec T dones next_done t)))
    (at_ values t).

End GAE.

(** *** The sizes of the batches and the schedule of the learning rate *)

(** [a // b] on Python integers *)
Definition floordiv (a b : Z) : result Z :=
  if b =? 0 then Raise ZeroDivisionError else Ok (a / b).

(** What [__main__] computes from the arguments before the loop:
    [(batch_size, minibatch_size, num_iterations)]. *)
Definition sizes (num_envs num_steps num_minibatches total_timesteps : Z)
  : result (Z * Z * Z) :=
  let batch_size := num_envs * num_steps in
  minibatch_size ← floordiv batch_size num_minibatches;
  num_iterations ← floordiv total_timesteps batch_size;
  Ok (batch_size, minibatch_size, num_iterations).


(** [range(start, stop, step)] as the list of its elements *)
Definition range3 (start stop step : Z) : result (list Z) :=
  if step =? 0 then Raise (ValueError "range() arg 3 must not be zero")
  else
    let count :=
      if 0 <? step then (stop - start + step - 1) / step
      else (start - stop - step - 1) / (- step) in
    Ok (map (λ k, start + k * step) (seqZ 0 count)).

(** [l[start:stop]]: negative bounds count from the end, and both are
    clipped to the list. *)
Definition slice {A} (l : list A) (start stop : Z) : list A :=
  let n := Z.of_nat (length l) in
  let clip i := Z.max 0 (Z.min n (if i <? 0 then n + i else i)) in
  take (Z.to_nat (clip stop - clip start)) (drop (Z.to_nat (clip start)) l).

(** The index arrays of the minibatches of one epoch:
    [for start in range(0, args.batch_size, args.minibatch_size):
       end = start + args.minibatch_size; mb_inds = b_inds[start:end]]. *)
Definition minibatches (batch_size minibatch_size : Z) (b_inds : list Z)
  : result (list (list Z)) :=
  starts ← range3 0 batch_size minibatch_size;
  Ok (map (λ start, slice b_inds start (start + minibatch_size)) starts).

(** *** The losses of a minibatch *)

(** [torch.max(a, b)] and [torch.min(a, b)] on two values, and
    [torch.clamp(x, lo, hi) = min(max(x, lo), hi)]. *)
Definition maximum (a b : Q) : Q := if Qltb a b then b else a.
Definition minimum (a b : Q) : Q := if Qltb b a then b else a.
Definition clamp (x lo hi : Q) : Q := minimum (maximum x lo) hi.

(** One element of [torch.max(pg_loss1, pg_loss2)]:
    [pg_loss1 = -mb_advantages * ratio] and
    [pg_loss2 = -mb_advantages * torch.clamp(ratio, 1 - clip_coef, 1 + clip_coef)]. *)
Definition pg_loss_term (clip_coef advantage ratio : Q) : Q :=
  let pg_loss1 := (- advantage * ratio)%Q in
  let pg_loss2 := (- advantage * clamp ratio (1 - clip_coef) (1 + clip_coef))%Q in
  maximum pg_loss1 pg_loss2.

(** One element of [v_loss_max] when [clip_vloss] is set. *)
Definition v_loss_term (clip_coef newvalue b_return b_value : Q) : Q :=
  let v_loss_unclipped := ((newvalue - b_return) * (newvalue - b_return))%Q in
  let v_clipped := (b_value + clamp (newvalue - b_value) (- clip_coef) clip_coef)%Q in
  let v_loss_clipped := ((v_clipped - b_return) * (v_clipped - b_return))%Q in
  maximum v_loss_unclipped v_loss_clipped.

(** [x.mean()]: [None] stands for the [nan] of an empty tensor. *)
Definition mean (l : list Q) : option Q :=
  match l with
  | [] => None
  | _ => Some (foldr Qplus 0 l / inject_Z (Z.of_nat (length l)))%Q
  end.

(** [pg_loss] and [v_loss] of a minibatch, the tensors being of one
    length. *)
Definition pg_loss (clip_coef : Q) (mb_advantages ratio : list Q) : option Q :=
  mean (zip_with (pg_loss_term clip_coef) mb_advantages ratio).

Definition v_loss (clip_vloss : bool) (clip_coef : Q)
    (newvalue b_returns b_values : list Q) : option Q :=
  let terms :=
    if clip_vloss
    then zip_with (λ '(n, r) v, v_loss_term clip_coef n r v)
           (zip newvalue b_returns) b_values
    else zip_with (λ n r, (n - r) * (n - r))%Q newvalue b_returns in
  (λ m, (1 # 2) * m)%Q <$> mean terms.

End Main.

(** ** A concrete generator

    A linear congruential generator over [Z], to run the environment on
    concrete inputs: the state is the last raw value of 31 bits. *)

Module Lcg.

Definition modulus : Z := 2147483648.

Definition next (x : Z) : Z := (x * 1103515245 + 12345) mod modulus.

(** The raw value as a float of [0, 1). *)
Definition to_unit (x : Z) : Q := Qmake (x mod modulus) (Z.to_pos modulus).

Fixpoint uniform_draws (low high : Q) (n : nat) (x : Z) : list Q * Z :=
  match n with
  | O => ([], x)
  | S n' =>
      let x' := next x in
      let '(l, x'') := uniform_draws low high n' x' in
      ((low + (high - low) * to_unit x')%Q :: l, x'')
  end.

#[global] Instance generator : Generator Z := {
  default_rng seed := seed mod modulus;
  integers high x := let x' := next x in ((x' / 65536) mod high, x');
  random x := let x' := next x in (to_unit x', x');
  uniform := uniform_draws;
  choice n x := let x' := next x in (Z.to_nat ((x' / 65536) mod Z.of_nat n), x');
  randint low high x := let x' := next x in (low + (x' / 65536) mod (high - low), x')
}.

End Lcg.

(** * Predicates and functions of the statements *)

Definition in_grid (g : Grid.t) (i j : Z) : Prop :=
  0 ≤ i < Grid.width g ∧ 0 ≤ j < Grid.height g.

(** The list of cells has the length the dimensions announce. *)
Definition grid_wf (g : Grid.t) : Prop :=
  length (Grid.grid g) = Z.to_nat (Grid.width g * Grid.height g).

(** [m] returns from [s], with a result and a final object satisfying [P]. *)
Definition returns {S A} (m : method S A) (s : S) (P : A → S → Prop) : Prop :=
  ∃ a s', m s = (Ok a, s') ∧ P a s'.

(** The final object of a call, whether it returned or raised, is related
    to the initial one by a preorder that every part of the call respects. *)
Definition preserves {S A} (R : S → S → Prop) (m : method S A) : Prop :=
  ∀ s, R s (m s).2.


(** The grid after a write that is in range. *)
Definition grid_upd (g : Grid.t) (i j : Z) (v : option WorldObj) : Grid.t :=
  Grid.mk (Grid.width g) (Grid.height g)
    (<[Z.to_nat (j * Grid.width g + i) := v]> (Grid.grid g)).

(** The wall loops when every write is in range, and the grid of walls that
    [_gen_grid] builds in both scripts before it places the objects. *)
Definition horz_wall_pure (g : Grid.t) (x y len : Z) : Grid.t :=
  foldl (λ g i, grid_upd g (x + i) y (Some Wall)) g (seqZ 0 len).

Definition vert_wall_pure (g : Grid.t) (x y len : Z) : Grid.t :=
  foldl (λ g j, grid_upd g x (y + j) (Some Wall)) g (seqZ 0 len).

Definition empty_grid (w h : Z) : Grid.t :=
  Grid.mk w h (replicate (Z.to_nat (w * h)) None).

Definition maze (w h : Z) : Grid.t :=
  let g := empty_grid w h in
  let g := horz_wall_pure g 0 0 w in
  let g := horz_wall_pure g 0 (0 + h - 1) w in
  let g := vert_wall_pure g 0 0 h in
  let g := vert_wall_pure g (0 + w - 1) 0 h in
  let g := vert_wall_pure g (w / 2 - 1) 2 (h - 3) in
  let g := vert_wall_pure g (w / 2 + 1) 2 (h - 3) in
  let g := horz_wall_pure g 0 0 w in
  let g := horz_wall_pure g 0 2 (w / 2) in
  horz_wall_pure g (w / 2 + 1) 2 (w / 2).

(** The same grid as a list of wall segments
    [(horizontal, x, y, length)], drawn in order. *)
Definition segment : Type := bool * Z * Z * Z.

Definition draw_segment (g : Grid.t) (sg : segment) : Grid.t :=
  let '(horizontal, x, y, len) := sg in
  if horizontal then horz_wall_pure g x y len else vert_wall_pure g x y len.

(** The segment passes over the cell (i, j). *)
Definition covers (i j : Z) (sg : segment) : bool :=
  let '(horizontal, x, y, len) := sg in
  if horizontal then (j =? y) && (x <=? i) && (i <? x + len)
  else (i =? x) && (y <=? j) && (j <? y + len).

(** The segment lies inside a grid of [w] by [h] cells. *)
Definition segment_in_range (w h : Z) (sg : segment) : Prop :=
  let '(horizontal, x, y, len) := sg in
  if horizontal then 0 ≤ x ∧ x + len ≤ w ∧ 0 ≤ y < h
  else 0 ≤ x < w ∧ 0 ≤ y ∧ y + len ≤ h.

Definition maze_segments (w h : Z) : list segment :=
  [(true, 0, 0, w); (true, 0, 0 + h - 1, w); (false, 0, 0, h);
   (false, 0 + w - 1, 0, h);
   (false, w / 2 - 1, 2, h - 3); (false, w / 2 + 1, 2, h - 3);
   (true, 0, 0, w); (true, 0, 2, w / 2); (true, w / 2 + 1, 2, w / 2)].

(** Every cell is empty or a wall. *)
Definition only_walls (g : Grid.t) : Prop :=
  Forall (λ c, c = None ∨ c = Some Wall) (Grid.grid g).

(** A grid of the dimensions [w] and [h] with nothing but walls. *)
Definition walls_only (w h : Z) (g : Grid.t) : Prop :=
  Grid.width g = w ∧ Grid.height g = h ∧ grid_wf g ∧ only_walls g.

(** The cells outside [B] hold in [g'] what they hold in [g]. *)
Definition same_outside (B : list (Z * Z)) (g g' : Grid.t) : Prop :=
  ∀ i j, (i, j) ∉ B → Grid.cell g' i j = Grid.cell g i j.

(** An object of the type [t], and of the colour [c]. *)
Definition of_type (t : string) (o : WorldObj) : bool := String.eqb (type o) t.

Definition green_goal (o : WorldObj) : bool :=
  match o with
  | Goal green => true
  | _ => false
  end.

(** The corner a choice of 0 or 1 names among [(1, 1)] and [(w - 2, 1)]. *)
Definition corner (w : Z) (choice : Z) : Z * Z :=
  if choice =? 0 then (1, 1) else (w - 2, 1).

Section DqnSpec.

Import MainDqn.
Context {G : Type} `{Generator G}.

(** An environment whose grid has the dimensions of the environment, wide
    and high enough for the four box cells to lie inside it. *)
Definition env_wf (s : TMaze G) : Prop :=
  grid_wf (grid s) ∧ Grid.width (grid s) = width s ∧
  Grid.height (grid s) = height s ∧ 5 ≤ width s ∧ 3 ≤ height s.

(** The generator after [k] calls of [random()], and the [k]-th float drawn
    from [g], counting from 0. *)
Fixpoint skip_random (k : nat) (g : G) : G :=
  match k with
  | O => g
  | S k' => skip_random k' (random g).2
  end.

Definition nth_random (k : nat) (g : G) : Q := (random (skip_random k g)).1.

Definition above_threshold (s : TMaze G) : bool :=
  path_episode_threshold s <? num_episodes s.

(** The cell the branch above the threshold puts the grey box on. *)
Definition decoy_target (s : TMaze G) : Z * Z :=
  if (agent_pos s).2 =? 1
  then (if goal_is_right s then right_box s else left_box s)
  else up_box s.

(** The grid after the loop that clears the box cells. *)
Definition clear_boxes (g : Grid.t) (boxes : list (Z * Z)) : Grid.t :=
  foldl (λ g b, grid_upd g b.1 b.2 None) g boxes.

(** The grid and the generator after the loop that draws a float for every
    box cell. *)
Fixpoint place_random (boxes : list (Z * Z)) (g : Grid.t) (rng : G) : Grid.t * G :=
  match boxes with
  | [] => (g, rng)
  | b :: bs =>
      let '(r, rng') := random rng in
      place_random bs
        (if Qltb r (1 # 2) then grid_upd g b.1 b.2 (Some (Goal grey)) else g) rng'
  end.

(** The grid and the generator once [gen_obs] has placed the grey boxes. *)
Definition decoys (s : TMaze G) : Grid.t * G :=
  let g1 := clear_boxes (grid s) (box_locations s) in
  if above_threshold s
  then (grid_upd g1 (decoy_target s).1 (decoy_target s).2 (Some (Goal grey)),
        np_random s)
  else place_random (box_locations s) g1 (np_random s).

(** The floats [gen_obs] draws for the arrow. *)
Definition noise (s : TMaze G) : list Q := (uniform (-1) 1 4 (decoys s).2).1.

(** The observation [gen_obs] returns and the environment it leaves, in
    closed form. *)
Definition gen_obs_obs (s : TMaze G) : Obs :=
  mkObs (encode_view (decoys s).1 (agent_pos s) (agent_dir s)) (agent_dir s)
    "get to the green goal square" (agent_pos s)
    (if at_decision_cell s then arrow_q_values s else noise s).

Definition gen_obs_env (s : TMaze G) : TMaze G :=
  set_np_random (uniform (-1) 1 4 (decoys s).2).2 (set_grid (decoys s).1 s).

(** The one-hot encoding of the goal side over the four actions: index 1
    when the goal is in the right corner, index 0 when it is in the left. *)
Definition encoding (right : bool) : list Q :=
  if right then [0; 1; 0; 0]%Q else [1; 0; 0; 0]%Q.

(** The cell an action moves to, [None] for a value that is no action. *)
Definition fwd_pos (action : Z) (s : TMaze G) : option (Z * Z) :=
  if action =? Actions.left then Some ((agent_pos s).1 - 1, (agent_pos s).2)
  else if action =? Actions.right then Some ((agent_pos s).1 + 1, (agent_pos s).2)
  else if action =? Actions.forward then Some ((agent_pos s).1, (agent_pos s).2 - 1)
  else if action =? Actions.backward then Some ((agent_pos s).1, (agent_pos s).2 + 1)
  else None.

Definition is_type (t : string) (c : option WorldObj) : bool :=
  match c with
  | Some o => String.eqb (type o) t
  | None => false
  end.

(** A cell the agent may enter: an empty one, or an object that can be
    overlapped. *)
Definition traversable (c : option WorldObj) : bool :=
  match c with
  | Some o => can_overlap o
  | None => true
  end.

(** The reward for reaching the goal at the step count of [s]. *)
Definition shaped_reward (s : TMaze G) : Q :=
  (1 - (9 # 10) * (inject_Z (step_count s) / inject_Z (max_steps s)))%Q.

(** The environment once [step] has counted the step and moved the agent
    towards [p], before the observation is generated. *)
Definition moved (p : Z * Z) (s : TMaze G) : TMaze G :=
  let s1 := set_step_count (step_count s + 1) s in
  if traversable (Grid.cell (grid s) p.1 p.2) then set_agent_pos p s1 else s1.

(** The environment [_gen_grid(w, h)] leaves, in closed form: the corner of
    the goal is the one the draw of [integers(2)] names, the lava is in the
    other. *)
Definition goal_choice (s : TMaze G) : Z := (integers 2 (np_random s)).1.

Definition gen_grid_env (w h : Z) (s : TMaze G) : TMaze G :=
  let goal := corner w (goal_choice s) in
  let lava := corner w (1 - goal_choice s) in
  mkTMaze (width s) (height s) (max_steps s) (path_episode_threshold s)
    (num_episodes s) (Some goal) (Some lava)
    (encoding (array_equal (Some goal) (w - 2, 1)))
    (grid_upd (grid_upd (maze w h) goal.1 goal.2 (Some (Goal green)))
       lava.1 lava.2 (Some Lava))
    (w / 2, h - 2) 3 (step_count s) (integers 2 (np_random s)).2.

(** The environment [reset(seed)] generates the first observation from:
    the episode counted, the generator seeded, the map generated and the step
    counter at 0. *)
Definition reset_seeded (seed : option Z) (s : TMaze G) : TMaze G :=
  let s := set_num_episodes (num_episodes s + 1) s in
  let s := match seed with
           | Some n => set_np_random (default_rng n) s
           | None => s
           end in
  set_agent_dir (-1) (set_agent_pos (-1, -1) s).

Definition reset_grid (seed : option Z) (s : TMaze G) : TMaze G :=
  set_step_count 0 (gen_grid_env (width s) (height s) (reset_seeded seed s)).

(** An odd size that leaves room for the four box cells. *)
Definition size_ok (s : TMaze G) : Prop :=
  width s mod 2 = 1 ∧ height s mod 2 = 1 ∧ 5 ≤ width s ∧ 3 ≤ height s.

(** What [step] and [gen_obs] keep of an environment: the configuration,
    the episode counter, the layout attributes, and the shape of the grid. *)
Definition kept (s s' : TMaze G) : Prop :=
  width s' = width s ∧ height s' = height s ∧ max_steps s' = max_steps s ∧
  path_episode_threshold s' = path_episode_threshold s ∧
  num_episodes s' = num_episodes s ∧
  goal_position s' = goal_position s ∧ lava_position s' = lava_position s ∧
  arrow_q_values s' = arrow_q_values s ∧
  Grid.width (grid s') = Grid.width (grid s) ∧
  Grid.height (grid s') = Grid.height (grid s) ∧
  (grid_wf (grid s) → grid_wf (grid s')).

(** What a call may change of an environment when it only writes on the
    cells of [B]: the other cells are kept, with all that [kept] lists. *)
Definition frame (B : list (Z * Z)) (s s' : TMaze G) : Prop :=
  same_outside B (grid s) (grid s') ∧ kept s s'.

(** The environments an episode goes through: the one a call of [reset]
    that returned has left, on any environment, and the one a call of [step]
    that returned has left, on an environment of the episode. *)
Inductive reachable : TMaze G → Prop :=
| reachable_reset s seed obs s' :
    reset seed s = (Ok obs, s') → reachable s'
| reachable_step s action r s' :
    reachable s → step action s = (Ok r, s') → reachable s'.

(** The observations of an episode, each with the environment the call
    that returned it has left. *)
Inductive observed : Obs → TMaze G → Prop :=
| observed_reset s seed obs s' :
    reset seed s = (Ok obs, s') → observed obs s'
| observed_step s action obs r terminated truncated s' :
    reachable s → step action s = (Ok (obs, r, terminated, truncated), s') →
    observed obs s'.

(** What holds of every environment of an episode: its grid is well formed
    and of an admissible size, the layout attributes name the two corners,
    and [arrow_q_values] is the encoding of the side of the goal. *)
Definition episode_inv (s : TMaze G) : Prop :=
  env_wf s ∧ size_ok s ∧
  arrow_q_values s = encoding (goal_is_right s) ∧
  ∃ c, (c = 0 ∨ c = 1) ∧
    goal_position s = Some (corner (width s) c) ∧
    lava_position s = Some (corner (width s) (1 - c)).



(** The agent is off the border of the grid, and the border is walls. *)
Definition inside (s : TMaze G) : Prop :=
  1 ≤ (agent_pos s).1 ≤ width s - 2 ∧ 1 ≤ (agent_pos s).2 ≤ height s - 2.

Definition border_walls (s : TMaze G) : Prop :=
  ∀ i j, 0 ≤ i < width s → 0 ≤ j < height s →
    i = 0 ∨ i = width s - 1 ∨ j = 0 ∨ j = height s - 1 →
    Grid.cell (grid s) i j = Some Wall.

(** Every cell of the grid of [s'] holds what it holds in [s]. *)
Definition keeps_grid (s s' : TMaze G) : Prop :=
  ∀ i j, Grid.cell (grid s') i j = Grid.cell (grid s) i j.

(** The box cell on the side of the goal. *)
Definition side_box (s : TMaze G) : Z * Z :=
  if goal_is_right s then right_box s else left_box s.

(** The grey box is on the side of the goal once [gen_obs] has run. *)
Definition decoy_on_goal_side (s : TMaze G) : Prop :=
  Grid.cell (grid (gen_obs s).2) (side_box s).1 (side_box s).2 = Some (Goal grey).

(** What would make [step] reject [a] with nothing changed. *)
Definition rejects_unchanged (a : Z) (s : TMaze G) : Prop :=
  ∃ e s', step a s = (Raise e, s') ∧ step_count s' = step_count s ∧
    agent_pos s' = agent_pos s ∧ agent_dir s' = agent_dir s ∧ grid s' = grid s.

(** The object [TMaze(size, max_steps)] constructs. *)
Definition constructed (size max_steps : Z) (rng : G) : TMaze G :=
  mkTMaze size size max_steps 2000 0 None None []
    (Grid.mk size size (replicate (Z.to_nat (size * size)) None))
    (-1, -1) (-1) 0 rng.

(** The environment after a sequence of calls of [step], errors and
    results dropped. *)
Definition run (actions : list Z) (s : TMaze G) : TMaze G :=
  foldl (λ s a, (step a s).2) s actions.

End DqnSpec.

Section MainSpec.

Import Main.
Context {G : Type} `{Generator G}.



(** The object [TMaze(size)] of [main.py] constructs. *)
Definition main_constructed (size : Z) (rng rng_global : G) : TMaze G :=
  mkTMaze size size (4 * size ^ 2) None []
    (Grid.mk size size (replicate (Z.to_nat (size * size)) None))
    (-1, -1) (-1) 0 rng rng_global.

End MainSpec.

(** ** Concrete environments *)

(** The environment [main.py] registers, of size 9, once [_gen_grid] has
    run: the goal is in the left corner, the agent at (4, 7), and no cell
    holds lava. *)
Definition ex_main : Main.TMaze Z :=
  Eval vm_compute in
    (Main._gen_grid 9 9 (main_constructed 9 (default_rng 1) (default_rng 1))).2.


(** The registered environment, of size 11, after [reset(seed=1)]: the goal
    is in the left corner and the agent at (5, 9). *)
Definition ex_start : MainDqn.TMaze Z :=
  Eval vm_compute in (MainDqn.reset (Some 1) (constructed 11 242 (default_rng 1))).2.

(** The same environment when 2000 episodes have gone before: the episode
    is the 2001st, above the threshold, and the goal is in the left corner
    again. *)
Definition ex_late : MainDqn.TMaze Z :=
  Eval vm_compute in
    (MainDqn.reset (Some 1)
       (MainDqn.set_num_episodes 2000 (constructed 11 242 (default_rng 1)))).2.


(** An environment of size 11 with [max_steps = 12], after [reset(seed=1)],
    eight steps forward and three steps left: the agent is at (2, 1), next
    to the goal, and the next step is the twelfth. *)
Definition ex_last_step : MainDqn.TMaze Z :=
  Eval vm_compute in
    run [1; 1; 1; 1; 1; 1; 1; 1; 0; 0; 0]
      (MainDqn.reset (Some 1) (constructed 11 12 (default_rng 1))).2.

(** ** main.py: the rollout loop *)

Section RolloutSpec.

Context {Env Agent Img : Type}.
Variable envs_step : Z → Env → (Img * Q * Q * bool * bool) * Env.
Variable get_action_and_value : Img → Q → Agent → (Z * Q * Q) * Agent.

(** The agent's forward pass of the step that starts in [l]. *)
Definition forward (l : @Main.Loop Env Agent Img) : (Z * Q * Q) * Agent :=
  get_action_and_value (Main.next_obs l) (Main.full_obs_arrow l) (Main.agent l).

Definition chosen_action (l : @Main.Loop Env Agent Img) : Z := (forward l).1.1.1.

(** The agent after that forward pass: what it reports of its branch is
    read from here. *)
Definition agent_after (l : @Main.Loop Env Agent Img) : Agent := (forward l).2.

(** What [envs.step] returns for the chosen action, and its reward. *)
Definition env_step (l : @Main.Loop Env Agent Img) : (Img * Q * Q * bool * bool) * Env :=
  envs_step (chosen_action l) (Main.envs l).

Definition env_reward (l : @Main.Loop Env Agent Img) : Q := (env_step l).1.1.1.2.

(** The storage tensors have [n] rows each. *)
Definition rows (n : nat) (st : @Main.Storage Img) : Prop :=
  length (Main.obs st) = n ∧ length (Main.actions st) = n ∧
  length (Main.arrows st) = n ∧ length (Main.logprobs st) = n ∧
  length (Main.rewards st) = n ∧ length (Main.dones st) = n ∧
  length (Main.values st) = n.

End RolloutSpec.

(** A rollout of two steps: an environment that pays 1 at every step, and an
    agent that alternates between its branches, the heavy one first. *)
Definition ex_envs_step (action : Z) (e : Z) : (unit * Q * Q * bool * bool) * Z :=
  ((tt, 0%Q, 1%Q, false, false), e + 1).

Definition ex_get_action_and_value (_ : unit) (_ : Q) (a : bool) : (Z * Q * Q) * bool :=
  ((1, 0%Q, 0%Q), negb a).

Definition ex_last_gate (a : bool) : bool := a.

Definition ex_loop : @Main.Loop Z bool unit :=
  Main.mkLoop 0 tt 0%Q 0%Q
    (Main.mkStorage [tt; tt] [0; 0] [0%Q; 0%Q] [0%Q; 0%Q] [0%Q; 0%Q] [0%Q; 0%Q]
       [0%Q; 0%Q])
    0 true.

(** ** main_dqn.py: the corners through an episode *)

Section DqnCornersSpec.

Import MainDqn.
Context {G : Type} `{Generator G}.

(** The layout attributes name the two corners, the grid holds the green
    goal in the one and the lava in the other. *)
Definition corners_hold (s : TMaze G) : Prop :=
  ∃ c, (c = 0 ∨ c = 1) ∧
    let goal := corner (width s) c in
    let lava := corner (width s) (1 - c) in
    goal_position s = Some goal ∧ lava_position s = Some lava ∧
    Grid.cell (grid s) goal.1 goal.2 = Some (Goal green) ∧
    Grid.cell (grid s) lava.1 lava.2 = Some Lava.

End DqnCornersSpec.

(** ** main_dqn.py: the map and the agent through an episode *)

(** The cells of the T: the top row and the corridor below its middle. *)
Definition in_T (w h : Z) (p : Z * Z) : Prop :=
  (p.2 = 1 ∧ 1 ≤ p.1 ≤ w - 2) ∨ (p.1 = w / 2 ∧ 1 ≤ p.2 ≤ h - 2).

(** The cells next to the T that are not of it. *)
Definition wall_near_T (w h : Z) (p : Z * Z) : Prop :=
  (p.2 = 0 ∧ 0 ≤ p.1 < w) ∨
  (p.2 = 1 ∧ (p.1 = 0 ∨ p.1 = w - 1)) ∨
  (p.2 = 2 ∧ 0 ≤ p.1 < w ∧ p.1 ≠ w / 2) ∨
  ((p.1 = w / 2 - 1 ∨ p.1 = w / 2 + 1) ∧ 2 ≤ p.2 ≤ h - 2) ∨
  (p.1 = w / 2 ∧ p.2 = h - 1).

(** The grid [_gen_grid] of [main_dqn.py] builds when the draw is [c]: the
    maze, the goal in the corner [c] and the lava in the other corner. *)
Definition layout (w h c : Z) : Grid.t :=
  grid_upd
    (grid_upd (maze w h) (corner w c).1 (corner w c).2 (Some (Goal green)))
    (corner w (1 - c)).1 (corner w (1 - c)).2 (Some Lava).

Section DqnEpisodeSpec.

Import MainDqn.
Context {G : Type} `{Generator G}.

(** The layout attributes name the corners of a draw [c], and away from the
    four box cells the grid is the one [_gen_grid] built for that draw. *)
Definition has_layout (s : TMaze G) : Prop :=
  ∃ c, (c = 0 ∨ c = 1) ∧
    goal_position s = Some (corner (width s) c) ∧
    lava_position s = Some (corner (width s) (1 - c)) ∧
    same_outside (box_locations s) (layout (width s) (height s) c) (grid s).

(** What [__init__] declares of the observations: [direction] in
    [Discrete(4)], [position] in [Box(0, size - 1, (2,))] and [arrow] in
    [Box(-1.0, 1.0, (4,))]. *)
Definition in_observation_space (size : Z) (obs : Obs) : Prop :=
  0 ≤ direction obs < 4 ∧
  0 ≤ (position obs).1 ≤ size - 1 ∧ 0 ≤ (position obs).2 ≤ size - 1 ∧
  length (arrow obs) = 4%nat ∧
  Forall (λ x, -1 <= x ∧ x <= 1)%Q (arrow obs).

(** The results of a sequence of calls of [step], each on the environment
    the call before has left. *)
Fixpoint steps (actions : list Z) (s : TMaze G)
  : list (result (Obs * Q * bool * bool)) :=
  match actions with
  | [] => []
  | a :: actions' => (step a s).1 :: steps actions' (step a s).2
  end.

End DqnEpisodeSpec.

Section DqnCountSpec.

Import MainDqn.
Context {G : Type} `{Generator G}.

(** What the calls inside [step] and [gen_obs] never write: the step
    counter, the step budget and the direction of the agent. *)
Definition counted (s s' : TMaze G) : Prop :=
  step_count s' = step_count s ∧ max_steps s' = max_steps s ∧
  agent_dir s' = agent_dir s.

End DqnCountSpec.

(** The environment of size 11 with [max_steps = 12] after [reset(seed=1)],
    from which [ex_last_step] is reached. *)
Definition ex_short_start : MainDqn.TMaze Z :=
  Eval vm_compute in (MainDqn.reset (Some 1) (constructed 11 12 (default_rng 1))).2.

Section DqnPathSpec.

Import MainDqn.
Context {G : Type} `{Generator G}.

(** The action that moves towards the corner of the goal along the top
    row. *)
Definition goal_side (s : TMaze G) : Z :=
  if goal_is_right s then Actions.right else Actions.left.

(** Up the corridor to the top row, then along the top row to the corner on
    the side of the goal. *)
Definition goal_path (s : TMaze G) : list Z :=
  replicate (Z.to_nat (height s - 3)) Actions.forward ++
  replicate (Z.to_nat (width s / 2 - 1)) (goal_side s).

(** A step that returned with no reward and the episode not ended. *)
Definition quiet (x : result (Obs * Q * bool * bool)) : Prop :=
  ∃ obs truncated, x = Ok (obs, 0%Q, false, truncated).

(** The index [_gen_grid] writes the 1.0 of [arrow_q_values] at:
    [int(np.array_equal(self.goal_position, np.array((width - 2, 1))))]. *)
Definition hint_index (s : TMaze G) : Z := Z.of_nat (Nat.b2n (goal_is_right s)).

End DqnPathSpec.

(** The registered environment after [reset(seed=3)], which puts the goal
    in the right corner, and eight steps up the corridor: the agent is on
    the decision cell (5, 1). *)
Definition ex_right_start : MainDqn.TMaze Z :=
  Eval vm_compute in (MainDqn.reset (Some 3) (constructed 11 242 (default_rng 1))).2.

Definition ex_right_decision : MainDqn.TMaze Z :=
  Eval vm_compute in run [1; 1; 1; 1; 1; 1; 1; 1] ex_right_start.

(** ** main_dqn.py: the wrappers and the rendering *)

(** A pixel of three channels of [uint8]. *)
Definition uint8_pixel (pixel : Z * Z * Z) : Prop :=
  0 ≤ pixel.1.1 ≤ 255 ∧ 0 ≤ pixel.1.2 ≤ 255 ∧ 0 ≤ pixel.2 ≤ 255.

Section RenderSpec.

Import MainDqn.
Context {Tile : Type}.
Variable draw_tile : option WorldObj → bool → bool → Z → Z → Tile.

(** The grid without its green goal and its lava. *)
Definition hide (g : Grid.t) : Grid.t :=
  Grid.mk (Grid.width g) (Grid.height g)
    (map (DirectionlessGrid.shown true) (Grid.grid g)).

(** Every tile of the cache is the one [render_tile] draws for its key. *)
Definition cache_sound (c : DirectionlessGrid.Cache (Tile:=Tile)) : Prop :=
  ∀ obj agent_dir highlight tile_size t,
    DirectionlessGrid.cache_get c (encode <$> obj, agent_dir, highlight, tile_size)
      = Some t →
    t = draw_tile obj (bool_decide (agent_dir ≠ None)) highlight tile_size 3.

(** The tile of the cell (i, j): the cell as it is shown, with the circle
    of the agent on the cell of the agent when a direction is given. *)
Definition tile_of (invisible_goal : bool) (g : Grid.t) (tile_size : Z)
    (agent_pos : Z * Z) (agent_dir : option Z) (i j : Z) : Tile :=
  draw_tile (DirectionlessGrid.shown invisible_goal (Grid.cell g i j))
    ((agent_pos.1 =? i) && (agent_pos.2 =? j) && bool_decide (agent_dir ≠ None))
    false tile_size 3.

Definition image_of (invisible_goal : bool) (g : Grid.t) (tile_size : Z)
    (agent_pos : Z * Z) (agent_dir : option Z) : list (list Tile) :=
  map (λ j, map (λ i, tile_of invisible_goal g tile_size agent_pos agent_dir i j)
              (seqZ 0 (Grid.width g)))
    (seqZ 0 (Grid.height g)).

End RenderSpec.

(** A drawing that records what it was asked to draw. *)
Definition ex_draw_tile (obj : option WorldObj) (agent highlight : bool)
    (tile_size subdivs : Z) : option WorldObj * bool * bool * Z * Z :=
  (obj, agent, highlight, tile_size, subdivs).

(** ** main_dqn.py: the training loop *)

Section LoopSpec.

Import MainDqn.
Context {Env ObsT Act Agent Buffer : Type}.
Variable envs_step : Act → Env → (ObsT * Q * bool * bool) * Env.
Variable select_action : Q → ObsT → Agent → Act * Agent.

(** The action an iteration chooses with the exploration rate [epsilon],
    and what [envs.step] returns for it. *)
Definition chosen (epsilon : Q) (l : @Loop Env ObsT Agent Buffer) : Act :=
  (select_action epsilon (obs l) (agent l)).1.

Definition stepped (epsilon : Q) (l : @Loop Env ObsT Agent Buffer)
  : (ObsT * Q * bool * bool) * Env :=
  envs_step (chosen epsilon l) (envs l).

End LoopSpec.

(** A loop of [main_dqn.py] on an environment that counts its steps, pays
    the count and ends the episode at the second step; the agent answers
    with the observation it is shown and the buffer lists what is added. *)
Definition ex_dqn_reset (e : Z) : Z * Z := (0, 0).

Definition ex_dqn_step (a : Z) (e : Z) : (Z * Q * bool * bool) * Z :=
  ((e + 1, inject_Z (e + 1), 2 <=? e + 1, false), e + 1).

Definition ex_dqn_select (epsilon : Q) (o : Z) (a : unit) : Z * unit := (o, a).

Definition ex_dqn_add (o o' a : Z) (r : Q) (d : bool) (b : list (Z * Z * Z * Q * bool))
  : list (Z * Z * Z * Q * bool) := (o, o', a, r, d) :: b.

Definition ex_dqn_train (g : Z) (b : list (Z * Z * Z * Q * bool)) (a : unit) : unit := a.

Definition ex_dqn_loop : @MainDqn.Loop Z Z unit (list (Z * Z * Z * Q * bool)) :=
  MainDqn.mkLoop 1 1 1%Q false false 1 [] tt.
(** * Properties *)

(** ** The concrete generator keeps numpy's ranges *)

Lemma Lcg_to_unit_range x : (0 <= Lcg.to_unit x ∧ Lcg.to_unit x < 1)%Q.
Proof.
  unfold Lcg.to_unit, Qle, Qlt; simpl.
  pose proof (Z.mod_pos_bound x Lcg.modulus eq_refl) as Hb.
  unfold Lcg.modulus in *. split; lia.
Qed.

Lemma Lcg_uniform_draws_length low high n x :
  length (Lcg.uniform_draws low high n x).1 = n.
Proof.
  revert x; induction n as [|n IH]; intros x; simpl; [done|].
  specialize (IH (Lcg.next x)).
  destruct (Lcg.uniform_draws low high n (Lcg.next x)); simpl in *. by rewrite IH.
Qed.

Lemma Lcg_uniform_draws_range low high n x :
  (low < high)%Q →
  Forall (λ q, low <= q ∧ q < high)%Q (Lcg.uniform_draws low high n x).1.
Proof.
  intros Hlt. revert x; induction n as [|n IH]; intros x; simpl; [constructor|].
  specialize (IH (Lcg.next x)).
  destruct (Lcg.uniform_draws low high n (Lcg.next x)); simpl in *.
  constructor; [|done].
  destruct (Lcg_to_unit_range (Lcg.next x)) as [H0 H1].
  set (u := Lcg.to_unit (Lcg.next x)) in *.
  assert (Hd : (0 < high - low)%Q) by lra.
  assert (Hlo : (0 <= (high - low) * u)%Q)
    by (apply Qmult_le_0_compat; [apply Qlt_le_weak|]; done).
  assert (Hhi : ((high - low) * u < (high - low) * 1)%Q)
    by (apply Qmult_lt_l; done).
  split; lra.
Qed.

Lemma Lcg_laws : GeneratorLaws Z.
Proof.
  split.
  - intros high g Hh; simpl. apply Z.mod_pos_bound; lia.
  - intros g; simpl. apply Lcg_to_unit_range.
  - intros; simpl. apply Lcg_uniform_draws_length.
  - intros; simpl. by apply Lcg_uniform_draws_range.
  - intros n g Hn; simpl.
    pose proof (Z.mod_pos_bound (Lcg.next g / 65536) (Z.of_nat n)). lia.
  - intros low high g Hlt; simpl.
    pose proof (Z.mod_pos_bound (Lcg.next g / 65536) (high - low)). lia.
Qed.

(** ** The grid: reads and writes *)

Lemma assert_true c : c = true → assert c = Ok tt.
Proof. by intros ->. Qed.

Lemma assert_Ok c u : assert c = Ok u → c = true.
Proof. by destruct c. Qed.

Lemma in_grid_test g i j :
  in_grid g i j →
  (0 <=? i) && (i <? Grid.width g) = true ∧ (0 <=? j) && (j <? Grid.height g) = true.
Proof. unfold in_grid; intros; split; apply andb_true_iff; lia. Qed.

Lemma Grid_set_in g i j v :
  in_grid g i j →
  Grid.set g i j v =
    Ok (Grid.mk (Grid.width g) (Grid.height g)
          (<[Z.to_nat (j * Grid.width g + i) := v]> (Grid.grid g))).
Proof.
  intros Hin. destruct (in_grid_test g i j Hin) as [Hi Hj].
  unfold Grid.set. by rewrite Hi, Hj.
Qed.

Lemma Grid_set_Ok g i j v g' :
  Grid.set g i j v = Ok g' →
  in_grid g i j ∧
  g' = Grid.mk (Grid.width g) (Grid.height g)
         (<[Z.to_nat (j * Grid.width g + i) := v]> (Grid.grid g)).
Proof.
  unfold Grid.set, in_grid.
  destruct ((0 <=? i) && (i <? Grid.width g)) eqn:Hi; [|done].
  destruct ((0 <=? j) && (j <? Grid.height g)) eqn:Hj; [|done].
  simpl. intros [= <-]. apply andb_true_iff in Hi, Hj. split; [lia|done].
Qed.

Lemma Grid_set_out g i j v :
  ¬ in_grid g i j → Grid.set g i j v = Raise AssertionError.
Proof.
  unfold Grid.set, in_grid. intros Hout.
  destruct ((0 <=? i) && (i <? Grid.width g)) eqn:Hi; [|done].
  destruct ((0 <=? j) && (j <? Grid.height g)) eqn:Hj; [|done].
  apply andb_true_iff in Hi, Hj. lia.
Qed.

Lemma Grid_set_dims g i j v g' :
  Grid.set g i j v = Ok g' →
  Grid.width g' = Grid.width g ∧ Grid.height g' = Grid.height g.
Proof. intros [_ ->]%Grid_set_Ok. done. Qed.

Lemma Grid_set_wf g i j v g' :
  Grid.set g i j v = Ok g' → grid_wf g → grid_wf g'.
Proof.
  intros [_ ->]%Grid_set_Ok. unfold grid_wf; simpl. by rewrite length_insert.
Qed.

Lemma cell_index_lt g i j :
  grid_wf g → in_grid g i j →
  (Z.to_nat (j * Grid.width g + i) < length (Grid.grid g))%nat.
Proof.
  unfold grid_wf, in_grid. intros -> [Hi Hj].
  assert (j * Grid.width g + i < Grid.width g * Grid.height g) by nia.
  assert (0 ≤ j * Grid.width g + i) by nia.
  lia.
Qed.

Lemma cell_index_inj w i j i' j' :
  0 ≤ i < w → 0 ≤ i' < w → 0 ≤ j → 0 ≤ j' →
  Z.to_nat (j * w + i) = Z.to_nat (j' * w + i') → i = i' ∧ j = j'.
Proof.
  intros Hi Hi' Hj Hj' Heq.
  assert (0 ≤ j * w + i) by nia. assert (0 ≤ j' * w + i') by nia.
  assert (Hz : j * w + i = j' * w + i') by lia.
  assert (j = j') by nia. subst. lia.
Qed.

Lemma Grid_cell_in g i j :
  in_grid g i j →
  Grid.cell g i j = default None (Grid.grid g !! Z.to_nat (j * Grid.width g + i)).
Proof.
  unfold in_grid, Grid.cell. intros ?.
  replace ((0 <=? i) && (i <? Grid.width g) && (0 <=? j) && (j <? Grid.height g))
    with true; [done|].
  symmetry. rewrite !andb_true_iff. lia.
Qed.

Lemma Grid_cell_out g i j : ¬ in_grid g i j → Grid.cell g i j = None.
Proof.
  unfold in_grid, Grid.cell. intros ?.
  destruct ((0 <=? i) && (i <? Grid.width g) && (0 <=? j) && (j <? Grid.height g))
    eqn:E; [|done].
  rewrite !andb_true_iff in E. lia.
Qed.

(** A write is read back, and changes no other cell. *)
Lemma Grid_cell_set_eq g i j v g' :
  grid_wf g → Grid.set g i j v = Ok g' → Grid.cell g' i j = v.
Proof.
  intros Hwf Hset. destruct (Grid_set_Ok _ _ _ _ _ Hset) as [Hin ->].
  rewrite Grid_cell_in by done. simpl.
  rewrite list_lookup_insert_eq; [done|]. by apply cell_index_lt.
Qed.

Lemma Grid_cell_set_ne g i j v g' i' j' :
  Grid.set g i j v = Ok g' → (i', j') ≠ (i, j) →
  Grid.cell g' i' j' = Grid.cell g i' j'.
Proof.
  intros Hset Hne. destruct (Grid_set_Ok _ _ _ _ _ Hset) as [Hin ->].
  destruct (decide (in_grid g i' j')) as [Hin'|Hout].
  - rewrite !Grid_cell_in by done. simpl.
    rewrite list_lookup_insert_ne; [done|].
    intros Heq. unfold in_grid in *.
    apply cell_index_inj in Heq; [|lia..]. destruct Heq; congruence.
  - rewrite !Grid_cell_out; done.
Qed.

Lemma Grid_get_in g i j :
  grid_wf g → in_grid g i j → Grid.get g i j = Ok (Grid.cell g i j).
Proof.
  intros Hwf Hin. destruct (in_grid_test g i j Hin) as [Hi Hj].
  unfold Grid.get. rewrite Hi, Hj; simpl.
  rewrite Grid_cell_in by done.
  destruct (lookup_lt_is_Some_2 (Grid.grid g) _ (cell_index_lt g i j Hwf Hin))
    as [c ->]. done.
Qed.

(** ** Methods: running a sequence of calls *)

Lemma bind_Ok {S A B} (m : method S A) (f : A → method S B) s a s' :
  m s = (Ok a, s') → (m ≫= f) s = f a s'.
Proof. unfold mbind, method_bind. by intros ->. Qed.

Lemma bind_Raise {S A B} (m : method S A) (f : A → method S B) s e s' :
  m s = (Raise e, s') → (m ≫= f) s = (Raise e, s').
Proof. unfold mbind, method_bind. by intros ->. Qed.

Lemma bind_Ok_inv {S A B} (m : method S A) (f : A → method S B) s b s' :
  (m ≫= f) s = (Ok b, s') → ∃ a s1, m s = (Ok a, s1) ∧ f a s1 = (Ok b, s').
Proof.
  unfold mbind, method_bind. destruct (m s) as [[a|e] s1]; [|done].
  intros Hf. by exists a, s1.
Qed.

Lemma returns_bind {S A B} (m : method S A) (f : A → method S B) s P :
  returns m s (λ a s', returns (f a) s' P) → returns (m ≫= f) s P.
Proof.
  intros (a & s' & Hm & b & s'' & Hf & HP).
  exists b, s''. split; [|done]. by rewrite (bind_Ok _ _ _ _ _ Hm).
Qed.

Lemma preserves_bind {S A B} (R : S → S → Prop) `{!Transitive R}
    (m : method S A) (f : A → method S B) :
  preserves R m → (∀ a, preserves R (f a)) → preserves R (m ≫= f).
Proof.
  intros Hm Hf s. unfold mbind, method_bind.
  specialize (Hm s). destruct (m s) as [[a|e] s']; simpl in *; [|done].
  etrans; [done|]. apply Hf.
Qed.

Lemma preserves_ret {S A} (R : S → S → Prop) `{!Reflexive R} (a : A) :
  preserves R (mret a : method S A).
Proof. intros s. simpl. reflexivity. Qed.

Lemma preserves_lift {S A} (R : S → S → Prop) `{!Reflexive R} (r : result A) :
  preserves R (lift r : method S A).
Proof. intros s. simpl. reflexivity. Qed.

Lemma preserves_raise {S A} (R : S → S → Prop) `{!Reflexive R} e :
  preserves R (raise e : method S A).
Proof. intros s. simpl. reflexivity. Qed.

Lemma preserves_get {S} (R : S → S → Prop) `{!Reflexive R} :
  preserves R (get : method S S).
Proof. intros s. simpl. reflexivity. Qed.

Lemma preserves_gets {S A} (R : S → S → Prop) `{!Reflexive R} (f : S → A) :
  preserves R (gets f).
Proof. intros s. simpl. reflexivity. Qed.

Lemma preserves_for_each {S A} (R : S → S → Prop) `{!PreOrder R}
    (xs : list A) (body : A → method S unit) :
  (∀ x, x ∈ xs → preserves R (body x)) → preserves R (for_each xs body).
Proof.
  intros Hbody. induction xs as [|x xs IH]; simpl.
  - apply preserves_ret; apply _.
  - apply preserves_bind; [apply _|apply Hbody; apply list_elem_of_here|].
    intros _. apply IH. intros y Hy. apply Hbody. by apply list_elem_of_further.
Qed.

(** ** Writes in closed form *)

Lemma Grid_set_upd g i j v :
  in_grid g i j → Grid.set g i j v = Ok (grid_upd g i j v).
Proof. apply Grid_set_in. Qed.

Lemma grid_upd_wf g i j v : grid_wf g → grid_wf (grid_upd g i j v).
Proof. unfold grid_wf; simpl. by rewrite length_insert. Qed.

Lemma in_grid_upd g i j v i' j' : in_grid (grid_upd g i j v) i' j' ↔ in_grid g i' j'.
Proof. done. Qed.

Lemma cell_upd_eq g i j v :
  grid_wf g → in_grid g i j → Grid.cell (grid_upd g i j v) i j = v.
Proof.
  intros Hwf Hin. apply (Grid_cell_set_eq g); [done|]. by apply Grid_set_upd.
Qed.

Lemma cell_upd_ne g i j v i' j' :
  in_grid g i j → (i', j') ≠ (i, j) →
  Grid.cell (grid_upd g i j v) i' j' = Grid.cell g i' j'.
Proof.
  intros Hin Hne. apply (Grid_cell_set_ne g i j v); [|done]. by apply Grid_set_upd.
Qed.

(** ** main_dqn.py: [gen_obs] in closed form *)

Section DqnGenObs.

Import MainDqn.
Context {G : Type} `{Generator G}.
Implicit Types s : TMaze G.

Lemma set_grid_id s : set_grid (grid s) s = s.
Proof. by destruct s. Qed.

Lemma set_np_random_id s : set_np_random (np_random s) s = s.
Proof. by destruct s. Qed.

Lemma on_grid_set s i j v :
  in_grid (grid s) i j →
  on_grid (λ g, Grid.set g i j v) s = (Ok tt, set_grid (grid_upd (grid s) i j v) s).
Proof. intros Hin. unfold on_grid. by rewrite Grid_set_upd. Qed.

Lemma draw_eq {A} (f : G → A * G) s :
  draw f s = (Ok (f (np_random s)).1, set_np_random (f (np_random s)).2 s).
Proof. unfold draw. by destruct (f (np_random s)). Qed.

Lemma box_bounds w h :
  5 ≤ w → 3 ≤ h →
  1 ≤ w * 3 / 4 ∧ w * 3 / 4 + 1 < w ∧ 2 ≤ h * 2 / 3 ∧ h * 2 / 3 < h.
Proof. intros Hw Hh. repeat split; Z.div_mod_to_equations; lia. Qed.

Lemma boxes_in_grid s :
  env_wf s → Forall (λ b, in_grid (grid s) b.1 b.2) (box_locations s).
Proof.
  intros (_ & Hw & Hh & H5 & H3).
  destruct (box_bounds _ _ H5 H3) as (? & ? & ? & ?).
  unfold box_locations, left_box, right_box, up_box, down_box, in_grid.
  rewrite Hw, Hh. repeat constructor; simpl; lia.
Qed.

Lemma decoy_target_box s : decoy_target s ∈ box_locations s.
Proof.
  unfold decoy_target, box_locations.
  destruct (_ =? 1); [destruct (goal_is_right s)|]; rewrite !elem_of_cons; tauto.
Qed.

Lemma clear_boxes_dims g boxes :
  Grid.width (clear_boxes g boxes) = Grid.width g ∧
  Grid.height (clear_boxes g boxes) = Grid.height g.
Proof.
  unfold clear_boxes. revert g; induction boxes as [|b bs IH]; intros g; [done|].
  simpl. by destruct (IH (grid_upd g b.1 b.2 None)) as [-> ->].
Qed.

Lemma clear_boxes_wf g boxes : grid_wf g → grid_wf (clear_boxes g boxes).
Proof.
  unfold clear_boxes. revert g; induction boxes as [|b bs IH]; intros g Hwf; [done|].
  simpl. apply IH. by apply grid_upd_wf.
Qed.

Lemma in_grid_dims g g' i j :
  Grid.width g' = Grid.width g → Grid.height g' = Grid.height g →
  in_grid g i j → in_grid g' i j.
Proof. unfold in_grid. by intros -> ->. Qed.

Lemma for_each_clear s boxes :
  Forall (λ b, in_grid (grid s) b.1 b.2) boxes →
  for_each boxes (λ box, on_grid (λ g, Grid.set g box.1 box.2 None)) s =
    (Ok tt, set_grid (clear_boxes (grid s) boxes) s).
Proof.
  revert s; induction boxes as [|b bs IH]; intros s Hin; simpl.
  - by rewrite set_grid_id.
  - inversion Hin as [|?? Hb Hbs]; subst.
    erewrite bind_Ok by (by apply on_grid_set).
    rewrite IH; [done|]. simpl. done.
Qed.

Lemma place_random_dims boxes g rng :
  Grid.width (place_random boxes g rng).1 = Grid.width g ∧
  Grid.height (place_random boxes g rng).1 = Grid.height g.
Proof.
  revert g rng; induction boxes as [|b bs IH]; intros g rng; simpl; [done|].
  destruct (random rng) as [r rng'].
  destruct (IH (if Qltb r (1 # 2) then grid_upd g b.1 b.2 (Some (Goal grey)) else g) rng')
    as [-> ->].
  by destruct (Qltb r (1 # 2)).
Qed.

Lemma place_random_wf boxes g rng :
  grid_wf g → grid_wf (place_random boxes g rng).1.
Proof.
  revert g rng; induction boxes as [|b bs IH]; intros g rng Hwf; simpl; [done|].
  destruct (random rng) as [r rng']. apply IH.
  destruct (Qltb r (1 # 2)); [by apply grid_upd_wf|done].
Qed.

Lemma place_random_rng boxes g rng :
  (place_random boxes g rng).2 = skip_random (length boxes) rng.
Proof.
  revert g rng; induction boxes as [|b bs IH]; intros g rng; simpl; [done|].
  destruct (random rng) as [r rng'] eqn:E. by rewrite IH.
Qed.

Lemma place_body s (b : Z * Z) :
  in_grid (grid s) b.1 b.2 →
  (r ← draw random;
   if Qltb r (1 # 2) then put_obj (Goal grey) b.1 b.2 else mret tt) s =
    (Ok tt,
     set_np_random (random (np_random s)).2
       (set_grid (if Qltb (random (np_random s)).1 (1 # 2)
                  then grid_upd (grid s) b.1 b.2 (Some (Goal grey))
                  else grid s) s)).
Proof.
  intros Hin. erewrite bind_Ok by apply draw_eq.
  destruct (Qltb (random (np_random s)).1 (1 # 2)).
  - unfold put_obj. by rewrite on_grid_set.
  - simpl. by rewrite set_grid_id.
Qed.

Lemma for_each_place s boxes :
  Forall (λ b, in_grid (grid s) b.1 b.2) boxes →
  for_each boxes (λ box,
      r ← draw random;
      if Qltb r (1 # 2) then put_obj (Goal grey) box.1 box.2 else mret tt) s =
    (Ok tt,
     set_np_random (place_random boxes (grid s) (np_random s)).2
       (set_grid (place_random boxes (grid s) (np_random s)).1 s)).
Proof.
  revert s; induction boxes as [|b bs IH]; intros s Hin; simpl.
  - by rewrite set_grid_id, set_np_random_id.
  - inversion Hin as [|?? Hb Hbs]; subst.
    erewrite bind_Ok by (by apply place_body).
    destruct (random (np_random s)) as [r rng'] eqn:E; simpl.
    rewrite IH; [done|]. simpl. by destruct (Qltb r (1 # 2)).
Qed.

(** [gen_obs] returns whenever the box cells lie inside the grid, and then
    it returns [gen_obs_obs] and leaves [gen_obs_env]: only the grid and the
    generator have changed. *)
Lemma gen_obs_closed s :
  env_wf s → gen_obs s = (Ok (gen_obs_obs s), gen_obs_env s).
Proof.
  intros Hwf. pose proof (boxes_in_grid s Hwf) as Hboxes.
  unfold gen_obs.
  erewrite bind_Ok by reflexivity.
  erewrite bind_Ok by (by apply for_each_clear).
  set (s1 := set_grid (clear_boxes (grid s) (box_locations s)) s).
  assert (Hboxes1 : Forall (λ b, in_grid (grid s1) b.1 b.2) (box_locations s)).
  { eapply Forall_impl; [exact Hboxes|]. intros b Hb.
    destruct (clear_boxes_dims (grid s) (box_locations s)).
    by eapply in_grid_dims. }
  fold (decoy_target s). destruct (decoy_target s) as [w h] eqn:Et.
  fold (above_threshold s).
  unfold gen_obs_obs, gen_obs_env, noise, decoys. rewrite Et.
  destruct (above_threshold s); cbv iota.
  - assert (Hin : in_grid (grid s1) w h).
    { pose proof (decoy_target_box s) as Hel. rewrite Et in Hel.
      rewrite Forall_forall in Hboxes1. apply (Hboxes1 _ Hel). }
    erewrite bind_Ok by (unfold put_obj; by apply on_grid_set).
    erewrite bind_Ok by reflexivity.
    erewrite bind_Ok by apply draw_eq.
    erewrite bind_Ok by reflexivity. done.
  - erewrite bind_Ok by (by apply for_each_place).
    erewrite bind_Ok by reflexivity.
    erewrite bind_Ok by apply draw_eq.
    erewrite bind_Ok by reflexivity. done.
Qed.

End DqnGenObs.

(** ** main_dqn.py: [step] *)

Section DqnStep.

Import MainDqn.
Context {G : Type} `{Generator G}.
Implicit Types s : TMaze G.

Lemma fwd_pos_Some action s p :
  fwd_pos action s = Some p → 0 ≤ action ≤ 3.
Proof.
  unfold fwd_pos, Actions.left, Actions.right, Actions.forward, Actions.backward.
  repeat case_match; try done; lia.
Qed.

Lemma fwd_pos_None action s :
  fwd_pos action s = None ↔ ¬ (0 ≤ action ≤ 3).
Proof.
  unfold fwd_pos, Actions.left, Actions.right, Actions.forward, Actions.backward.
  repeat case_match; split; try done; lia.
Qed.

Lemma reward_closed s :
  max_steps s ≠ 0 → _reward s = (Ok (shaped_reward s), s).
Proof.
  intros Hm. unfold _reward. erewrite bind_Ok by reflexivity.
  by destruct (Z.eqb_spec (max_steps s) 0).
Qed.

(** A movement block, when the target cell lies inside the grid. *)
Lemma move_closed s p :
  grid_wf (grid s) → in_grid (grid s) p.1 p.2 → max_steps s ≠ 0 →
  let c := Grid.cell (grid s) p.1 p.2 in
  move p s =
    (Ok (if is_type "goal" c then shaped_reward s else 0%Q,
         is_type "goal" c || is_type "lava" c),
     if traversable c then set_agent_pos p s else s).
Proof.
  intros Hwf Hin Hm c. unfold move.
  erewrite bind_Ok by reflexivity.
  erewrite bind_Ok by (unfold lift; by rewrite Grid_get_in).
  fold c. destruct c as [[|col|]|]; simpl.
  - done.
  - erewrite bind_Ok by reflexivity.
    erewrite bind_Ok;
      [|erewrite bind_Ok by (by apply reward_closed); reflexivity].
    done.
  - done.
  - done.
Qed.

(** [step] on one of the four actions, in closed form. *)
Lemma step_closed s action p :
  env_wf s → 0 < max_steps s → fwd_pos action s = Some p →
  in_grid (grid s) p.1 p.2 →
  let c := Grid.cell (grid s) p.1 p.2 in
  step action s =
    (Ok (gen_obs_obs (moved p s),
         if is_type "goal" c then shaped_reward (moved p s) else 0%Q,
         is_type "goal" c || is_type "lava" c,
         max_steps s <=? step_count s + 1),
     gen_obs_env (moved p s)).
Proof.
  intros Hwf Hm Hp Hin c. unfold step.
  erewrite bind_Ok by reflexivity.
  erewrite bind_Ok by reflexivity.
  set (s1 := set_step_count (step_count s + 1) s).
  assert (Hmove : move p s1 =
    (Ok (if is_type "goal" c then shaped_reward s1 else 0%Q,
         is_type "goal" c || is_type "lava" c),
     if traversable c then set_agent_pos p s1 else s1)).
  { apply (move_closed s1 p); [apply Hwf|done|simpl; lia]. }
  assert (Hsel :
    (if action =? Actions.left then move ((agent_pos s1).1 - 1, (agent_pos s1).2)
     else if action =? Actions.right then move ((agent_pos s1).1 + 1, (agent_pos s1).2)
     else if action =? Actions.forward then move ((agent_pos s1).1, (agent_pos s1).2 - 1)
     else if action =? Actions.backward then move ((agent_pos s1).1, (agent_pos s1).2 + 1)
     else (done ← lift Actions.done;
           if action =? done then mret (0%Q, false)
           else raise (ValueError "Unknown action"))) = move (G:=G) p).
  { unfold fwd_pos in Hp. simpl agent_pos.
    repeat case_match; try done; by injection Hp as <-. }
  rewrite Hsel. erewrite bind_Ok by exact Hmove.
  set (s2 := if traversable c then set_agent_pos p s1 else s1).
  assert (Hs2 : s2 = moved p s) by done.
  assert (Hwf2 : env_wf s2) by (unfold s2; destruct (traversable c); apply Hwf).
  assert (Hr : shaped_reward s1 = shaped_reward s2)
    by (unfold s2; by destruct (traversable c)).
  cbv iota beta.
  erewrite bind_Ok by reflexivity.
  erewrite bind_Ok by (by apply gen_obs_closed).
  simpl. rewrite Hr, Hs2.
  replace (max_steps (moved p s)) with (max_steps s)
    by (unfold moved; by destruct (traversable _)).
  replace (step_count (moved p s)) with (step_count s + 1)
    by (unfold moved; by destruct (traversable _)).
  done.
Qed.

(** A value that is none of the four actions: the step has been counted
    when reading [self.actions.done] raises. *)
Lemma step_no_action s action :
  ¬ (0 ≤ action ≤ 3) →
  step action s =
    (Raise (AttributeError "done"), set_step_count (step_count s + 1) s).
Proof.
  intros Ha. unfold step.
  erewrite bind_Ok by reflexivity.
  erewrite bind_Ok by reflexivity.
  unfold Actions.left, Actions.right, Actions.forward, Actions.backward.
  destruct (Z.eqb_spec action 0); [lia|].
  destruct (Z.eqb_spec action 2); [lia|].
  destruct (Z.eqb_spec action 1); [lia|].
  destruct (Z.eqb_spec action 3); [lia|].
  done.
Qed.

End DqnStep.

Section DqnStepClaims.

Import MainDqn.
Context {G : Type} `{Generator G}.
Implicit Types s : TMaze G.



(** C7, as the code has it. A value that is none of the four actions makes
    [step] raise; the agent's pose and the grid are then as they were, and
    the step has been counted. *)
Theorem step_invalid_action s action :
  ¬ (0 ≤ action ≤ 3) →
  ∃ e s',
    step action s = (Raise e, s') ∧
    step_count s' = step_count s + 1 ∧
    agent_pos s' = agent_pos s ∧ agent_dir s' = agent_dir s ∧ grid s' = grid s.
Proof.
  intros Ha. eexists _, _. split; [by apply step_no_action|]. done.
Qed.

(** The error is the one of reading [Actions.done], a member [Actions]
    does not have: the [ValueError] of the last branch is never reached. *)
Theorem step_invalid_action_raises s action :
  ¬ (0 ≤ action ≤ 3) → (step action s).1 = Raise (AttributeError "done").
Proof. intros Ha. by rewrite step_no_action. Qed.

End DqnStepClaims.

(** Closed facts on concrete environments are decided by evaluation. *)
Ltac evaluate :=
  repeat match goal with
         | |- _ ∧ _ => split
         end;
  vm_compute; first [reflexivity | discriminate | tauto | done].

Lemma ex_start_wf : env_wf ex_start.
Proof. unfold env_wf. evaluate. Defined.




Lemma step_invalid_action_witness :
  ∃ e s', MainDqn.step 7 ex_start = (Raise e, s') ∧ MainDqn.step_count s' = 1.
Proof.
  destruct (step_invalid_action ex_start 7) as (e & s' & Hstep & Hsc & _);
    [lia|].
  exists e, s'. split; [exact Hstep|]. rewrite Hsc. reflexivity.
Defined.

(** C7, as stated, fails: on [ex_start] the value 7 is rejected with the
    step counter at 1, which was 0. *)
Lemma step_invalid_action_mutates : ¬ rejects_unchanged 7 ex_start.
Proof.
  intros (e & s' & Hstep & Hsc & _).
  rewrite (step_no_action ex_start 7) in Hstep by lia.
  injection Hstep as _ <-. vm_compute in Hsc. discriminate.
Qed.

Lemma step_invalid_action_raises_witness :
  (MainDqn.step 7 ex_start).1 = Raise (AttributeError "done").
Proof. apply step_invalid_action_raises. lia. Defined.

(** ** main_dqn.py: what the calls change of the grid *)

Section DqnFrame.

Import MainDqn.
Context {G : Type} `{Generator G}.
Implicit Types s : TMaze G.

#[global] Instance frame_preorder B : PreOrder (frame (G:=G) B).
Proof.
  split.
  - intros s. by repeat split.
  - intros s1 s2 s3 (H12 & K12) (H23 & K23). split.
    + intros i j Hij. rewrite H23 by done. by apply H12.
    + unfold kept in *. destruct_and!. repeat split; try congruence. auto.
Qed.

Lemma on_grid_set_frame B i j v :
  (i, j) ∈ B → preserves (frame (G:=G) B) (on_grid (λ g, Grid.set g i j v)).
Proof.
  intros Hin s. unfold on_grid.
  destruct (Grid.set (grid s) i j v) as [g'|e] eqn:Hset; simpl; [|reflexivity].
  destruct (Grid_set_dims _ _ _ _ _ Hset) as [Hw Hh].
  split.
  - intros i' j' Hout.
    apply (Grid_cell_set_ne _ _ _ _ _ _ _ Hset). by intros [= -> ->].
  - unfold kept; simpl. repeat split; try done. by apply (Grid_set_wf _ _ _ _ _ Hset).
Qed.

Lemma put_obj_frame B obj i j :
  (i, j) ∈ B → preserves (frame (G:=G) B) (put_obj obj i j).
Proof. apply on_grid_set_frame. Qed.

Lemma draw_frame {A} B (f : G → A * G) : preserves (frame (G:=G) B) (draw f).
Proof. intros s. rewrite draw_eq. simpl. by repeat split. Qed.

Lemma modify_frame B (f : TMaze G → TMaze G) :
  (∀ s, grid (f s) = grid s ∧ kept s (f s)) →
  preserves (frame B) (modify f).
Proof.
  intros Hf s. simpl. destruct (Hf s) as (Hg & Hk).
  split; [|done]. intros i j _. by rewrite Hg.
Qed.

(** [gen_obs] writes on the four box cells only. *)
Lemma gen_obs_frame s : frame (box_locations s) s (gen_obs s).2.
Proof.
  unfold gen_obs. erewrite bind_Ok by reflexivity.
  pose proof (decoy_target_box s) as Htarget.
  fold (decoy_target s). destruct (decoy_target s) as [w h].
  set (B := box_locations s) in *.
  revert s B Htarget. intros s0 B Htarget.
  assert (Hpre : PreOrder (frame (G:=G) B)) by apply _.
  apply (preserves_bind (frame B)).
  { apply preserves_for_each; [apply _|]. intros [i j] Hin.
    by apply on_grid_set_frame. }
  intros _. apply preserves_bind; [apply _| |].
  { destruct (_ <? _).
    - by apply put_obj_frame.
    - apply preserves_for_each; [apply _|]. intros [i j] Hin.
      apply preserves_bind; [apply _|apply draw_frame|].
      intros r. destruct (Qltb r (1 # 2)).
      + by apply put_obj_frame.
      + apply preserves_ret; apply _. }
  intros _. apply preserves_bind; [apply _|apply preserves_gets; apply _|].
  intros image. apply preserves_bind; [apply _|apply draw_frame|].
  intros a. apply preserves_bind; [apply _|apply preserves_get; apply _|].
  intros s. apply preserves_ret; apply _.
Qed.

Lemma move_frame B p : preserves (frame (G:=G) B) (move p).
Proof.
  assert (Hpre : PreOrder (frame (G:=G) B)) by apply _.
  unfold move.
  apply preserves_bind; [apply _|apply preserves_get; apply _|]. intros s.
  apply preserves_bind; [apply _|apply preserves_lift; apply _|]. intros c.
  apply preserves_bind; [apply _| |].
  { destruct c as [o|]; [destruct (can_overlap o)|];
      first [by apply modify_frame | apply preserves_ret; apply _]. }
  intros _. apply preserves_bind; [apply _| |].
  { destruct c as [o|]; [destruct (String.eqb _ _)|];
      try (apply preserves_ret; apply _).
    apply preserves_bind; [apply _| |intros r; apply preserves_ret; apply _].
    unfold _reward.
    apply preserves_bind; [apply _|apply preserves_get; apply _|]. intros s'.
    destruct (_ =? 0); [apply preserves_raise|apply preserves_ret]; apply _. }
  intros [r t]. apply preserves_ret; apply _.
Qed.

(** [step] writes on the four box cells only, whatever the action and
    whether it returns or raises. *)
Lemma step_frame s a : frame (box_locations s) s (step a s).2.
Proof.
  set (B := box_locations s).
  assert (Hpre : PreOrder (frame (G:=G) B)) by apply _.
  unfold step.
  erewrite bind_Ok by reflexivity. erewrite bind_Ok by reflexivity.
  set (s1 := set_step_count (step_count s + 1) s).
  assert (H1 : frame B s s1) by (by repeat split).
  etrans; [exact H1|]. clearbody s1.
  match goal with
  | |- frame B s1 ((?m ≫= ?f) s1).2 =>
      assert (Hm : preserves (frame B) m)
  end.
  { repeat (destruct (_ =? _); [apply move_frame|]).
    apply preserves_bind; [apply _|apply preserves_lift; apply _|]. intros d.
    destruct (_ =? _); [apply preserves_ret|apply preserves_raise]; apply _. }
  unfold mbind at 1, method_bind at 1.
  specialize (Hm s1).
  match goal with
  | |- context [match ?x with _ => _ end] => destruct x as [[[r t]|e] s2]
  end; simpl in Hm; [|exact Hm].
  etrans; [exact Hm|]. cbv iota beta.
  erewrite bind_Ok by reflexivity.
  assert (HB : box_locations s2 = B).
  { destruct H1 as (_ & Hw1 & Hh1 & _), Hm as (_ & Hw2 & Hh2 & _).
    unfold B, box_locations, left_box, right_box, up_box, down_box.
    by rewrite Hw2, Hh2, Hw1, Hh1. }
  pose proof (gen_obs_frame s2) as Hobs. rewrite HB in Hobs.
  unfold mbind, method_bind.
  destruct (gen_obs s2) as [[obs|e] s3]; exact Hobs.
Qed.

End DqnFrame.

(** ** main_dqn.py: where the grey boxes are *)

Section DqnDecoys.

Import MainDqn.
Context {G : Type} `{Generator G}.
Implicit Types s : TMaze G.

Lemma box_locations_NoDup s : NoDup (box_locations s).
Proof.
  unfold box_locations, left_box, right_box, up_box, down_box.
  set (a := width s * 3 / 4). set (b := height s * 2 / 3).
  repeat (apply NoDup_cons; split); try apply NoDup_nil; try done;
    rewrite ?not_elem_of_cons; repeat split; try apply not_elem_of_nil;
    intros [=]; lia.
Qed.

Lemma clear_boxes_cell g boxes i j :
  grid_wf g → Forall (λ b, in_grid g b.1 b.2) boxes →
  Grid.cell (clear_boxes g boxes) i j =
    if decide ((i, j) ∈ boxes) then None else Grid.cell g i j.
Proof.
  unfold clear_boxes. revert g.
  induction boxes as [|[bi bj] bs IH] using rev_ind; intros g Hwf Hin.
  { destruct (decide ((i, j) ∈ [])) as [Hel|_]; [by apply elem_of_nil in Hel|done]. }
  apply Forall_app in Hin as [Hbs Hb]. rewrite Forall_singleton in Hb. simpl in Hb.
  rewrite foldl_app. simpl.
  pose proof (clear_boxes_dims g bs) as [Hw Hh].
  pose proof (clear_boxes_wf g bs Hwf) as Hwf'.
  unfold clear_boxes in Hw, Hh, Hwf'.
  assert (Hb' : in_grid (foldl (λ g b, grid_upd g b.1 b.2 None) g bs) bi bj)
    by (apply (in_grid_dims g); done).
  destruct (decide ((i, j) = (bi, bj))) as [[= -> ->]|Hne].
  - rewrite cell_upd_eq by done.
    destruct (decide ((bi, bj) ∈ bs ++ [(bi, bj)])) as [_|Hel]; [done|].
    exfalso. apply Hel. apply elem_of_app. right. by apply list_elem_of_singleton.
  - rewrite cell_upd_ne by done. rewrite IH by done.
    destruct (decide ((i, j) ∈ bs)) as [Hel|Hel];
      destruct (decide ((i, j) ∈ bs ++ [(bi, bj)])) as [Hel'|Hel']; try done.
    + exfalso. apply Hel'. apply elem_of_app. by left.
    + exfalso. apply elem_of_app in Hel' as [?|Hl%list_elem_of_singleton]; done.
Qed.

Lemma place_random_cell_out boxes g rng i j :
  Forall (λ b, in_grid g b.1 b.2) boxes → (i, j) ∉ boxes →
  Grid.cell (place_random boxes g rng).1 i j = Grid.cell g i j.
Proof.
  revert g rng. induction boxes as [|[bi bj] bs IH]; intros g rng Hin Hout; [done|].
  apply Forall_cons in Hin as [Hb Hbs]. apply not_elem_of_cons in Hout as [Hne Hout].
  simpl. destruct (random rng) as [r rng']. simpl in Hb.
  destruct (Qltb r (1 # 2)).
  - rewrite IH; [by apply cell_upd_ne| |done].
    eapply Forall_impl; [exact Hbs|]. by intros b Hb'.
  - by apply IH.
Qed.

Lemma place_random_cell boxes g rng k b :
  grid_wf g → NoDup boxes → Forall (λ b, in_grid g b.1 b.2) boxes →
  boxes !! k = Some b →
  Grid.cell (place_random boxes g rng).1 b.1 b.2 =
    if Qltb (nth_random k rng) (1 # 2) then Some (Goal grey)
    else Grid.cell g b.1 b.2.
Proof.
  revert g rng k.
  induction boxes as [|[bi bj] bs IH]; intros g rng k Hwf Hnd Hin Hk; [done|].
  apply NoDup_cons in Hnd as [Hfresh Hnd]. apply Forall_cons in Hin as [Hb Hbs].
  simpl in Hb. unfold nth_random. simpl.
  destruct k as [|k]; simpl in *.
  - injection Hk as <-. simpl.
    destruct (random rng) as [r rng']; simpl.
    rewrite place_random_cell_out; [|by destruct (Qltb r (1 # 2))|done].
    destruct (Qltb r (1 # 2)); [by apply cell_upd_eq|done].
  - destruct (random rng) as [r rng']; simpl.
    assert (Hne : (b.1, b.2) ≠ (bi, bj)).
    { intros Heq. apply Hfresh. apply list_elem_of_lookup. exists k.
      destruct b; simpl in Heq. by rewrite <- Heq. }
    rewrite (IH _ rng' k); [| |done| |done].
    + unfold nth_random. destruct (Qltb _ _); [done|].
      destruct (Qltb r (1 # 2)); [by apply cell_upd_ne|done].
    + destruct (Qltb r (1 # 2)); [by apply grid_upd_wf|done].
    + by destruct (Qltb r (1 # 2)).
Qed.

End DqnDecoys.

Section DqnGridClaims.

Import MainDqn.
Context {G : Type} `{Generator G}.
Implicit Types s : TMaze G.

Lemma frame_box_locations B s s' :
  frame B s s' → box_locations s' = box_locations s.
Proof.
  intros (_ & Hw & Hh & _).
  unfold box_locations, left_box, right_box, up_box, down_box. by rewrite Hw, Hh.
Qed.

Lemma run_frame actions s : frame (box_locations s) s (run actions s).
Proof.
  unfold run. revert s. induction actions as [|a actions IH]; intros s; simpl.
  - reflexivity.
  - pose proof (step_frame s a) as Hstep.
    etrans; [exact Hstep|].
    rewrite <- (frame_box_locations _ _ _ Hstep). apply IH.
Qed.

(** C8, as the code has it. A cell that is none of the four box cells
    holds after [gen_obs], after [step] and after any sequence of steps what
    it held before, whether the calls return or raise. *)
Theorem grid_kept_outside_boxes s i j :
  (i, j) ∉ box_locations s →
  Grid.cell (grid (gen_obs s).2) i j = Grid.cell (grid s) i j ∧
  (∀ a, Grid.cell (grid (step a s).2) i j = Grid.cell (grid s) i j) ∧
  (∀ actions, Grid.cell (grid (run actions s)) i j = Grid.cell (grid s) i j).
Proof.
  intros Hout. split; [|split].
  - by apply (gen_obs_frame s).
  - intros a. by apply (step_frame s a).
  - intros actions. by apply (run_frame actions s).
Qed.

(** C5, as the code has it. [gen_obs] returns, and the box cells hold:
    - up to the threshold, a grey box on the [k]-th cell exactly when the
      [k]-th float drawn from the generator is below 0.5, and nothing
      otherwise;
    - above the threshold, a grey box on one cell and nothing on the three
      others: the cell on the side of the goal when the agent is in the top
      row, and the upper cell when it is not. *)
Theorem decoy_placement s :
  env_wf s →
  ∃ obs s',
    gen_obs s = (Ok obs, s') ∧
    (num_episodes s ≤ path_episode_threshold s →
       ∀ k b, box_locations s !! k = Some b →
         Grid.cell (grid s') b.1 b.2 =
           if Qltb (nth_random k (np_random s)) (1 # 2)
           then Some (Goal grey) else None) ∧
    (path_episode_threshold s < num_episodes s →
       let target :=
         if (agent_pos s).2 =? 1
         then (if goal_is_right s then right_box s else left_box s)
         else up_box s in
       ∀ b, b ∈ box_locations s →
         Grid.cell (grid s') b.1 b.2 =
           if decide (b = target) then Some (Goal grey) else None).
Proof.
  intros Hwf. exists (gen_obs_obs s), (gen_obs_env s).
  split; [by apply gen_obs_closed|].
  pose proof (boxes_in_grid s Hwf) as Hboxes.
  destruct Hwf as (Hgwf & _).
  set (g1 := clear_boxes (grid s) (box_locations s)).
  assert (Hwf1 : grid_wf g1) by (by apply clear_boxes_wf).
  assert (Hboxes1 : Forall (λ b, in_grid g1 b.1 b.2) (box_locations s)).
  { eapply Forall_impl; [exact Hboxes|]. intros b Hb.
    destruct (clear_boxes_dims (grid s) (box_locations s)).
    by apply (in_grid_dims (grid s)). }
  assert (Hclear : ∀ b, b ∈ box_locations s → Grid.cell g1 b.1 b.2 = None).
  { intros [bi bj] Hb. unfold g1. cbn [fst snd].
    rewrite (clear_boxes_cell (grid s) (box_locations s) bi bj Hgwf Hboxes).
    by destruct (decide ((bi, bj) ∈ box_locations s)). }
  unfold gen_obs_env, decoys, above_threshold.
  cbn [grid set_np_random set_grid]. fold g1. split.
  - intros Hle. replace (path_episode_threshold s <? num_episodes s) with false
      by (symmetry; apply Z.ltb_ge; lia).
    intros k b Hk.
    rewrite (place_random_cell _ _ _ k b);
      [|done|apply box_locations_NoDup|done|done].
    rewrite Hclear; [done|]. apply list_elem_of_lookup. by exists k.
  - intros Hlt. replace (path_episode_threshold s <? num_episodes s) with true
      by (symmetry; apply Z.ltb_lt; lia).
    cbv zeta. fold (decoy_target s). cbn [fst]. intros b Hb.
    assert (Htin : in_grid g1 (decoy_target s).1 (decoy_target s).2).
    { rewrite Forall_forall in Hboxes1. apply Hboxes1, decoy_target_box. }
    destruct (decide (b = decoy_target s)) as [->|Hne].
    + by apply cell_upd_eq.
    + rewrite cell_upd_ne; [by apply Hclear|done|].
      intros Heq. apply Hne. destruct b, (decoy_target s); simpl in *. done.
Qed.

End DqnGridClaims.

Lemma grid_kept_outside_boxes_witness :
  Grid.cell (MainDqn.grid (MainDqn.step 1 ex_start).2) 1 1 = Some (Goal green).
Proof.
  destruct (grid_kept_outside_boxes ex_start 1 1) as (_ & Hstep & _).
  - change (MainDqn.box_locations ex_start) with [(7, 6); (9, 6); (8, 5); (8, 7)].
    rewrite !not_elem_of_cons. repeat split; try discriminate.
    apply not_elem_of_nil.
  - rewrite Hstep. reflexivity.
Defined.

(** C8, as stated, fails: on [ex_start] the cell (8, 5), empty after the
    reset, holds a grey box after the next observation, and after a step
    forward as well. *)
Lemma gen_obs_changes_grid :
  ¬ keeps_grid ex_start (MainDqn.gen_obs ex_start).2 ∧
  ¬ keeps_grid ex_start (MainDqn.step 1 ex_start).2.
Proof. split; intros Hkeep; specialize (Hkeep 8 5); by vm_compute in Hkeep. Qed.

Lemma decoy_placement_witness :
  ∃ obs s',
    MainDqn.gen_obs ex_late = (Ok obs, s') ∧
    Grid.cell (MainDqn.grid s') 8 5 = Some (Goal grey) ∧
    Grid.cell (MainDqn.grid s') 7 6 = None.
Proof.
  destruct (decoy_placement ex_late) as (obs & s' & Hobs & _ & Habove).
  - unfold env_wf. evaluate.
  - exists obs, s'. split; [exact Hobs|].
    assert (Hlt : MainDqn.path_episode_threshold ex_late <
                  MainDqn.num_episodes ex_late) by (vm_compute; reflexivity).
    specialize (Habove Hlt). cbv zeta in Habove. split.
    + apply (Habove (8, 5)).
      change (MainDqn.box_locations ex_late) with [(7, 6); (9, 6); (8, 5); (8, 7)].
      rewrite !elem_of_cons. tauto.
    + apply (Habove (7, 6)).
      change (MainDqn.box_locations ex_late) with [(7, 6); (9, 6); (8, 5); (8, 7)].
      rewrite !elem_of_cons. tauto.
Defined.

(** C5, as stated, fails above the threshold: on [ex_late] the goal is on
    the left and the agent at its start, and the observation leaves the
    left box cell (7, 6) empty. *)
Lemma decoy_not_on_goal_side :
  MainDqn.path_episode_threshold ex_late < MainDqn.num_episodes ex_late ∧
  ¬ decoy_on_goal_side ex_late.
Proof.
  split; [vm_compute; reflexivity|]. unfold decoy_on_goal_side.
  intros Hside. by vm_compute in Hside.
Qed.

(** ** The walls of the maze *)

Lemma fold_set_closed {A} (fx fy : A → Z) v (xs : list A) g :
  Forall (λ a, in_grid g (fx a) (fy a)) xs →
  fold_result (λ g a, Grid.set g (fx a) (fy a) v) xs g =
    Ok (foldl (λ g a, grid_upd g (fx a) (fy a) v) g xs).
Proof.
  revert g. induction xs as [|a xs IH]; intros g Hin; simpl; [done|].
  apply Forall_cons in Hin as [Ha Hxs].
  rewrite Grid_set_upd by done. simpl. apply IH.
  eapply Forall_impl; [exact Hxs|]. by intros b Hb.
Qed.

Lemma fold_upd_dims {A} (fx fy : A → Z) v (xs : list A) g :
  Grid.width (foldl (λ g a, grid_upd g (fx a) (fy a) v) g xs) = Grid.width g ∧
  Grid.height (foldl (λ g a, grid_upd g (fx a) (fy a) v) g xs) = Grid.height g.
Proof.
  revert g. induction xs as [|a xs IH]; intros g; simpl; [done|].
  by destruct (IH (grid_upd g (fx a) (fy a) v)) as [-> ->].
Qed.

Lemma fold_upd_wf {A} (fx fy : A → Z) v (xs : list A) g :
  grid_wf g → grid_wf (foldl (λ g a, grid_upd g (fx a) (fy a) v) g xs).
Proof.
  revert g. induction xs as [|a xs IH]; intros g Hwf; simpl; [done|].
  apply IH. by apply grid_upd_wf.
Qed.

Lemma fold_upd_only_walls {A} (fx fy : A → Z) (xs : list A) g :
  only_walls g →
  only_walls (foldl (λ g a, grid_upd g (fx a) (fy a) (Some Wall)) g xs).
Proof.
  revert g. induction xs as [|a xs IH]; intros g Hg; simpl; [done|].
  apply IH. unfold only_walls, grid_upd; simpl.
  apply Forall_insert; [done|by right].
Qed.

(** After the loop a cell holds [v] when the loop wrote on it, and what it
    held otherwise. *)
Lemma fold_upd_cell {A} (fx fy : A → Z) v (xs : list A) g i j :
  grid_wf g → Forall (λ a, in_grid g (fx a) (fy a)) xs →
  Grid.cell (foldl (λ g a, grid_upd g (fx a) (fy a) v) g xs) i j =
    if decide (Exists (λ a, fx a = i ∧ fy a = j) xs) then v else Grid.cell g i j.
Proof.
  revert g. induction xs as [|a xs IH] using rev_ind; intros g Hwf Hin.
  { destruct (decide (Exists _ [])) as [Hex|_]; [by apply Exists_nil in Hex|done]. }
  apply Forall_app in Hin as [Hxs Ha]. rewrite Forall_singleton in Ha.
  rewrite foldl_app. simpl.
  destruct (fold_upd_dims fx fy v xs g) as [Hw Hh].
  pose proof (fold_upd_wf fx fy v xs g Hwf) as Hwf'.
  assert (Ha' : in_grid (foldl (λ g a, grid_upd g (fx a) (fy a) v) g xs)
                  (fx a) (fy a)) by (apply (in_grid_dims g); done).
  destruct (decide ((i, j) = (fx a, fy a))) as [[= -> ->]|Hne].
  - rewrite cell_upd_eq by done.
    destruct (decide (Exists _ (xs ++ [a]))) as [_|Hex]; [done|].
    exfalso. apply Hex. apply Exists_app. right. by apply Exists_cons_hd.
  - rewrite cell_upd_ne by done. rewrite IH by done.
    destruct (decide (Exists _ xs)) as [Hex|Hex];
      destruct (decide (Exists _ (xs ++ [a]))) as [Hex'|Hex']; try done.
    + exfalso. apply Hex'. apply Exists_app. by left.
    + exfalso. apply Exists_app in Hex' as [?|Hl]; [done|].
      apply Exists_cons in Hl as [[<- <-]|Hl]; [done|by apply Exists_nil in Hl].
Qed.

Lemma horz_wall_closed g x y len :
  0 ≤ x → x + len ≤ Grid.width g → 0 ≤ y < Grid.height g →
  Grid.horz_wall g x y len = Ok (horz_wall_pure g x y len).
Proof.
  intros Hx Hlen Hy. unfold Grid.horz_wall, horz_wall_pure.
  apply (fold_set_closed (λ i, x + i) (λ _, y)).
  apply Forall_forall. intros i [k [-> Hk]%lookup_seqZ]%list_elem_of_lookup.
  unfold in_grid. lia.
Qed.

Lemma vert_wall_closed g x y len :
  0 ≤ x < Grid.width g → 0 ≤ y → y + len ≤ Grid.height g →
  Grid.vert_wall g x y len = Ok (vert_wall_pure g x y len).
Proof.
  intros Hx Hy Hlen. unfold Grid.vert_wall, vert_wall_pure.
  apply (fold_set_closed (λ _, x) (λ j, y + j)).
  apply Forall_forall. intros i [k [-> Hk]%lookup_seqZ]%list_elem_of_lookup.
  unfold in_grid. lia.
Qed.

Lemma horz_wall_pure_dims g x y len :
  Grid.width (horz_wall_pure g x y len) = Grid.width g ∧
  Grid.height (horz_wall_pure g x y len) = Grid.height g.
Proof. apply (fold_upd_dims (λ i, x + i) (λ _, y)). Qed.

Lemma vert_wall_pure_dims g x y len :
  Grid.width (vert_wall_pure g x y len) = Grid.width g ∧
  Grid.height (vert_wall_pure g x y len) = Grid.height g.
Proof. apply (fold_upd_dims (λ _, x) (λ j, y + j)). Qed.

Lemma horz_wall_pure_wf g x y len : grid_wf g → grid_wf (horz_wall_pure g x y len).
Proof. apply (fold_upd_wf (λ i, x + i) (λ _, y)). Qed.

Lemma vert_wall_pure_wf g x y len : grid_wf g → grid_wf (vert_wall_pure g x y len).
Proof. apply (fold_upd_wf (λ _, x) (λ j, y + j)). Qed.

Lemma horz_wall_pure_only_walls g x y len :
  only_walls g → only_walls (horz_wall_pure g x y len).
Proof. apply (fold_upd_only_walls (λ i, x + i) (λ _, y)). Qed.

Lemma vert_wall_pure_only_walls g x y len :
  only_walls g → only_walls (vert_wall_pure g x y len).
Proof. apply (fold_upd_only_walls (λ _, x) (λ j, y + j)). Qed.

Lemma horz_wall_pure_cell g x y len i j :
  grid_wf g → 0 ≤ x → x + len ≤ Grid.width g → 0 ≤ y < Grid.height g →
  Grid.cell (horz_wall_pure g x y len) i j =
    if (j =? y) && (x <=? i) && (i <? x + len) then Some Wall else Grid.cell g i j.
Proof.
  intros Hwf Hx Hlen Hy. unfold horz_wall_pure.
  rewrite (fold_upd_cell (λ i, x + i) (λ _, y)); [|done|].
  - destruct (decide (Exists _ _)) as [Hex|Hex].
    + apply Exists_exists in Hex as (a & [k [-> Hk]%lookup_seqZ]%list_elem_of_lookup & <- & <-).
      replace ((y =? y) && (x <=? x + (0 + Z.of_nat k))
               && (x + (0 + Z.of_nat k) <? x + len)) with true;
        [done|symmetry; rewrite !andb_true_iff; lia].
    + destruct ((j =? y) && (x <=? i) && (i <? x + len)) eqn:E; [|done].
      exfalso. apply Hex. rewrite !andb_true_iff in E.
      apply Exists_exists. exists (i - x). split; [|lia].
      apply list_elem_of_lookup. exists (Z.to_nat (i - x)).
      apply lookup_seqZ. lia.
  - apply Forall_forall. intros a [k [-> Hk]%lookup_seqZ]%list_elem_of_lookup.
    unfold in_grid. lia.
Qed.

Lemma vert_wall_pure_cell g x y len i j :
  grid_wf g → 0 ≤ x < Grid.width g → 0 ≤ y → y + len ≤ Grid.height g →
  Grid.cell (vert_wall_pure g x y len) i j =
    if (i =? x) && (y <=? j) && (j <? y + len) then Some Wall else Grid.cell g i j.
Proof.
  intros Hwf Hx Hy Hlen. unfold vert_wall_pure.
  rewrite (fold_upd_cell (λ _, x) (λ j, y + j)); [|done|].
  - destruct (decide (Exists _ _)) as [Hex|Hex].
    + apply Exists_exists in Hex as (a & [k [-> Hk]%lookup_seqZ]%list_elem_of_lookup & <- & <-).
      replace ((x =? x) && (y <=? y + (0 + Z.of_nat k))
               && (y + (0 + Z.of_nat k) <? y + len)) with true;
        [done|symmetry; rewrite !andb_true_iff; lia].
    + destruct ((i =? x) && (y <=? j) && (j <? y + len)) eqn:E; [|done].
      exfalso. apply Hex. rewrite !andb_true_iff in E.
      apply Exists_exists. exists (j - y). split; [|lia].
      apply list_elem_of_lookup. exists (Z.to_nat (j - y)).
      apply lookup_seqZ. lia.
  - apply Forall_forall. intros a [k [-> Hk]%lookup_seqZ]%list_elem_of_lookup.
    unfold in_grid. lia.
Qed.

Lemma empty_grid_walls_only w h : walls_only w h (empty_grid w h).
Proof.
  repeat split.
  - unfold grid_wf, empty_grid; simpl. by rewrite length_replicate.
  - unfold only_walls, empty_grid; simpl. apply Forall_replicate. by left.
Qed.

Lemma horz_wall_pure_walls_only w h g x y len :
  walls_only w h g → walls_only w h (horz_wall_pure g x y len).
Proof.
  intros (Hw & Hh & Hwf & Ho). destruct (horz_wall_pure_dims g x y len) as [Hw' Hh'].
  repeat split;
    [congruence|congruence|by apply horz_wall_pure_wf|by apply horz_wall_pure_only_walls].
Qed.

Lemma vert_wall_pure_walls_only w h g x y len :
  walls_only w h g → walls_only w h (vert_wall_pure g x y len).
Proof.
  intros (Hw & Hh & Hwf & Ho). destruct (vert_wall_pure_dims g x y len) as [Hw' Hh'].
  repeat split;
    [congruence|congruence|by apply vert_wall_pure_wf|by apply vert_wall_pure_only_walls].
Qed.

Ltac walls_only :=
  repeat first
    [ apply horz_wall_pure_walls_only
    | apply vert_wall_pure_walls_only
    | apply empty_grid_walls_only ].

Lemma maze_walls_only w h : walls_only w h (maze w h).
Proof. unfold maze. cbv zeta. walls_only. Qed.

Lemma empty_grid_cell w h i j : Grid.cell (empty_grid w h) i j = None.
Proof.
  unfold Grid.cell. destruct (_ && _); [|done].
  unfold empty_grid; simpl.
  destruct (replicate _ _ !! _) as [c|] eqn:E; [|done].
  by apply lookup_replicate in E as [-> _].
Qed.

Lemma half_odd w : w mod 2 = 1 → w = 2 * (w / 2) + 1.
Proof. intros Hodd. pose proof (Z.div_mod w 2). lia. Qed.

Lemma maze_segments_eq w h :
  maze w h = foldl draw_segment (empty_grid w h) (maze_segments w h).
Proof. reflexivity. Qed.

Lemma draw_segment_walls_only w h g sg :
  walls_only w h g → walls_only w h (draw_segment g sg).
Proof.
  destruct sg as [[[hz x] y] len]; destruct hz; simpl; intros Hg;
    [by apply horz_wall_pure_walls_only|by apply vert_wall_pure_walls_only].
Qed.

Lemma draw_segment_cell w h g sg i j :
  walls_only w h g → segment_in_range w h sg →
  Grid.cell (draw_segment g sg) i j =
    if covers i j sg then Some Wall else Grid.cell g i j.
Proof.
  intros (Hw & Hh & Hwf & _). destruct sg as [[[hz x] y] len]; destruct hz;
    simpl; intros Hr.
  - apply horz_wall_pure_cell; [done|lia..].
  - apply vert_wall_pure_cell; [done|lia..].
Qed.

(** After the segments are drawn, a cell is a wall when a segment passes
    over it, and is as it was otherwise. *)
Lemma segments_cell w h g sgs i j :
  walls_only w h g → Forall (segment_in_range w h) sgs →
  Grid.cell (foldl draw_segment g sgs) i j =
    if existsb (covers i j) sgs then Some Wall else Grid.cell g i j.
Proof.
  revert g. induction sgs as [|sg sgs IH]; intros g Hg Hr; simpl; [done|].
  apply Forall_cons in Hr as [Hsg Hsgs].
  rewrite IH; [|by apply draw_segment_walls_only|done].
  rewrite (draw_segment_cell w h) by done.
  by destruct (covers i j sg), (existsb (covers i j) sgs).
Qed.

Lemma maze_segments_in_range w h :
  3 ≤ w → 3 ≤ h → w mod 2 = 1 →
  Forall (segment_in_range w h) (maze_segments w h).
Proof.
  intros Hw Hh Hodd%half_odd. unfold maze_segments.
  set (m := w / 2) in *. repeat constructor; simpl; lia.
Qed.

Lemma maze_cell w h i j :
  3 ≤ w → 3 ≤ h → w mod 2 = 1 →
  Grid.cell (maze w h) i j =
    if existsb (covers i j) (maze_segments w h) then Some Wall else None.
Proof.
  intros Hw Hh Hodd. rewrite maze_segments_eq.
  rewrite (segments_cell w h);
    [|apply empty_grid_walls_only|by apply maze_segments_in_range].
  by rewrite empty_grid_cell.
Qed.

(** The border of the maze is made of walls. *)
Lemma maze_border w h i j :
  3 ≤ w → 3 ≤ h → w mod 2 = 1 → 0 ≤ i < w → 0 ≤ j < h →
  i = 0 ∨ i = w - 1 ∨ j = 0 ∨ j = h - 1 →
  Grid.cell (maze w h) i j = Some Wall.
Proof.
  intros Hw Hh Hodd Hi Hj Hb. rewrite maze_cell by done.
  replace (existsb (covers i j) (maze_segments w h)) with true; [done|].
  symmetry. apply existsb_exists.
  destruct Hb as [-> | [-> | [-> | ->]]].
  - exists (false, 0, 0, h). split; [unfold maze_segments; simpl; tauto|].
    simpl. rewrite !andb_true_iff. lia.
  - exists (false, 0 + w - 1, 0, h). split; [unfold maze_segments; simpl; tauto|].
    simpl. rewrite !andb_true_iff. lia.
  - exists (true, 0, 0, w). split; [unfold maze_segments; simpl; tauto|].
    simpl. rewrite !andb_true_iff. lia.
  - exists (true, 0, 0 + h - 1, w). split; [unfold maze_segments; simpl; tauto|].
    simpl. rewrite !andb_true_iff. lia.
Qed.

(** The cell the agent starts on, and the two corners, are free of walls. *)
Lemma maze_free w h i j :
  3 ≤ w → 3 ≤ h → w mod 2 = 1 →
  (i = w / 2 ∧ j = h - 2) ∨ ((i = 1 ∨ i = w - 2) ∧ j = 1) →
  Grid.cell (maze w h) i j = None.
Proof.
  intros Hw Hh Hodd Hij. rewrite maze_cell by done.
  pose proof (half_odd w Hodd) as Hm.
  replace (existsb (covers i j) (maze_segments w h)) with false; [done|].
  symmetry. unfold maze_segments. set (m := w / 2) in *. simpl.
  repeat match goal with
  | |- context [?a && ?b && ?c] =>
      let E := fresh "E" in
      destruct (a && b && c) eqn:E;
      [exfalso; rewrite !andb_true_iff in E; lia|clear E]
  end. done.
Qed.

Lemma wall_rect_closed w h g :
  walls_only w h g → 3 ≤ w → 3 ≤ h →
  Grid.wall_rect g 0 0 w h =
    Ok (vert_wall_pure
          (vert_wall_pure
             (horz_wall_pure (horz_wall_pure g 0 0 w) 0 (0 + h - 1) w) 0 0 h)
          (0 + w - 1) 0 h).
Proof.
  intros Hg Hw Hh. unfold Grid.wall_rect.
  destruct Hg as (Hgw & Hgh & _).
  rewrite horz_wall_closed by lia. simpl.
  destruct (horz_wall_pure_dims g 0 0 w) as [Hw1 Hh1].
  rewrite horz_wall_closed by lia. simpl.
  destruct (horz_wall_pure_dims (horz_wall_pure g 0 0 w) 0 (0 + h - 1) w) as [Hw2 Hh2].
  rewrite vert_wall_closed by lia. simpl.
  destruct (vert_wall_pure_dims
              (horz_wall_pure (horz_wall_pure g 0 0 w) 0 (0 + h - 1) w) 0 0 h)
    as [Hw3 Hh3].
  rewrite vert_wall_closed by lia. done.
Qed.

(** ** main_dqn.py: [_gen_grid] and [reset] *)

Section DqnReset.

Import MainDqn.
Context {G : Type} `{Generator G}.
Hypothesis laws : GeneratorLaws G.
Implicit Types s : TMaze G.

Lemma on_grid_Ok (f : Grid.t → result Grid.t) s g' :
  f (grid s) = Ok g' → on_grid f s = (Ok tt, set_grid g' s).
Proof. unfold on_grid. by intros ->. Qed.

Lemma goal_choice_range s : goal_choice s = 0 ∨ goal_choice s = 1.
Proof.
  pose proof (integers_range G laws 2 (np_random s)) as Hr.
  unfold goal_choice. lia.
Qed.

Lemma corner_in_grid w h g c :
  walls_only w h g → 3 ≤ w → 3 ≤ h → in_grid g (corner w c).1 (corner w c).2.
Proof.
  intros (Hw & Hh & _) ? ?. unfold in_grid, corner. rewrite Hw, Hh.
  destruct (c =? 0); simpl; lia.
Qed.

Ltac norm_env :=
  unfold set_grid, set_agent_pos, set_agent_dir, set_np_random, set_goal_position,
    set_lava_position, set_arrow_q_values, set_step_count, set_num_episodes;
  cbn [grid width height max_steps path_episode_threshold num_episodes
       goal_position lava_position arrow_q_values agent_pos agent_dir step_count
       np_random].

Lemma gen_grid_closed s w h :
  w mod 2 = 1 → h mod 2 = 1 → 3 ≤ w → 3 ≤ h →
  _gen_grid w h s = (Ok tt, gen_grid_env w h s).
Proof.
  intros Hwo Hho Hw Hh. pose proof (half_odd w Hwo) as Hm.
  pose proof (goal_choice_range s) as Hc.
  unfold gen_grid_env, goal_choice in *.
  destruct s as [w0 h0 ms th ne gp lp aq g ap ad sc rng]. norm_env. cbn [np_random] in Hc.
  unfold _gen_grid.
  erewrite bind_Ok
    by (unfold lift; rewrite assert_true; [done|apply andb_true_iff; split; lia]).
  erewrite bind_Ok.
  2:{ unfold lift, Grid.new. rewrite !assert_true by lia. done. }
  erewrite bind_Ok by reflexivity. norm_env.
  fold (empty_grid w h). unfold maze. cbv zeta.
  set (m := w / 2) in *.
  repeat match goal with
  | |- context [on_grid (λ g, Grid.wall_rect g 0 0 w h)] =>
      erewrite bind_Ok;
      [|apply on_grid_Ok; apply (wall_rect_closed w h);
        [simpl; walls_only|lia|lia]];
      norm_env
  | |- context [(on_grid (λ g, Grid.vert_wall g ?x ?y ?len) ≫= _) ?s0] =>
      let Hg := fresh "Hg" in
      assert (Hg : walls_only w h (grid s0)) by (simpl; walls_only);
      erewrite bind_Ok;
      [|apply on_grid_Ok; apply vert_wall_closed;
        destruct Hg as (Hgw & Hgh & _); rewrite ?Hgw, ?Hgh; lia];
      clear Hg; norm_env
  | |- context [(on_grid (λ g, Grid.horz_wall g ?x ?y ?len) ≫= _) ?s0] =>
      let Hg := fresh "Hg" in
      assert (Hg : walls_only w h (grid s0)) by (simpl; walls_only);
      erewrite bind_Ok;
      [|apply on_grid_Ok; apply horz_wall_closed;
        destruct Hg as (Hgw & Hgh & _); rewrite ?Hgw, ?Hgh; lia];
      clear Hg; norm_env
  end.
  match goal with
  | |- context [mkTMaze _ _ _ _ _ _ _ _ ?g0] =>
      assert (Hmaze : walls_only w h g0) by walls_only; set (mz := g0) in *
  end.
  erewrite bind_Ok by reflexivity. erewrite bind_Ok by reflexivity. norm_env.
  cbv zeta.
  erewrite bind_Ok by apply draw_eq. norm_env.
  destruct (integers 2 rng) as [c rng'].  cbn [fst snd] in *.
  assert (Hin : ∀ c', in_grid mz (corner w c').1 (corner w c').2)
    by (intros c'; by apply (corner_in_grid w h)).
  assert (Hin' : ∀ c' o,
            in_grid (grid_upd mz (corner w c').1 (corner w c').2 o)
              (corner w (1 - c')).1 (corner w (1 - c')).2)
    by (intros c' o; apply in_grid_upd, Hin).
  destruct Hc as [-> | ->].
  - erewrite bind_Ok by reflexivity.
    erewrite bind_Ok by reflexivity. norm_env.
    erewrite bind_Ok by reflexivity.
    erewrite bind_Ok by reflexivity. norm_env.
    erewrite bind_Ok by reflexivity.
    erewrite bind_Ok by reflexivity. norm_env.
    unfold put_obj.
    erewrite bind_Ok by (apply on_grid_Ok, Grid_set_upd, (Hin 0)). norm_env.
    erewrite on_grid_Ok by (apply Grid_set_upd, (Hin' 0)). norm_env.
    change (corner w 0) with (1, 1). change (corner w (1 - 0)) with (w - 2, 1).
    by destruct (array_equal _ _).
  - erewrite bind_Ok by reflexivity.
    erewrite bind_Ok by reflexivity. norm_env.
    erewrite bind_Ok by reflexivity.
    erewrite bind_Ok by reflexivity. norm_env.
    erewrite bind_Ok by reflexivity.
    erewrite bind_Ok by reflexivity. norm_env.
    unfold put_obj.
    erewrite bind_Ok by (apply on_grid_Ok, Grid_set_upd, (Hin 1)). norm_env.
    erewrite on_grid_Ok by (apply Grid_set_upd, (Hin' 1)). norm_env.
    change (corner w 1) with (w - 2, 1). change (corner w (1 - 1)) with (1, 1).
    by destruct (array_equal _ _).
Qed.

Lemma gen_grid_Ok_inv s w h u s' :
  _gen_grid w h s = (Ok u, s') →
  w mod 2 = 1 ∧ h mod 2 = 1 ∧ 3 ≤ w ∧ 3 ≤ h.
Proof.
  unfold _gen_grid, mbind, method_bind, lift, Grid.new, assert.
  destruct ((w mod 2 =? 1) && (h mod 2 =? 1)) eqn:Hodd; [|done].
  destruct (3 <=? w) eqn:Hw; [|done]. destruct (3 <=? h) eqn:Hh; [|done].
  intros _. apply andb_true_iff in Hodd. lia.
Qed.

Lemma gen_grid_env_wf s w h :
  width s = w → height s = h → 5 ≤ w → 3 ≤ h → env_wf (gen_grid_env w h s).
Proof.
  intros Hw Hh H5 H3. destruct (maze_walls_only w h) as (Hmw & Hmh & Hmwf & _).
  unfold env_wf, gen_grid_env; simpl.
  repeat split; try done; try lia. by do 2 apply grid_upd_wf.
Qed.

Lemma gen_grid_env_dims s w h :
  Grid.width (grid (gen_grid_env w h s)) = w ∧
  Grid.height (grid (gen_grid_env w h s)) = h.
Proof. by destruct (maze_walls_only w h) as (Hmw & Hmh & _). Qed.

(** The cell the agent starts on holds no wall. *)
Lemma gen_grid_start s w h :
  w mod 2 = 1 → 3 ≤ w → 3 ≤ h →
  traversable (Grid.cell (grid (gen_grid_env w h s)) (w / 2) (h - 2)) = true.
Proof.
  intros Hodd Hw Hh. pose proof (half_odd w Hodd) as Hm.
  destruct (maze_walls_only w h) as (Hmw & Hmh & Hmwf & _).
  unfold gen_grid_env; simpl. set (m := w / 2) in *.
  set (goal := corner w (goal_choice s)). set (lava := corner w (1 - goal_choice s)).
  assert (Hgin : in_grid (maze w h) goal.1 goal.2)
    by (apply (corner_in_grid w h); [apply maze_walls_only|done..]).
  assert (Hlin : in_grid (grid_upd (maze w h) goal.1 goal.2 (Some (Goal green)))
                   lava.1 lava.2)
    by (apply in_grid_upd, (corner_in_grid w h); [apply maze_walls_only|done..]).
  destruct (decide ((m, h - 2) = (lava.1, lava.2))) as [[= -> ->]|Hl].
  { rewrite cell_upd_eq; [done|by apply grid_upd_wf|done]. }
  rewrite cell_upd_ne by done.
  destruct (decide ((m, h - 2) = (goal.1, goal.2))) as [[= -> ->]|Hg].
  { rewrite cell_upd_eq; done. }
  rewrite cell_upd_ne by done.
  rewrite maze_free; [done..|]. by left.
Qed.

Lemma reset_closed seed s :
  size_ok s →
  reset seed s = (Ok (gen_obs_obs (reset_grid seed s)), gen_obs_env (reset_grid seed s)).
Proof.
  intros (Hwo & Hho & Hw & Hh). pose proof (half_odd _ Hwo) as Hm.
  unfold reset, reset_grid.
  set (s1 := reset_seeded seed s).
  assert (Hw1 : width s1 = width s) by (unfold s1, reset_seeded; by destruct seed).
  assert (Hh1 : height s1 = height s) by (unfold s1, reset_seeded; by destruct seed).
  assert (Hrun : _gen_grid (width s1) (height s1) s1 =
                   (Ok tt, gen_grid_env (width s) (height s) s1))
    by (rewrite Hw1, Hh1; apply gen_grid_closed; lia).
  pose proof (gen_grid_env_wf s1 _ _ Hw1 Hh1 Hw Hh) as Hwf.
  pose proof (gen_grid_start s1 _ _ Hwo ltac:(lia) Hh) as Hstart.
  assert (Hget : Grid.get (grid (gen_grid_env (width s) (height s) s1))
                   (width s / 2) (height s - 2) =
                 Ok (Grid.cell (grid (gen_grid_env (width s) (height s) s1))
                       (width s / 2) (height s - 2))).
  { apply Grid_get_in; [apply Hwf|].
    destruct (gen_grid_env_dims s1 (width s) (height s)) as [Hgw Hgh].
    unfold in_grid. rewrite Hgw, Hgh. lia. }
  assert (Hs1 : set_agent_dir (-1) (set_agent_pos (-1, -1)
                  match seed with
                  | Some n => set_np_random (default_rng n)
                                (set_num_episodes (num_episodes s + 1) s)
                  | None => set_num_episodes (num_episodes s + 1) s
                  end) = s1) by (unfold s1, reset_seeded; by destruct seed).
  clearbody s1.
  erewrite bind_Ok by reflexivity.
  assert (Hseed : ∀ s0, (match seed with
                         | Some n => modify (set_np_random (default_rng n))
                         | None => mret tt
                         end) s0 =
                        (Ok tt, match seed with
                                | Some n => set_np_random (default_rng n) s0
                                | None => s0
                                end)) by (intros s0; by destruct seed).
  erewrite bind_Ok by apply Hseed.
  erewrite bind_Ok by reflexivity. erewrite bind_Ok by reflexivity.
  erewrite bind_Ok by reflexivity.
  rewrite Hs1. erewrite bind_Ok by exact Hrun.
  erewrite bind_Ok by reflexivity.
  erewrite bind_Ok
    by (unfold lift; rewrite assert_true; [done|];
        simpl; rewrite !andb_true_iff, !Z.leb_le; lia).
  erewrite bind_Ok by (unfold lift; simpl agent_pos; cbn [fst snd]; by rewrite Hget).
  erewrite bind_Ok
    by (unfold lift; rewrite assert_true; [done|exact Hstart]).
  erewrite bind_Ok by reflexivity.
  by apply gen_obs_closed.
Qed.

(** [gen_obs] returns only when the four box cells lie inside the grid. *)
Lemma gen_obs_Ok_inv s obs s' :
  gen_obs s = (Ok obs, s') →
  Grid.width (grid s) * 3 / 4 + 1 < Grid.width (grid s) ∨ width s ≠ Grid.width (grid s).
Proof.
  intros Hobs. destruct (decide (width s = Grid.width (grid s))) as [Hw|]; [|by right].
  left. unfold gen_obs in Hobs.
  apply bind_Ok_inv in Hobs as (s0 & ? & [= <- <-] & Hobs).
  apply bind_Ok_inv in Hobs as ([] & s1 & Hclear & _).
  simpl in Hclear.
  apply bind_Ok_inv in Hclear as ([] & s2 & Hleft & Hclear).
  apply bind_Ok_inv in Hclear as ([] & s3 & Hright & _).
  unfold on_grid in Hleft, Hright.
  destruct (Grid.set (grid s) _ _ None) as [g1|] eqn:Hset1; [|done].
  injection Hleft as <-.
  destruct (Grid.set (grid (set_grid g1 s)) _ _ None) as [g2|] eqn:Hset2; [|done].
  apply Grid_set_dims in Hset1 as [Hw1 _].
  apply Grid_set_Ok in Hset2 as [[Hin _] _]. simpl in Hin.
  rewrite Hw1, Hw in Hin. lia.
Qed.

Lemma reset_Ok_inv seed s obs s' :
  reset seed s = (Ok obs, s') → size_ok s.
Proof.
  intros Hreset. unfold reset in Hreset.
  apply bind_Ok_inv in Hreset as ([] & s1 & [= <-] & Hreset).
  apply bind_Ok_inv in Hreset as ([] & s2 & Hseed & Hreset).
  apply bind_Ok_inv in Hreset as ([] & s3 & [= <-] & Hreset).
  apply bind_Ok_inv in Hreset as ([] & s4 & [= <-] & Hreset).
  apply bind_Ok_inv in Hreset as (s5 & ? & [= <- <-] & Hreset).
  apply bind_Ok_inv in Hreset as ([] & s6 & Hgen & Hreset).
  assert (Hw2 : width s2 = width s ∧ height s2 = height s).
  { destruct seed; simpl in Hseed; by injection Hseed as <-. }
  destruct Hw2 as [Hw2 Hh2]. simpl in Hgen. rewrite Hw2, Hh2 in Hgen.
  pose proof (gen_grid_Ok_inv _ _ _ _ _ Hgen) as (Hwo & Hho & Hw & Hh).
  rewrite gen_grid_closed in Hgen by done. injection Hgen as <-.
  apply bind_Ok_inv in Hreset as (s7 & ? & [= <- <-] & Hreset).
  apply bind_Ok_inv in Hreset as ([] & s8 & Ha1 & Hreset).
  apply bind_Ok_inv in Hreset as (c & s9 & Hget & Hreset).
  apply bind_Ok_inv in Hreset as ([] & s10 & Ha2 & Hreset).
  apply bind_Ok_inv in Hreset as ([] & s11 & [= <-] & Hobs).
  unfold lift in Ha1, Hget, Ha2.
  injection Ha1 as _ <-. injection Hget as _ <-. injection Ha2 as _ <-.
  apply gen_obs_Ok_inv in Hobs as [Hlt|Hne].
  - repeat split; try done.
    destruct (gen_grid_env_dims
                (set_agent_dir (-1) (set_agent_pos (-1, -1) s2)) (width s) (height s))
      as [Hgw _].
    simpl in Hlt, Hgw. rewrite Hgw in Hlt.
    revert Hlt. generalize (width s). intros w. Z.div_mod_to_equations. lia.
  - exfalso. apply Hne. simpl. rewrite Hw2.
    by destruct (maze_walls_only (width s) (height s)) as (-> & _).
Qed.

End DqnReset.

(** ** main_dqn.py: the environments of an episode *)

Section DqnReachable.

Import MainDqn.
Context {G : Type} `{Generator G}.
Hypothesis laws : GeneratorLaws G.
Implicit Types s : TMaze G.

Lemma kept_episode_inv s s' : kept s s' → episode_inv s → episode_inv s'.
Proof.
  unfold kept, episode_inv, env_wf, size_ok, goal_is_right.
  intros (Hw & Hh & _ & _ & _ & Hg & Hl & Ha & Hgw & Hgh & Hwf).
  intros ((Hwf0 & Hgw0 & Hgh0 & H5 & H3) & Hsize & Harrow & c & Hc & Hgoal & Hlava).
  rewrite Hw, Hh, Hg, Hl, Ha, Hgw, Hgh. repeat split; try tauto. by exists c.
Qed.

Lemma reset_grid_fields seed s :
  let c := goal_choice (reset_seeded seed s) in
  width (reset_grid seed s) = width s ∧ height (reset_grid seed s) = height s ∧
  goal_position (reset_grid seed s) = Some (corner (width s) c) ∧
  lava_position (reset_grid seed s) = Some (corner (width s) (1 - c)) ∧
  arrow_q_values (reset_grid seed s) =
    encoding (array_equal (Some (corner (width s) c)) (width s - 2, 1)) ∧
  agent_pos (reset_grid seed s) = (width s / 2, height s - 2) ∧
  grid (reset_grid seed s) =
    grid_upd (grid_upd (maze (width s) (height s))
                (corner (width s) c).1 (corner (width s) c).2 (Some (Goal green)))
      (corner (width s) (1 - c)).1 (corner (width s) (1 - c)).2 (Some Lava).
Proof. unfold reset_grid, reset_seeded, goal_choice. by destruct seed. Qed.

Lemma reset_grid_wf seed s : 5 ≤ width s → 3 ≤ height s → env_wf (reset_grid seed s).
Proof.
  intros Hw Hh.
  assert (Hw1 : width (reset_seeded seed s) = width s)
    by (unfold reset_seeded; by destruct seed).
  assert (Hh1 : height (reset_seeded seed s) = height s)
    by (unfold reset_seeded; by destruct seed).
  apply (gen_grid_env_wf (reset_seeded seed s) _ _ Hw1 Hh1 Hw Hh).
Qed.

Lemma reset_grid_inv seed s : size_ok s → episode_inv (reset_grid seed s).
Proof.
  intros Hsize. pose proof Hsize as (Hwo & Hho & Hw & Hh).
  destruct (reset_grid_fields seed s) as (Hw1 & Hh1 & Hg & Hl & Ha & _).
  unfold episode_inv. split; [|split; [|split]].
  - by apply reset_grid_wf.
  - unfold size_ok. by rewrite Hw1, Hh1.
  - unfold goal_is_right. by rewrite Ha, Hg, Hw1.
  - exists (goal_choice (reset_seeded seed s)).
    split; [apply (goal_choice_range laws)|]. by rewrite Hw1.
Qed.

Lemma reset_inv seed s obs s' : reset seed s = (Ok obs, s') → episode_inv s'.
Proof.
  intros Hreset. pose proof (reset_Ok_inv laws _ _ _ _ Hreset) as Hsize.
  rewrite (reset_closed laws) in Hreset by done. injection Hreset as _ <-.
  pose proof (reset_grid_inv seed s Hsize) as Hinv.
  pose proof (gen_obs_frame (reset_grid seed s)) as [_ Hk].
  rewrite gen_obs_closed in Hk by apply Hinv.
  by apply (kept_episode_inv _ _ Hk).
Qed.

Lemma step_inv s action r s' :
  step action s = (Ok r, s') → episode_inv s → episode_inv s'.
Proof.
  intros Hstep. pose proof (step_frame s action) as [_ Hk].
  rewrite Hstep in Hk. by apply kept_episode_inv.
Qed.

(** Every environment of an episode satisfies the invariant. *)
Lemma reachable_inv s : reachable s → episode_inv s.
Proof.
  induction 1 as [s seed obs s' Hreset|s action r s' _ IH Hstep].
  - by apply (reset_inv seed s obs).
  - by apply (step_inv s action r).
Qed.

Lemma boxes_interior s b :
  9 ≤ width s → 5 ≤ height s → b ∈ box_locations s →
  2 ≤ b.1 ≤ width s - 2 ∧ 1 ≤ b.2 ≤ height s - 2.
Proof.
  intros Hw Hh. unfold box_locations, left_box, right_box, up_box, down_box.
  assert (3 ≤ width s * 3 / 4 ≤ width s - 3) by (Z.div_mod_to_equations; lia).
  assert (3 ≤ height s * 2 / 3 ≤ height s - 2) by (Z.div_mod_to_equations; lia).
  rewrite !elem_of_cons, elem_of_nil.
  intros [->|[->|[->|[->|[]]]]]; simpl; lia.
Qed.

Lemma frame_border B s s' :
  frame B s s' → (∀ b, b ∈ B → 1 ≤ b.1 ≤ width s - 2 ∧ 1 ≤ b.2 ≤ height s - 2) →
  border_walls s → border_walls s'.
Proof.
  intros (Hsame & Hw & Hh & _) HB Hborder i j Hi Hj Hij.
  rewrite Hw in Hi, Hij. rewrite Hh in Hj, Hij.
  rewrite Hsame; [by apply Hborder|].
  intros Hel. apply HB in Hel. simpl in Hel. lia.
Qed.

Lemma reset_grid_border seed s : size_ok s → border_walls (reset_grid seed s).
Proof.
  intros (Hwo & Hho & Hw & Hh) i j Hi Hj Hij.
  destruct (reset_grid_fields seed s) as (Hw1 & Hh1 & _ & _ & _ & _ & Hgrid).
  rewrite Hw1 in Hi, Hij. rewrite Hh1 in Hj, Hij. rewrite Hgrid.
  set (c := goal_choice (reset_seeded seed s)).
  destruct (maze_walls_only (width s) (height s)) as (Hmw & Hmh & Hmwf & _).
  set (goal := corner (width s) c). set (lava := corner (width s) (1 - c)).
  assert (Hgin : in_grid (maze (width s) (height s)) goal.1 goal.2)
    by (apply (corner_in_grid (width s) (height s)); [apply maze_walls_only|lia..]).
  assert (Hlin : in_grid (maze (width s) (height s)) lava.1 lava.2)
    by (apply (corner_in_grid (width s) (height s)); [apply maze_walls_only|lia..]).
  assert (Hg : 1 ≤ goal.1 ≤ width s - 2 ∧ goal.2 = 1)
    by (unfold goal, corner; destruct (_ =? 0); simpl; lia).
  assert (Hl : 1 ≤ lava.1 ≤ width s - 2 ∧ lava.2 = 1)
    by (unfold lava, corner; destruct (_ =? 0); simpl; lia).
  rewrite cell_upd_ne; [|by apply in_grid_upd|intros [= -> ->]; lia].
  rewrite cell_upd_ne; [|done|intros [= -> ->]; lia].
  apply maze_border; lia.
Qed.

Lemma fwd_pos_near action s p :
  fwd_pos action s = Some p →
  (agent_pos s).1 - 1 ≤ p.1 ≤ (agent_pos s).1 + 1 ∧
  (agent_pos s).2 - 1 ≤ p.2 ≤ (agent_pos s).2 + 1.
Proof. unfold fwd_pos. repeat case_match; intros [= <-]; simpl; lia. Qed.

Lemma inside_fwd_pos_in_grid action s p :
  env_wf s → inside s → fwd_pos action s = Some p → in_grid (grid s) p.1 p.2.
Proof.
  intros (_ & Hgw & Hgh & _) Hin Hp%fwd_pos_near.
  unfold in_grid, inside in *. rewrite Hgw, Hgh. lia.
Qed.

(** In an environment of size 9 at least, the agent never leaves the inside
    of the grid and the border stays walled. *)
Lemma reachable_inside s :
  reachable s → 9 ≤ width s → 5 ≤ height s → 0 < max_steps s →
  inside s ∧ border_walls s.
Proof.
  induction 1 as [s seed obs s' Hreset|s action r s' Hreach IH Hstep];
    intros Hw Hh Hms.
  - pose proof (reset_Ok_inv laws _ _ _ _ Hreset) as Hsize.
    rewrite (reset_closed laws) in Hreset by done. injection Hreset as _ <-.
    pose proof (gen_obs_frame (reset_grid seed s)) as Hframe.
    rewrite gen_obs_closed in Hframe by (apply reset_grid_wf; apply Hsize).
    simpl in Hframe.
    destruct (reset_grid_fields seed s) as (Hw1 & Hh1 & _ & _ & _ & Hpos & _).
    pose proof Hframe as (_ & Hkw & Hkh & _).
    rewrite Hkw, Hw1 in Hw. rewrite Hkh, Hh1 in Hh. split.
    + unfold inside. rewrite Hkw, Hkh, Hw1, Hh1.
      change (agent_pos (gen_obs_env (reset_grid seed s)))
        with (agent_pos (reset_grid seed s)).
      rewrite Hpos. simpl. Z.div_mod_to_equations. lia.
    + apply (frame_border _ _ _ Hframe); [|by apply reset_grid_border].
      intros b Hb. apply boxes_interior in Hb; lia.
  - pose proof (step_frame s action) as Hframe. rewrite Hstep in Hframe.
    simpl in Hframe. pose proof Hframe as (_ & Hkw & Hkh & Hkm & _).
    rewrite Hkw in Hw. rewrite Hkh in Hh. rewrite Hkm in Hms.
    destruct (IH Hw Hh Hms) as [Hin Hborder].
    pose proof (reachable_inv s Hreach) as (Hwf & _).
    split; [|apply (frame_border _ _ _ Hframe); [|done];
             intros b Hb; apply boxes_interior in Hb; lia].
    destruct (fwd_pos action s) as [p|] eqn:Hp.
    2:{ apply fwd_pos_None in Hp. by rewrite step_no_action in Hstep. }
    pose proof (inside_fwd_pos_in_grid _ _ _ Hwf Hin Hp) as Hpin.
    pose proof (fwd_pos_near _ _ _ Hp) as Hnear.
    rewrite (step_closed s action p) in Hstep by done.
    injection Hstep as _ <-.
    unfold inside. rewrite Hkw, Hkh.
    change (agent_pos (gen_obs_env (moved p s))) with (agent_pos (moved p s)).
    unfold moved.
    destruct (traversable (Grid.cell (grid s) p.1 p.2)) eqn:Ht; [|exact Hin].
    simpl. unfold inside in Hin.
    destruct (decide (p.1 = 0 ∨ p.1 = width s - 1 ∨ p.2 = 0 ∨ p.2 = height s - 1))
      as [Hb|Hb]; [|lia].
    rewrite Hborder in Ht; [done|lia..|done].
Qed.

End DqnReachable.

(** ** main_dqn.py: the arrow *)

Section DqnArrow.

Import MainDqn.
Context {G : Type} `{Generator G}.
Hypothesis laws : GeneratorLaws G.
Implicit Types s : TMaze G.

(** The generator the floats of the arrow are drawn from: the one of the
    environment, after the four draws of the boxes up to the threshold. *)
Lemma decoys_rng s :
  (decoys s).2 =
    if above_threshold s then np_random s else skip_random 4 (np_random s).
Proof.
  unfold decoys. destruct (above_threshold s); [done|].
  by rewrite place_random_rng.
Qed.

Lemma noise_range s : Forall (λ x, -1 <= x ∧ x < 1)%Q (noise s).
Proof. unfold noise. by apply (uniform_range G laws). Qed.

Lemma noise_length s : length (noise s) = 4%nat.
Proof. unfold noise. by apply (uniform_length G laws). Qed.

(** Floats below 1 are not the encoding of a side. *)
Lemma noise_not_encoding (l : list Q) right :
  Forall (λ x, -1 <= x ∧ x < 1)%Q l → ¬ Forall2 Qeq l (encoding right).
Proof.
  intros Hl Heq. destruct right; simpl in Heq.
  - inversion Heq as [|x ? l1 ? _ Heq1]; subst.
    inversion Heq1 as [|y ? l2 ? Hy _]; subst.
    apply Forall_cons in Hl as [_ Hl]. apply Forall_cons in Hl as [[_ Hlt] _].
    rewrite Hy in Hlt. by apply Qlt_irrefl in Hlt.
  - inversion Heq as [|x ? l1 ? Hx _]; subst.
    apply Forall_cons in Hl as [[_ Hlt] _].
    rewrite Hx in Hlt. by apply Qlt_irrefl in Hlt.
Qed.

(** The arrow of the observation [gen_obs] returns, on an environment of an
    episode. *)
Lemma gen_obs_arrow s :
  episode_inv s →
  gen_obs s = (Ok (gen_obs_obs s), gen_obs_env s) ∧
  position (gen_obs_obs s) = agent_pos s ∧
  (at_decision_cell s = true →
     arrow (gen_obs_obs s) = encoding (goal_is_right s)) ∧
  (at_decision_cell s = false →
     arrow (gen_obs_obs s) =
       (uniform (-1) 1 4
          (if above_threshold s then np_random s
           else skip_random 4 (np_random s))).1) ∧
  (Forall2 Qeq (arrow (gen_obs_obs s)) (encoding (goal_is_right s)) ↔
     at_decision_cell s = true).
Proof.
  intros (Hwf & _ & Harrow & _).
  split; [by apply gen_obs_closed|]. split; [done|].
  unfold gen_obs_obs; simpl.
  destruct (at_decision_cell s) eqn:Hat.
  - rewrite Harrow. split; [done|]. split; [done|]. split; [done|].
    intros _. apply Forall2_same_length_lookup. split; [done|].
    intros i x y Hx Hy. rewrite Hx in Hy. by injection Hy as <-.
  - split; [done|]. split; [|split; [|done]].
    + intros _. unfold noise. by rewrite decoys_rng.
    + intros Heq. exfalso. apply (noise_not_encoding _ _ (noise_range s) Heq).
Qed.

(** The observation [step] returns is the one of [gen_obs] on an
    environment that differs from the one of the call in the step counter and
    the agent's position only. *)
Lemma step_Ok_obs s action obs r te tr s' :
  step action s = (Ok (obs, r, te, tr), s') →
  ∃ s2, kept s s2 ∧ gen_obs s2 = (Ok obs, s').
Proof.
  intros Hstep. unfold step in Hstep.
  apply bind_Ok_inv in Hstep as ([] & s1 & [= <-] & Hstep).
  apply bind_Ok_inv in Hstep as (? & ? & [= <- <-] & Hstep).
  apply bind_Ok_inv in Hstep as ([r0 t0] & s2 & Hmove & Hstep).
  apply bind_Ok_inv in Hstep as (? & ? & [= <- <-] & Hstep).
  apply bind_Ok_inv in Hstep as (obs0 & s3 & Hobs & [= <- <- <- <- <-]).
  exists s2. split; [|done].
  set (s1 := set_step_count (step_count s + 1) s) in *.
  assert (Hk1 : frame (box_locations s) s s1) by (by repeat split).
  assert (Hk2 : frame (box_locations s) s1 s2).
  { match type of Hmove with
    | ?m s1 = _ => assert (Hm : preserves (frame (box_locations s)) m)
    end.
    { repeat (destruct (_ =? _); [apply move_frame|]).
      apply preserves_bind; [apply _|apply preserves_lift; apply _|]. intros d.
      destruct (_ =? _); [apply preserves_ret|apply preserves_raise]; apply _. }
    specialize (Hm s1). by rewrite Hmove in Hm. }
  destruct (transitivity Hk1 Hk2) as [_ Hk]. exact Hk.
Qed.

Lemma gen_obs_arrow_of s2 obs s' :
  episode_inv s2 → gen_obs s2 = (Ok obs, s') →
  position obs = agent_pos s' ∧
  (Forall2 Qeq (arrow obs) (encoding (goal_is_right s')) ↔
     at_decision_cell s' = true) ∧
  (at_decision_cell s' = false →
     ∃ s2, gen_obs s2 = (Ok obs, s') ∧
       arrow obs = (uniform (-1) 1 4
                      (if above_threshold s2 then np_random s2
                       else skip_random 4 (np_random s2))).1).
Proof.
  intros Hinv Hobs.
  destruct (gen_obs_arrow s2 Hinv) as (Hclosed & Hpos & _ & Haway & Hiff).
  pose proof Hobs as Hobs'. rewrite Hclosed in Hobs'.
  injection Hobs' as <- <-.
  change (at_decision_cell (gen_obs_env s2)) with (at_decision_cell s2).
  change (goal_is_right (gen_obs_env s2)) with (goal_is_right s2).
  split; [done|]. split; [done|]. intros Hat. exists s2. split; [done|].
  by apply Haway.
Qed.

(** C1 on [main_dqn.py]. For every observation of an episode, returned by
    [reset] or by [step]: the arrow is, float for float, the encoding of the
    side of the goal exactly when the agent is on the decision cell; away
    from it the arrow is the four floats of [uniform(-1, 1)] drawn from the
    generator as the boxes left it, whatever the side of the goal. *)
Theorem dqn_arrow_iff_decision_cell obs s' :
  observed obs s' →
  position obs = agent_pos s' ∧
  (Forall2 Qeq (arrow obs) (encoding (goal_is_right s')) ↔
     at_decision_cell s' = true) ∧
  (at_decision_cell s' = false →
     ∃ s2, gen_obs s2 = (Ok obs, s') ∧
       arrow obs = (uniform (-1) 1 4
                      (if above_threshold s2 then np_random s2
                       else skip_random 4 (np_random s2))).1).
Proof.
  destruct 1 as [s seed obs s' Hreset|s action obs r te tr s' Hreach Hstep].
  - pose proof (reset_Ok_inv laws _ _ _ _ Hreset) as Hsize.
    rewrite (reset_closed laws) in Hreset by done.
    apply (gen_obs_arrow_of (reset_grid seed s)); [by apply (reset_grid_inv laws)|].
    rewrite gen_obs_closed; [done|]. by apply (reset_grid_inv laws).
  - destruct (step_Ok_obs _ _ _ _ _ _ _ Hstep) as (s2 & Hk & Hobs).
    apply (gen_obs_arrow_of s2); [|done].
    apply (kept_episode_inv _ _ Hk). by apply (reachable_inv laws).
Qed.

End DqnArrow.

(** ** main.py: the arrow of the older environment *)

Section MainArrow.

Import Main.
Context {G : Type} `{Generator G}.
Hypothesis laws : GeneratorLaws G.
Implicit Types s : TMaze G.

Lemma randint_0_1 g : (randint 0 1 g).1 = 0.
Proof. pose proof (randint_range G laws 0 1 g). lia. Qed.

Lemma draw_global_eq {A} (f : G → A * G) s :
  draw_global f s =
    (Ok (f (np_random_global s)).1, set_np_random_global (f (np_random_global s)).2 s).
Proof. unfold draw_global. by destruct (f (np_random_global s)). Qed.

(** [gen_obs] of [main.py] before [float] is applied. *)
Lemma main_gen_obs_eq s :
  gen_obs s =
    match float (if at_decision_cell s then PyBoolArray (arrow_position s)
                 else PyInt (randint 0 1 (np_random_global s)).1) with
    | Ok a =>
        (Ok (mkObs (encode_view (grid s) (agent_pos s) (agent_dir s)) (agent_dir s)
               "get to the green goal square" (agent_pos s) a),
         set_np_random_global (randint 0 1 (np_random_global s)).2 s)
    | Raise e =>
        (Raise e, set_np_random_global (randint 0 1 (np_random_global s)).2 s)
    end.
Proof.
  unfold gen_obs.
  erewrite bind_Ok by reflexivity.
  erewrite bind_Ok by apply draw_global_eq.
  erewrite bind_Ok by reflexivity.
  change (at_decision_cell (set_np_random_global _ s)) with (at_decision_cell s).
  change (arrow_position (set_np_random_global _ s)) with (arrow_position s).
  unfold mbind, method_bind, lift.
  by destruct (float _).
Qed.

(** C1 on [main.py]. Away from the decision cell [gen_obs] returns, and the
    arrow of the observation is 0.0 whatever the generators and the side of
    the goal: [np.random.randint(0, 1)] has 0 as its only value. *)
Theorem main_arrow_constant s :
  at_decision_cell s = false →
  ∃ obs s', gen_obs s = (Ok obs, s') ∧ arrow obs = 0%Q ∧ position obs = agent_pos s.
Proof.
  intros Hat. rewrite main_gen_obs_eq, Hat, randint_0_1. simpl.
  eexists _, _. split; [reflexivity|]. done.
Qed.

(** On the decision cell the arrow is the array of two booleans that
    [_gen_grid] stored, and [float] of it raises. *)
Lemma main_arrow_decision_raises s b1 b2 :
  at_decision_cell s = true → arrow_position s = [b1; b2] →
  (gen_obs s).1 = Raise TypeError.
Proof. intros Hat Harr. by rewrite main_gen_obs_eq, Hat, Harr. Qed.

End MainArrow.

Lemma main_arrow_constant_witness :
  ∃ obs s', Main.gen_obs ex_main = (Ok obs, s') ∧ Main.arrow obs = 0%Q.
Proof.
  destruct (main_arrow_constant Lcg_laws ex_main) as (obs & s' & Hobs & Harrow & _).
  - reflexivity.
  - by exists obs, s'.
Defined.

(** ** Counting the objects of a grid *)

Lemma count_cells_insert p (l : list (option WorldObj)) k v c :
  l !! k = Some c →
  (Grid.count_cells p (<[k:=v]> l) + (if Grid.holds p c then 1 else 0) =
   Grid.count_cells p l + (if Grid.holds p v then 1 else 0))%nat.
Proof.
  revert k. induction l as [|x l IH]; intros k Hk; [done|].
  destruct k as [|k]; simpl in *.
  - injection Hk as ->. lia.
  - specialize (IH k Hk). lia.
Qed.

Lemma count_upd p g i j v :
  grid_wf g → in_grid g i j →
  (Grid.count p (grid_upd g i j v) + (if Grid.holds p (Grid.cell g i j) then 1 else 0) =
   Grid.count p g + (if Grid.holds p v then 1 else 0))%nat.
Proof.
  intros Hwf Hin. unfold Grid.count, grid_upd; simpl.
  rewrite Grid_cell_in by done.
  destruct (lookup_lt_is_Some_2 (Grid.grid g) _ (cell_index_lt g i j Hwf Hin))
    as [c Hc].
  rewrite Hc. simpl. by apply count_cells_insert.
Qed.

Lemma only_walls_count p g :
  only_walls g → p Wall = false → Grid.count p g = 0%nat.
Proof.
  unfold only_walls, Grid.count. intros Hg Hp.
  induction Hg as [|c l [->| ->] _ IH]; simpl; [done|done|by rewrite Hp].
Qed.

(** ** main.py: [_gen_grid] *)

Section MainGenGrid.

Import Main.
Context {G : Type} `{Generator G}.
Hypothesis laws : GeneratorLaws G.
Implicit Types s : TMaze G.






End MainGenGrid.

(** ** The objects in the corners *)

Lemma corner_cases w c :
  (corner w c = (1, 1) ∨ corner w c = (w - 2, 1)) ∧
  (c = 0 → corner w c = (1, 1)) ∧ (c = 1 → corner w c = (w - 2, 1)).
Proof. unfold corner. destruct (Z.eqb_spec c 0); repeat split; auto; lia. Qed.

Lemma maze_corner_free w h c :
  3 ≤ w → 3 ≤ h → w mod 2 = 1 →
  Grid.cell (maze w h) (corner w c).1 (corner w c).2 = None.
Proof.
  intros Hw Hh Hodd. apply maze_free; try done. right.
  destruct (corner_cases w c) as [[-> | ->] _]; simpl; auto.
Qed.

Section DqnCorners.

Import MainDqn.
Context {G : Type} `{Generator G}.
Hypothesis laws : GeneratorLaws G.
Implicit Types s : TMaze G.

(** C2 on [main_dqn.py]. [_gen_grid] returns on every odd size from 5 up,
    and then: the draw of [integers(2)] is 0 or 1 and names the corner of the
    goal, (1, 1) for 0 and (w - 2, 1) for 1; the lava is in the other corner;
    the grid holds the green goal in the one and the lava in the other, and
    no other green goal and no other lava. *)
Theorem dqn_gen_grid_goal_and_lava s w h :
  w mod 2 = 1 → h mod 2 = 1 → 5 ≤ w → 3 ≤ h →
  ∃ s',
    _gen_grid w h s = (Ok tt, s') ∧
    let c := (integers 2 (np_random s)).1 in
    let goal := corner w c in
    let lava := corner w (1 - c) in
    (c = 0 ∨ c = 1) ∧
    goal_position s' = Some goal ∧ lava_position s' = Some lava ∧
    goal ≠ lava ∧
    Grid.cell (grid s') goal.1 goal.2 = Some (Goal green) ∧
    Grid.cell (grid s') lava.1 lava.2 = Some Lava ∧
    Grid.count green_goal (grid s') = 1%nat ∧
    Grid.count (of_type "lava") (grid s') = 1%nat.
Proof.
  intros Hwo Hho Hw Hh. exists (gen_grid_env w h s).
  split; [apply (gen_grid_closed laws); lia|].
  pose proof (goal_choice_range laws s) as Hc. unfold goal_choice in Hc.
  cbv zeta. set (c := (integers 2 (np_random s)).1) in *.
  set (goal := corner w c). set (lava := corner w (1 - c)).
  assert (Hne : (lava.1, lava.2) ≠ (goal.1, goal.2)).
  { unfold goal, lava, corner. destruct Hc as [-> | ->]; simpl; intros [=]; lia. }
  destruct (maze_walls_only w h) as (Hmw & Hmh & Hmwf & Honly).
  assert (Hgin : in_grid (maze w h) goal.1 goal.2)
    by (apply (corner_in_grid w h); [apply maze_walls_only|lia..]).
  assert (Hlin : in_grid (maze w h) lava.1 lava.2)
    by (apply (corner_in_grid w h); [apply maze_walls_only|lia..]).
  assert (Hgfree : Grid.cell (maze w h) goal.1 goal.2 = None)
    by (apply maze_corner_free; lia).
  assert (Hlfree : Grid.cell (maze w h) lava.1 lava.2 = None)
    by (apply maze_corner_free; lia).
  set (g1 := grid_upd (maze w h) goal.1 goal.2 (Some (Goal green))).
  assert (Hwf1 : grid_wf g1) by (by apply grid_upd_wf).
  assert (Hl1 : Grid.cell g1 lava.1 lava.2 = None)
    by (unfold g1; by rewrite cell_upd_ne).
  split; [done|]. split; [done|]. split; [done|].
  split; [intros Heq; apply Hne; by rewrite Heq|].
  change (grid (gen_grid_env w h s)) with (grid_upd g1 lava.1 lava.2 (Some Lava)).
  split; [|split; [|split]].
  - rewrite cell_upd_ne; [by apply cell_upd_eq|done|]. intros Heq. by apply Hne.
  - by apply cell_upd_eq.
  - pose proof (count_upd green_goal g1 lava.1 lava.2 (Some Lava) Hwf1 Hlin) as H2.
    pose proof (count_upd green_goal (maze w h) goal.1 goal.2 (Some (Goal green))
                  Hmwf Hgin) as H1.
    rewrite Hl1 in H2. rewrite Hgfree in H1.
    rewrite (only_walls_count _ _ Honly) in H1 by done.
    fold g1 in H1. simpl in H1, H2. lia.
  - pose proof (count_upd (of_type "lava") g1 lava.1 lava.2 (Some Lava) Hwf1 Hlin)
      as H2.
    pose proof (count_upd (of_type "lava") (maze w h) goal.1 goal.2
                  (Some (Goal green)) Hmwf Hgin) as H1.
    rewrite Hl1 in H2. rewrite Hgfree in H1.
    rewrite (only_walls_count _ _ Honly) in H1 by done.
    fold g1 in H1. simpl in H1, H2. lia.
Qed.

End DqnCorners.

Section MainCorners.

Import Main.
Context {G : Type} `{Generator G}.
Hypothesis laws : GeneratorLaws G.
Implicit Types s : TMaze G.


End MainCorners.


Lemma dqn_gen_grid_goal_and_lava_witness :
  ∃ s',
    MainDqn._gen_grid 11 11 (constructed 11 242 (default_rng 1)) = (Ok tt, s') ∧
    Grid.count green_goal (MainDqn.grid s') = 1%nat ∧
    Grid.count (of_type "lava") (MainDqn.grid s') = 1%nat.
Proof.
  destruct (dqn_gen_grid_goal_and_lava Lcg_laws (constructed 11 242 (default_rng 1)) 11 11)
    as (s' & Hrun & _ & _ & _ & _ & _ & _ & Hgoal & Hlava);
    [reflexivity|reflexivity|lia|lia|].
  exists s'. split; [exact Hrun|]. split; [exact Hgoal|exact Hlava].
Defined.

(** ** main_dqn.py: two resets with one seed *)

Section DqnSeed.

Import MainDqn.
Context {G : Type} `{Generator G}.
Hypothesis laws : GeneratorLaws G.
Implicit Types s : TMaze G.



End DqnSeed.



(** ** main.py: the advantage pass *)

Lemma getitem_in {A} (d : A) (l : list A) (i : nat) :
  (i < length l)%nat → getitem l (Z.of_nat i) = Ok (default d (l !! i)).
Proof.
  intros Hi. unfold getitem.
  replace (Z.of_nat i <? 0) with false by (symmetry; apply Z.ltb_ge; lia).
  replace ((0 <=? Z.of_nat i) && (Z.of_nat i <? Z.of_nat (length l))) with true
    by (symmetry; apply andb_true_iff; lia).
  rewrite Nat2Z.id. by destruct (lookup_lt_is_Some_2 l i Hi) as [a ->].
Qed.

Lemma setitem_in {A} (l : list A) (i : nat) v :
  (i < length l)%nat → setitem l (Z.of_nat i) v = Ok (<[i:=v]> l).
Proof.
  intros Hi. unfold setitem.
  replace (Z.of_nat i <? 0) with false by (symmetry; apply Z.ltb_ge; lia).
  replace ((0 <=? Z.of_nat i) && (Z.of_nat i <? Z.of_nat (length l))) with true
    by (symmetry; apply andb_true_iff; lia).
  by rewrite Nat2Z.id.
Qed.

Lemma reverse_seqZ_S (n : nat) :
  reverse (seqZ 0 (Z.of_nat (S n))) = Z.of_nat n :: reverse (seqZ 0 (Z.of_nat n)).
Proof. by rewrite seqZ_S, reverse_app. Qed.

Section Gae.

Context {F : Type}.
Variables (zero one : F) (add sub mul : F → F → F).
Variables (gamma gae_lambda : F).
Variables (T : nat) (rewards values dones : list F) (next_value next_done : F).
Hypothesis rewards_length : length rewards = T.
Hypothesis values_length : length values = T.
Hypothesis dones_length : length dones = T.

Local Abbreviation at_ := (Main.at_ zero).
Local Abbreviation nnt := (Main.nextnonterminal_spec zero one sub T dones next_done).
Local Abbreviation delta :=
  (Main.delta_spec zero one add sub mul gamma T rewards values dones
     next_value next_done).
Local Abbreviation step :=
  (Main.gae_step one add sub mul gamma gae_lambda (Z.of_nat T) rewards values
     dones next_value next_done).

(** The recurrence at the index [t]. *)
Local Abbreviation recurrence adv t :=
  (at_ adv t =
     add (delta t) (mul (mul (mul gamma gae_lambda) (nnt t)) (at_ adv (S t)))).

(** One turn of the loop, at an index of the rollout. *)
Lemma gae_step_eq adv lastgaelam (t : nat) :
  (t < T)%nat → length adv = T →
  step (adv, lastgaelam) (Z.of_nat t) =
    let a := add (delta t) (mul (mul (mul gamma gae_lambda) (nnt t)) lastgaelam) in
    Ok (<[t:=a]> adv, a).
Proof.
  intros Ht Hadv. unfold Main.gae_step, Main.delta_spec,
    Main.nextnonterminal_spec, Main.nextvalue_spec, Main.at_.
  destruct (Nat.eqb_spec (S t) T) as [Heq|Hne].
  - replace (Z.of_nat t =? Z.of_nat T - 1) with true
      by (symmetry; apply Z.eqb_eq; lia).
    simpl. rewrite (getitem_in zero), (getitem_in zero) by lia. simpl.
    by rewrite setitem_in by lia.
  - replace (Z.of_nat t =? Z.of_nat T - 1) with false
      by (symmetry; apply Z.eqb_neq; lia).
    replace (Z.of_nat t + 1) with (Z.of_nat (S t)) by lia.
    rewrite (getitem_in zero), (getitem_in zero) by lia. simpl.
    rewrite (getitem_in zero), (getitem_in zero) by lia. simpl.
    by rewrite setitem_in by lia.
Qed.

(** The loop from the index [k] down: it returns, keeps what is above [k],
    and establishes the recurrence below. *)
Lemma gae_loop (k : nat) adv lastgaelam :
  (k ≤ T)%nat → length adv = T → lastgaelam = at_ adv k →
  (∀ t, (k ≤ t < T)%nat → recurrence adv t) →
  ∃ adv' lastgaelam',
    fold_result step (reverse (seqZ 0 (Z.of_nat k))) (adv, lastgaelam) =
      Ok (adv', lastgaelam') ∧
    length adv' = T ∧ ∀ t, (t < T)%nat → recurrence adv' t.
Proof.
  revert adv lastgaelam. induction k as [|k IH]; intros adv lg Hk Hlen Hlg Hrec.
  - exists adv, lg. split; [done|]. split; [done|]. intros t Ht. apply Hrec. lia.
  - rewrite reverse_seqZ_S. cbn [fold_result].
    rewrite gae_step_eq by lia. cbv zeta. simpl.
    set (a := add (delta k) (mul (mul (mul gamma gae_lambda) (nnt k)) lg)).
    apply IH.
    + lia.
    + by rewrite length_insert.
    + unfold Main.at_. by rewrite list_lookup_insert_eq by lia.
    + intros t Ht. unfold Main.at_ in *.
      destruct (decide (t = k)) as [->|Hne].
      * rewrite list_lookup_insert_eq by lia.
        rewrite list_lookup_insert_ne by lia. simpl. subst a. by rewrite <- Hlg.
      * rewrite !list_lookup_insert_ne by lia. apply Hrec. lia.
Qed.

(** C4. On a rollout of [T] steps the pass returns the advantages and the
    returns, [T] of each, and at every step [t] of the rollout:
    [advantage[t] = delta[t] + gamma * lambda * nextnonterminal[t] *
    advantage[t + 1]], with [advantage[T] = 0], where [delta[t] = reward[t] +
    gamma * nextvalue[t] * nextnonterminal[t] - value[t]], [nextvalue] is the
    next value, the bootstrap value at [T - 1], and [nextnonterminal] is 1
    minus the next done flag, the final one at [T - 1]; and [return[t] =
    advantage[t] + value[t]]. The products and sums are the ones of the
    code, in its order. *)
Theorem gae_recurrence :
  ∃ advantages returns,
    Main.gae zero one add sub mul gamma gae_lambda (Z.of_nat T) rewards values
      dones next_value next_done = Ok (advantages, returns) ∧
    length advantages = T ∧ length returns = T ∧
    at_ advantages T = zero ∧
    ∀ t, (t < T)%nat →
      at_ advantages t =
        add (delta t)
          (mul (mul (mul gamma gae_lambda) (nnt t)) (at_ advantages (S t))) ∧
      delta t =
        sub (add (at_ rewards t)
               (mul (mul gamma
                       (if (S t =? T)%nat then next_value else at_ values (S t)))
                  (sub one (if (S t =? T)%nat then next_done
                            else at_ dones (S t)))))
          (at_ values t) ∧
      nnt t = sub one (if (S t =? T)%nat then next_done else at_ dones (S t)) ∧
      at_ returns t = add (at_ advantages t) (at_ values t).
Proof.
  destruct (gae_loop T (replicate (length rewards) zero) zero)
    as (adv & lg & Hloop & Hlen & Hrec).
  - done.
  - by rewrite length_replicate.
  - unfold Main.at_. rewrite lookup_ge_None_2; [done|].
    rewrite length_replicate. lia.
  - intros t Ht. lia.
  - exists adv, (zip_with add adv values).
    split.
    { unfold Main.gae. rewrite Hloop. simpl.
      unfold Main.tensor_add. rewrite Hlen, values_length, Nat.eqb_refl. done. }
    split; [done|].
    split; [rewrite length_zip_with; lia|].
    split; [unfold Main.at_; by rewrite lookup_ge_None_2 by lia|].
    intros t Ht. split; [by apply Hrec|].
    split; [unfold Main.delta_spec, Main.nextnonterminal_spec, Main.nextvalue_spec;
            by destruct (S t =? T)%nat|].
    split; [unfold Main.nextnonterminal_spec; by destruct (S t =? T)%nat|].
    unfold Main.at_. rewrite lookup_zip_with.
    destruct (lookup_lt_is_Some_2 adv t ltac:(lia)) as [a ->].
    destruct (lookup_lt_is_Some_2 values t ltac:(lia)) as [v ->]. done.
Qed.

End Gae.

Lemma gae_recurrence_witness :
  (length [1; 2; 3] = 3%nat ∧ length [4; 5; 6] = 3%nat ∧ length [0; 1; 0] = 3%nat) ∧
  ∃ advantages returns,
    Main.gae 0 1 Z.add Z.sub Z.mul 2 3 3 [1; 2; 3] [4; 5; 6] [0; 1; 0] 7 0 =
      Ok (advantages, returns) ∧
    length advantages = 3%nat ∧ length returns = 3%nat.
Proof.
  split; [done|].
  destruct (gae_recurrence 0 1 Z.add Z.sub Z.mul 2 3 3 [1; 2; 3] [4; 5; 6]
              [0; 1; 0] 7 0 eq_refl eq_refl eq_refl)
    as (adv & ret & H & Ha & Hr & _).
  by exists adv, ret.
Defined.

(** ** main.py: the compute penalty of the rollout loop *)

Lemma fold_result_app {A B} (f : B → A → result B) xs ys b :
  fold_result f (xs ++ ys) b = fold_result f xs b ≫= fold_result f ys.
Proof.
  revert b. induction xs as [|x xs IH]; intros b; [done|].
  simpl. destruct (f b x) as [b'|e]; [apply IH|done].
Qed.

Section Rollout.

Context {Env Agent Img : Type}.
Variable envs_step : Z → Env → (Img * Q * Q * bool * bool) * Env.
Variable get_action_and_value : Img → Q → Agent → (Z * Q * Q) * Agent.
Variable _last_gate : Agent → bool.
Variable compute_penalty : Q.

Local Abbreviation rollout_step :=
  (Main.rollout_step envs_step get_action_and_value _last_gate compute_penalty).
Local Abbreviation rollout :=
  (Main.rollout envs_step get_action_and_value _last_gate compute_penalty).
Local Abbreviation penalised := (Main.penalised _last_gate compute_penalty).
Local Abbreviation took_heavy_branch := (Main.took_heavy_branch _last_gate).
Local Abbreviation agent_after := (agent_after get_action_and_value).
Local Abbreviation env_reward := (env_reward envs_step get_action_and_value).

(** The stored reward by the branch the agent reports. *)
Lemma penalised_cases reward a :
  (took_heavy_branch a = true → penalised reward a == reward - compute_penalty) ∧
  (took_heavy_branch a = false → penalised reward a == reward).
Proof.
  unfold Main.took_heavy_branch, Main.penalised, Main.bool_float.
  destruct (_last_gate a); simpl; split; intros; try discriminate; ring.
Qed.

(** One turn of the loop on a storage of [n] rows, at a row of it. *)
Lemma rollout_step_rows (n t : nat) l :
  rows n (Main.storage l) → (t < n)%nat →
  ∃ l', rollout_step (Z.of_nat t) l = Ok l' ∧
    rows n (Main.storage l') ∧
    Main.rewards (Main.storage l') =
      <[t := penalised (env_reward l) (agent_after l)]>
        (Main.rewards (Main.storage l)).
Proof.
  intros (Ho & Hac & Har & Hl & Hr & Hd & Hv) Ht.
  unfold Main.rollout_step, env_reward, env_step, agent_after, chosen_action, forward.
  rewrite !setitem_in by lia. simpl.
  destruct (get_action_and_value _ _ _) as [[[action logprob] value] agent'].
  rewrite !setitem_in by lia. simpl.
  destruct (envs_step _ _) as [[[[[next_obs' arrow'] reward] tm] tr] envs'].
  rewrite !setitem_in by lia. simpl.
  eexists. split; [done|]. simpl. split; [|done].
  unfold rows. simpl. rewrite !length_insert. done.
Qed.

(** The loop up to the step [k]: it returns, and holds the stored reward
    of every step before [k]. *)
Lemma rollout_prefix (n k : nat) l :
  rows n (Main.storage l) → (k ≤ n)%nat →
  ∃ l', rollout (Z.of_nat k) l = Ok l' ∧
    rows n (Main.storage l') ∧
    ∀ t, (t < k)%nat →
      ∃ l_t, rollout (Z.of_nat t) l = Ok l_t ∧
        Main.rewards (Main.storage l') !! t =
          Some (penalised (env_reward l_t) (agent_after l_t)).
Proof.
  intros Hrows. induction k as [|k IH]; intros Hk.
  - exists l. split; [done|]. split; [done|]. intros t Ht. lia.
  - destruct IH as (l_k & Hrun & Hrows_k & Hstored); [lia|].
    destruct (rollout_step_rows n k l_k Hrows_k ltac:(lia))
      as (l' & Hstep & Hrows' & Hrew).
    exists l'. split.
    { unfold Main.rollout in *. rewrite seqZ_S, fold_result_app, Hrun. simpl.
      rewrite Z.add_0_l, Hstep. done. }
    split; [done|]. intros t Ht. rewrite Hrew.
    destruct (decide (t = k)) as [->|Hne].
    + exists l_k. split; [done|].
      apply list_lookup_insert_eq. destruct Hrows_k as (_ & _ & _ & _ & -> & _). lia.
    + destruct (Hstored t ltac:(lia)) as (l_t & Ht1 & Ht2).
      exists l_t. split; [done|]. by rewrite list_lookup_insert_ne by done.
Qed.

(** C6. On a storage of [n] rows the loop of [n] steps returns, and for
    every step [t] of it the reward it has stored in row [t] is the reward
    the environment returned at that step minus [compute_penalty] when the
    agent, after its forward pass of that step, reports the heavy branch,
    and the environment's reward itself when it reports the other branch. *)
Theorem compute_penalty_stored (n : nat) l :
  rows n (Main.storage l) →
  ∃ l', rollout (Z.of_nat n) l = Ok l' ∧
    ∀ t, (t < n)%nat →
      ∃ l_t stored,
        rollout (Z.of_nat t) l = Ok l_t ∧
        Main.rewards (Main.storage l') !! t = Some stored ∧
        (took_heavy_branch (agent_after l_t) = true →
           stored == env_reward l_t - compute_penalty) ∧
        (took_heavy_branch (agent_after l_t) = false →
           stored == env_reward l_t).
Proof.
  intros Hrows.
  destruct (rollout_prefix n n l Hrows ltac:(lia)) as (l' & Hrun & _ & Hstored).
  exists l'. split; [done|]. intros t Ht.
  destruct (Hstored t Ht) as (l_t & Ht1 & Ht2).
  exists l_t, (penalised (env_reward l_t) (agent_after l_t)).
  split; [done|]. split; [done|]. apply penalised_cases.
Qed.

End Rollout.

Lemma compute_penalty_stored_witness :
  rows 2 (Main.storage ex_loop) ∧
  ∃ l', Main.rollout ex_envs_step ex_get_action_and_value ex_last_gate (3 # 1000)
          2 ex_loop = Ok l' ∧
    Main.rewards (Main.storage l') !! 0%nat = Some ((1 - (1 - 0) * (3 # 1000))%Q) ∧
    Main.rewards (Main.storage l') !! 1%nat = Some ((1 - (1 - 1) * (3 # 1000))%Q).
Proof.
  assert (Hrows : rows 2 (Main.storage ex_loop)) by (repeat split).
  split; [exact Hrows|].
  destruct (compute_penalty_stored ex_envs_step ex_get_action_and_value
              ex_last_gate (3 # 1000) 2 ex_loop Hrows) as (l' & Hrun & _).
  exists l'. split; [exact Hrun|].
  change (Z.of_nat 2) with 2 in Hrun. vm_compute in Hrun.
  injection Hrun as <-. split; reflexivity.
Defined.

(** ** main_dqn.py: the corners through an episode *)

Section DqnEpisodeCorners.

Import MainDqn.
Context {G : Type} `{Generator G}.
Hypothesis laws : GeneratorLaws G.
Implicit Types s : TMaze G.

(** From height 7 up the box cells are below the top row. *)
Lemma corner_off_boxes s c : 7 ≤ height s → corner (width s) c ∉ box_locations s.
Proof.
  intros Hh. assert (4 ≤ height s * 2 / 3) by (Z.div_mod_to_equations; lia).
  unfold box_locations, left_box, right_box, up_box, down_box.
  destruct (corner_cases (width s) c) as [[-> | ->] _];
    rewrite !not_elem_of_cons; repeat split;
    try apply not_elem_of_nil; intros [=]; lia.
Qed.

Lemma frame_corners s s' :
  7 ≤ height s → frame (box_locations s) s s' → corners_hold s → corners_hold s'.
Proof.
  intros Hh (Hsame & Hw & _ & _ & _ & _ & Hg & Hl & _) (c & Hc & Hgoal & Hlava & Hcg & Hcl).
  exists c. split; [done|]. cbv zeta in *. rewrite Hw, Hg, Hl.
  split; [done|]. split; [done|].
  pose proof (corner_off_boxes s c Hh) as Hoff1.
  pose proof (corner_off_boxes s (1 - c) Hh) as Hoff2.
  destruct (corner (width s) c) as [gi gj], (corner (width s) (1 - c)) as [li lj].
  cbn [fst snd] in *. by rewrite !Hsame.
Qed.

(** In an environment of height 7 at least, [reset] and every [step] that
    follows leave the green goal in the corner the layout names and the lava
    in the other corner. *)
Theorem episode_goal_and_lava s :
  reachable s → 7 ≤ height s → corners_hold s.
Proof.
  induction 1 as [s seed obs s' Hreset|s action r s' Hreach IH Hstep]; intros Hh.
  - pose proof (reset_Ok_inv laws _ _ _ _ Hreset) as Hsize.
    pose proof Hsize as (Hwo & Hho & Hw5 & Hh3).
    rewrite (reset_closed laws) in Hreset by done. injection Hreset as _ <-.
    pose proof (gen_obs_frame (reset_grid seed s)) as Hframe.
    rewrite gen_obs_closed in Hframe by (by apply reset_grid_wf).
    cbn [snd] in Hframe.
    destruct (reset_grid_fields seed s) as (Hw1 & Hh1 & Hg & Hl & _ & _ & Hgrid).
    cbv zeta in *. set (c := goal_choice (reset_seeded seed s)) in *.
    pose proof Hframe as (_ & _ & Hkh & _).
    rewrite Hkh, Hh1 in Hh.
    apply (frame_corners _ _ ltac:(rewrite Hh1; exact Hh) Hframe).
    pose proof (goal_choice_range laws (reset_seeded seed s)) as Hc. fold c in Hc.
    exists c. split; [done|]. cbv zeta. rewrite Hw1, Hg, Hl, Hgrid.
    split; [done|]. split; [done|].
    set (goal := corner (width s) c). set (lava := corner (width s) (1 - c)).
    destruct (maze_walls_only (width s) (height s)) as (Hmw & Hmh & Hmwf & _).
    assert (Hgin : in_grid (maze (width s) (height s)) goal.1 goal.2)
      by (apply (corner_in_grid (width s) (height s)); [apply maze_walls_only|lia..]).
    assert (Hlin : in_grid (maze (width s) (height s)) lava.1 lava.2)
      by (apply (corner_in_grid (width s) (height s)); [apply maze_walls_only|lia..]).
    assert (Hne : (goal.1, goal.2) ≠ (lava.1, lava.2)).
    { unfold goal, lava, corner. destruct Hc as [-> | ->]; simpl; intros [=]; lia. }
    split.
    + rewrite cell_upd_ne; [by apply cell_upd_eq|by apply in_grid_upd|done].
    + apply cell_upd_eq; [by apply grid_upd_wf|by apply in_grid_upd].
  - pose proof (step_frame s action) as Hframe. rewrite Hstep in Hframe.
    cbn [snd] in Hframe. pose proof Hframe as (_ & _ & Hkh & _).
    rewrite Hkh in Hh. by apply (frame_corners s); [|exact Hframe|apply IH].
Qed.

End DqnEpisodeCorners.

(** ** main_dqn.py: every step of an episode returns *)

Section DqnTotal.

Import MainDqn.
Context {G : Type} `{Generator G}.
Hypothesis laws : GeneratorLaws G.
Implicit Types s : TMaze G.

(** In an episode of an environment of size 9 at least, the cell an action
    moves to is a cell of the grid, so [step] returns on each of the four
    actions, and it leaves an environment of the episode. *)
Theorem step_returns_in_episode s action :
  reachable s → 9 ≤ width s → 5 ≤ height s → 0 < max_steps s →
  0 ≤ action ≤ 3 →
  ∃ p, fwd_pos action s = Some p ∧ in_grid (grid s) p.1 p.2 ∧ env_wf s ∧
    ∃ obs reward terminated truncated s',
      step action s = (Ok (obs, reward, terminated, truncated), s') ∧
      reachable s'.
Proof.
  intros Hreach Hw Hh Hms Ha.
  destruct (reachable_inside laws s Hreach Hw Hh Hms) as [Hin _].
  pose proof (reachable_inv laws s Hreach) as (Hwf & _).
  assert (Hp : ∃ p, fwd_pos action s = Some p).
  { unfold fwd_pos, Actions.left, Actions.right, Actions.forward, Actions.backward.
    destruct (Z.eqb_spec action 0); [by eexists|].
    destruct (Z.eqb_spec action 2); [by eexists|].
    destruct (Z.eqb_spec action 1); [by eexists|].
    destruct (Z.eqb_spec action 3); [by eexists|lia]. }
  destruct Hp as [p Hp]. exists p.
  pose proof (inside_fwd_pos_in_grid action s p Hwf Hin Hp) as Hgrid.
  split; [done|]. split; [done|]. split; [done|].
  eexists _, _, _, _, _. split; [by apply step_closed|].
  eapply reachable_step; [exact Hreach|]. by apply step_closed.
Qed.

End DqnTotal.

Lemma ex_start_reset :
  ∃ obs, MainDqn.reset (Some 1) (constructed 11 242 (default_rng 1)) = (Ok obs, ex_start).
Proof. eexists. vm_compute. reflexivity. Defined.

Lemma ex_start_reachable : reachable ex_start.
Proof. destruct ex_start_reset as [obs Hreset]. by eapply reachable_reset. Defined.

Lemma step_returns_in_episode_witness :
  ∃ obs reward terminated truncated s',
    MainDqn.step 1 ex_start = (Ok (obs, reward, terminated, truncated), s') ∧
    reachable s'.
Proof.
  destruct (step_returns_in_episode Lcg_laws ex_start 1)
    as (p & _ & _ & _ & Hstep);
    [exact ex_start_reachable|vm_compute; discriminate|vm_compute; discriminate
    |reflexivity|lia|].
  exact Hstep.
Defined.

(** After [reset(seed=1)] the agent is at its start, away from the decision
    cell, and the arrow is not the encoding of the side of the goal. *)
Lemma dqn_arrow_iff_decision_cell_witness :
  ∃ obs,
    MainDqn.reset (Some 1) (constructed 11 242 (default_rng 1)) = (Ok obs, ex_start) ∧
    MainDqn.position obs = MainDqn.agent_pos ex_start ∧
    ¬ Forall2 Qeq (MainDqn.arrow obs) (encoding (MainDqn.goal_is_right ex_start)).
Proof.
  destruct ex_start_reset as [obs Hreset]. exists obs. split; [exact Hreset|].
  destruct (dqn_arrow_iff_decision_cell Lcg_laws obs ex_start) as (Hpos & Hiff & _).
  - by eapply observed_reset.
  - split; [exact Hpos|]. intros Harrow. apply Hiff in Harrow.
    vm_compute in Harrow. discriminate.
Defined.

Lemma episode_goal_and_lava_witness : corners_hold ex_start.
Proof.
  apply (episode_goal_and_lava Lcg_laws ex_start ex_start_reachable).
  vm_compute. discriminate.
Defined.

(** On the decision cell of [ex_main], [gen_obs] of [main.py] raises. *)
Lemma main_arrow_decision_raises_witness :
  (Main.gen_obs (Main.set_agent_pos (4, 1) ex_main)).1 = Raise TypeError.
Proof.
  eapply main_arrow_decision_raises; reflexivity.
Defined.

(** ** main_dqn.py: the T of the maze *)

Lemma in_T_in_range w h p :
  3 ≤ w → 3 ≤ h → in_T w h p → 0 ≤ p.1 < w ∧ 0 ≤ p.2 < h.
Proof.
  intros Hw Hh. assert (0 ≤ w / 2 < w) by (Z.div_mod_to_equations; lia).
  unfold in_T. lia.
Qed.

Lemma wall_near_T_in_range w h p :
  3 ≤ w → 3 ≤ h → wall_near_T w h p → 0 ≤ p.1 < w ∧ 0 ≤ p.2 < h.
Proof.
  intros Hw Hh. assert (1 ≤ w / 2 ∧ w / 2 + 1 < w) by (Z.div_mod_to_equations; lia).
  unfold wall_near_T. lia.
Qed.

(** The T is free of walls. *)
Lemma maze_T_free w h p :
  3 ≤ w → 3 ≤ h → w mod 2 = 1 → in_T w h p →
  Grid.cell (maze w h) p.1 p.2 = None.
Proof.
  intros Hw Hh Hodd HT. rewrite maze_cell by done.
  pose proof (half_odd w Hodd) as Hm. destruct p as [i j]. unfold in_T in HT.
  cbn [fst snd] in *.
  replace (existsb (covers i j) (maze_segments w h)) with false; [done|].
  symmetry. unfold maze_segments. set (m := w / 2) in *. simpl.
  repeat match goal with
  | |- context [?a && ?b && ?c] =>
      let E := fresh "E" in
      destruct (a && b && c) eqn:E;
      [exfalso; rewrite !andb_true_iff in E; lia|clear E]
  end. done.
Qed.

(** The cells around the T are walls. *)
Lemma maze_wall_near_T w h p :
  3 ≤ w → 3 ≤ h → w mod 2 = 1 → wall_near_T w h p →
  Grid.cell (maze w h) p.1 p.2 = Some Wall.
Proof.
  intros Hw Hh Hodd HT. rewrite maze_cell by done.
  pose proof (half_odd w Hodd) as Hm. destruct p as [i j].
  unfold wall_near_T in HT. cbn [fst snd] in *.
  replace (existsb (covers i j) (maze_segments w h)) with true; [done|].
  symmetry. apply existsb_exists. set (m := w / 2) in *.
  destruct HT as [H1 | [H2 | [H3 | [H4 | H5]]]].
  - exists (true, 0, 0, w). split; [unfold maze_segments; simpl; tauto|].
    simpl. rewrite !andb_true_iff. lia.
  - destruct H2 as [Hj [Hi | Hi]].
    + exists (false, 0, 0, h). split; [unfold maze_segments; simpl; tauto|].
      simpl. rewrite !andb_true_iff. lia.
    + exists (false, 0 + w - 1, 0, h). split; [unfold maze_segments; simpl; tauto|].
      simpl. rewrite !andb_true_iff. lia.
  - destruct (Z_lt_le_dec i m).
    + exists (true, 0, 2, m). split; [unfold maze_segments; simpl; tauto|].
      simpl. rewrite !andb_true_iff. lia.
    + exists (true, m + 1, 2, m). split; [unfold maze_segments; simpl; tauto|].
      simpl. rewrite !andb_true_iff. lia.
  - destruct H4 as [[Hi | Hi] Hj].
    + exists (false, m - 1, 2, h - 3). split; [unfold maze_segments; simpl; tauto|].
      simpl. rewrite !andb_true_iff. lia.
    + exists (false, m + 1, 2, h - 3). split; [unfold maze_segments; simpl; tauto|].
      simpl. rewrite !andb_true_iff. lia.
  - exists (true, 0, 0 + h - 1, w). split; [unfold maze_segments; simpl; tauto|].
    simpl. rewrite !andb_true_iff. lia.
Qed.

(** A cell next to a cell of the T is of the T or one of the walls around
    it. *)
Lemma T_neighbour w h a p :
  3 ≤ w → 3 ≤ h → w mod 2 = 1 → in_T w h a →
  p = (a.1 - 1, a.2) ∨ p = (a.1 + 1, a.2) ∨ p = (a.1, a.2 - 1) ∨ p = (a.1, a.2 + 1) →
  in_T w h p ∨ wall_near_T w h p.
Proof.
  intros Hw Hh Hodd HT Hp. pose proof (half_odd w Hodd) as Hm.
  destruct a as [i j]. unfold in_T, wall_near_T in *. cbn [fst snd] in *.
  set (m := w / 2) in *.
  destruct Hp as [-> | [-> | [-> | ->]]]; cbn [fst snd];
    destruct HT as [[Hj Hi] | [Hi Hj]]; lia.
Qed.

Lemma T_not_wall w h p :
  3 ≤ w → 3 ≤ h → w mod 2 = 1 → in_T w h p → ¬ wall_near_T w h p.
Proof.
  intros Hw Hh Hodd%half_odd HT HW. unfold in_T, wall_near_T in *. lia.
Qed.

Lemma layout_walls_only w h c :
  3 ≤ w → 3 ≤ h →
  Grid.width (layout w h c) = w ∧ Grid.height (layout w h c) = h ∧
  grid_wf (layout w h c).
Proof.
  intros Hw Hh. destruct (maze_walls_only w h) as (Hmw & Hmh & Hmwf & _).
  unfold layout. repeat split; [done|done|]. by do 2 apply grid_upd_wf.
Qed.

(** What the grid [_gen_grid] builds holds on a cell: the lava and the goal
    in their corners, the maze elsewhere. *)
Lemma layout_cell w h c i j :
  3 ≤ w → 3 ≤ h → c = 0 ∨ c = 1 →
  Grid.cell (layout w h c) i j =
    if decide ((i, j) = corner w (1 - c)) then Some Lava
    else if decide ((i, j) = corner w c) then Some (Goal green)
    else Grid.cell (maze w h) i j.
Proof.
  intros Hw Hh Hc. destruct (maze_walls_only w h) as (Hmw & Hmh & Hmwf & _).
  pose proof (corner_in_grid w h (maze w h) c (maze_walls_only w h) Hw Hh) as Hg.
  pose proof (corner_in_grid w h (maze w h) (1 - c) (maze_walls_only w h) Hw Hh) as Hl.
  unfold layout.
  destruct (corner w c) as [gi gj] eqn:Eg, (corner w (1 - c)) as [li lj] eqn:El.
  cbn [fst snd] in *.
  destruct (decide ((i, j) = (li, lj))) as [[= -> ->]|Hnl].
  - apply cell_upd_eq; [by apply grid_upd_wf|by apply in_grid_upd].
  - rewrite cell_upd_ne; [|by apply in_grid_upd|done].
    destruct (decide ((i, j) = (gi, gj))) as [[= -> ->]|Hng].
    + by apply cell_upd_eq.
    + by rewrite cell_upd_ne.
Qed.

Lemma corner_in_T w h c : 3 ≤ w → 3 ≤ h → in_T w h (corner w c).
Proof.
  intros Hw Hh. destruct (corner_cases w c) as [[-> | ->] _]; unfold in_T; simpl; lia.
Qed.

(** Around the T the grid [_gen_grid] builds has walls. *)
Lemma layout_wall_near_T w h c p :
  3 ≤ w → 3 ≤ h → w mod 2 = 1 → c = 0 ∨ c = 1 → wall_near_T w h p →
  Grid.cell (layout w h c) p.1 p.2 = Some Wall.
Proof.
  intros Hw Hh Hodd Hc HW. rewrite layout_cell by done.
  destruct p as [i j]. cbn [fst snd].
  destruct (decide _) as [Heq|_].
  { exfalso. apply (T_not_wall w h (i, j)); [done..| |done].
    rewrite Heq. by apply corner_in_T. }
  destruct (decide _) as [Heq|_].
  { exfalso. apply (T_not_wall w h (i, j)); [done..| |done].
    rewrite Heq. by apply corner_in_T. }
  by apply (maze_wall_near_T w h (i, j)).
Qed.

(** On the T it has the lava and the goal in the corners and nothing
    elsewhere. *)
Lemma layout_T w h c p :
  3 ≤ w → 3 ≤ h → w mod 2 = 1 → c = 0 ∨ c = 1 → in_T w h p →
  Grid.cell (layout w h c) p.1 p.2 =
    if decide (p = corner w (1 - c)) then Some Lava
    else if decide (p = corner w c) then Some (Goal green)
    else None.
Proof.
  intros Hw Hh Hodd Hc HT. rewrite layout_cell by done.
  destruct p as [i j]. cbn [fst snd].
  repeat (destruct (decide _); [done|]). by apply (maze_T_free w h (i, j)).
Qed.

Section DqnEpisode.

Import MainDqn.
Context {G : Type} `{Generator G}.
Hypothesis laws : GeneratorLaws G.
Implicit Types s : TMaze G.

(** From size 11 by 9 up the box cells are neither of the T nor of the walls
    around it. *)
Lemma boxes_off_T s p :
  11 ≤ width s → 9 ≤ height s → p ∈ box_locations s →
  ¬ in_T (width s) (height s) p ∧ ¬ wall_near_T (width s) (height s) p.
Proof.
  intros Hw Hh.
  assert (width s / 2 + 3 ≤ width s * 3 / 4 ∧ width s * 3 / 4 + 1 < width s)
    by (Z.div_mod_to_equations; lia).
  assert (5 ≤ height s * 2 / 3 ∧ height s * 2 / 3 ≤ height s - 2)
    by (Z.div_mod_to_equations; lia).
  unfold box_locations, left_box, right_box, up_box, down_box.
  rewrite !elem_of_cons, elem_of_nil.
  intros [-> | [-> | [-> | [-> | []]]]]; unfold in_T, wall_near_T; cbn [fst snd]; lia.
Qed.

Lemma reset_grid_layout seed s :
  grid (reset_grid seed s) =
    layout (width s) (height s) (goal_choice (reset_seeded seed s)).
Proof. by destruct (reset_grid_fields seed s) as (_ & _ & _ & _ & _ & _ & ->). Qed.

(** In every environment of an episode the grid is, away from the four box
    cells, the one [_gen_grid] built at the reset. *)
Lemma reachable_layout s : reachable s → has_layout s.
Proof.
  induction 1 as [s seed obs s' Hreset|s action r s' Hreach IH Hstep].
  - pose proof (reset_Ok_inv laws _ _ _ _ Hreset) as Hsize.
    pose proof Hsize as (Hwo & Hho & Hw5 & Hh3).
    rewrite (reset_closed laws) in Hreset by done. injection Hreset as _ <-.
    pose proof (gen_obs_frame (reset_grid seed s)) as Hframe.
    rewrite gen_obs_closed in Hframe by (by apply reset_grid_wf).
    cbn [snd] in Hframe.
    pose proof (frame_box_locations _ _ _ Hframe) as HB.
    destruct (reset_grid_fields seed s) as (Hw1 & Hh1 & Hg & Hl & _ & _ & _).
    cbv zeta in *. set (c := goal_choice (reset_seeded seed s)) in *.
    destruct Hframe as (Hsame & Hkw & Hkh & _ & _ & _ & Hkg & Hkl & _).
    exists c. split; [apply (goal_choice_range laws)|].
    rewrite Hkw, Hkh, Hkg, Hkl, Hw1, Hh1, HB. split; [done|]. split; [done|].
    intros i j Hij. rewrite (Hsame i j Hij). by rewrite reset_grid_layout.
  - pose proof (step_frame s action) as Hframe. rewrite Hstep in Hframe.
    cbn [snd] in Hframe.
    pose proof (frame_box_locations _ _ _ Hframe) as HB.
    destruct Hframe as (Hsame & Hkw & Hkh & _ & _ & _ & Hkg & Hkl & _).
    destruct IH as (c & Hc & Hg & Hl & Hlay).
    exists c. split; [done|]. rewrite Hkw, Hkh, Hkg, Hkl, HB.
    split; [done|]. split; [done|].
    intros i j Hij. rewrite (Hsame i j Hij). by apply Hlay.
Qed.

(** The cells of the T and around it in an environment that has the layout,
    from size 11 by 9 up. *)
Lemma has_layout_cells s p :
  has_layout s → size_ok s → 11 ≤ width s → 9 ≤ height s →
  (wall_near_T (width s) (height s) p → Grid.cell (grid s) p.1 p.2 = Some Wall) ∧
  (in_T (width s) (height s) p →
     Grid.cell (grid s) p.1 p.2 =
       if decide (Some p = lava_position s) then Some Lava
       else if decide (Some p = goal_position s) then Some (Goal green)
       else None).
Proof.
  intros (c & Hc & Hg & Hl & Hlay) (Hwo & Hho & _ & _) Hw Hh.
  destruct p as [i j]. cbn [fst snd]. split.
  - intros HW. rewrite Hlay.
    + by apply (layout_wall_near_T _ _ c (i, j)); [lia|lia|..].
    + intros Hb. by apply (boxes_off_T s (i, j)) in Hb as [_ Hb].
  - intros HT. rewrite Hlay.
    + rewrite (layout_T _ _ c (i, j)) by (done || lia). rewrite Hg, Hl.
      repeat destruct (decide _); congruence.
    + intros Hb. by apply (boxes_off_T s (i, j)) in Hb as [Hb _].
Qed.

Lemma has_layout_corners s p :
  has_layout s → 5 ≤ width s → 3 ≤ height s →
  goal_position s ≠ lava_position s ∧
  (Some p = goal_position s ∨ Some p = lava_position s →
     in_T (width s) (height s) p).
Proof.
  intros (c & Hc & Hg & Hl & _) Hw Hh. rewrite Hg, Hl. split.
  - unfold corner. destruct Hc as [-> | ->]; simpl; intros [=]; lia.
  - intros [[= ->] | [= ->]]; by apply corner_in_T; lia.
Qed.

Lemma fwd_pos_neighbour action s p :
  fwd_pos action s = Some p →
  p = ((agent_pos s).1 - 1, (agent_pos s).2) ∨
  p = ((agent_pos s).1 + 1, (agent_pos s).2) ∨
  p = ((agent_pos s).1, (agent_pos s).2 - 1) ∨
  p = ((agent_pos s).1, (agent_pos s).2 + 1).
Proof. unfold fwd_pos. repeat case_match; intros [= <-]; tauto. Qed.

Lemma step_Ok_fwd_pos s action r s' :
  step action s = (Ok r, s') → ∃ p, fwd_pos action s = Some p.
Proof.
  intros Hstep. destruct (fwd_pos action s) as [p|] eqn:Hp; [by exists p|].
  apply fwd_pos_None in Hp. by rewrite (step_no_action s action Hp) in Hstep.
Qed.

Lemma env_wf_in_grid s p :
  env_wf s → 0 ≤ p.1 < width s ∧ 0 ≤ p.2 < height s → in_grid (grid s) p.1 p.2.
Proof. intros (_ & Hgw & Hgh & _) Hp. unfold in_grid. by rewrite Hgw, Hgh. Qed.

(** The agent of an episode never leaves the T, from size 11 by 9 up, and
    keeps the direction [_gen_grid] gave it. *)
Lemma reachable_in_T s :
  reachable s → 11 ≤ width s → 9 ≤ height s → 0 < max_steps s →
  in_T (width s) (height s) (agent_pos s) ∧ agent_dir s = 3.
Proof.
  induction 1 as [s seed obs s' Hreset|s action r s' Hreach IH Hstep];
    intros Hw Hh Hms.
  - pose proof (reset_Ok_inv laws _ _ _ _ Hreset) as Hsize.
    rewrite (reset_closed laws) in Hreset by done. injection Hreset as _ <-.
    destruct (reset_grid_fields seed s) as (Hw1 & Hh1 & _ & _ & _ & Hpos & _).
    change (width (gen_obs_env (reset_grid seed s))) with (width (reset_grid seed s)) in *.
    change (height (gen_obs_env (reset_grid seed s))) with (height (reset_grid seed s)) in *.
    change (agent_pos (gen_obs_env (reset_grid seed s)))
      with (agent_pos (reset_grid seed s)).
    rewrite Hw1, Hh1 in *. rewrite Hpos. split; [|by destruct seed].
    unfold in_T. cbn [fst snd]. lia.
  - pose proof (step_frame s action) as Hframe. rewrite Hstep in Hframe.
    cbn [snd] in Hframe. destruct Hframe as (_ & Hkw & Hkh & Hkm & _).
    rewrite Hkw, Hkh in *. rewrite Hkm in Hms.
    destruct (IH Hw Hh Hms) as [HT Hdir].
    pose proof (reachable_inv laws s Hreach) as (Hwf & Hsize & _).
    pose proof Hsize as (Hwo & Hho & _ & _).
    destruct (step_Ok_fwd_pos _ _ _ _ Hstep) as [p Hp].
    pose proof (T_neighbour (width s) (height s) (agent_pos s) p ltac:(lia) ltac:(lia) Hwo HT
                  (fwd_pos_neighbour _ _ _ Hp)) as Hnext.
    assert (Hin : in_grid (grid s) p.1 p.2).
    { apply env_wf_in_grid; [done|].
      destruct Hnext as [Hn | Hn];
        [apply in_T_in_range in Hn|apply wall_near_T_in_range in Hn]; lia. }
    rewrite (step_closed s action p Hwf Hms Hp Hin) in Hstep.
    injection Hstep as _ <-.
    change (agent_pos (gen_obs_env (moved p s))) with (agent_pos (moved p s)).
    change (agent_dir (gen_obs_env (moved p s))) with (agent_dir (moved p s)).
    unfold moved. destruct Hnext as [Hn | Hn].
    + by destruct (traversable _).
    + destruct (has_layout_cells s p (reachable_layout s Hreach) Hsize Hw Hh)
        as [Hwall _].
      by rewrite (Hwall Hn).
Qed.

(** In an episode of a maze of 11 by 9 cells at least, the agent is always
    on a cell of the T: never on a wall, never on one of the four box
    cells, and always in the direction 3. *)
Theorem agent_stays_in_T s :
  reachable s → 11 ≤ width s → 9 ≤ height s → 0 < max_steps s →
  in_T (width s) (height s) (agent_pos s) ∧
  agent_dir s = 3 ∧
  (agent_pos s ∉ box_locations s) ∧
  traversable (Grid.cell (grid s) (agent_pos s).1 (agent_pos s).2) = true.
Proof.
  intros Hreach Hw Hh Hms.
  destruct (reachable_in_T s Hreach Hw Hh Hms) as [HT Hdir].
  pose proof (reachable_inv laws s Hreach) as (_ & Hsize & _).
  split; [done|]. split; [done|]. split.
  - intros Hb. by apply (boxes_off_T s _ Hw Hh) in Hb as [Hb _].
  - destruct (has_layout_cells s (agent_pos s) (reachable_layout s Hreach)
                Hsize Hw Hh) as [_ Hcell].
    rewrite (Hcell HT). by repeat destruct (decide _).
Qed.

(** In an episode of a maze of 11 by 9 cells at least, a step ends the
    episode exactly when it moves the agent onto the corner of the goal or of
    the lava; it pays the goal reward on the corner of the goal and 0 on
    every other cell: the grey boxes neither end an episode nor pay. *)
Theorem episode_ends_at_corners s action obs r terminated truncated s' :
  reachable s → 11 ≤ width s → 9 ≤ height s → 0 < max_steps s →
  step action s = (Ok (obs, r, terminated, truncated), s') →
  ∃ p, fwd_pos action s = Some p ∧
    (terminated = true ↔ Some p = goal_position s ∨ Some p = lava_position s) ∧
    (terminated = true → agent_pos s' = p) ∧
    (Some p = goal_position s → r = shaped_reward s') ∧
    (Some p ≠ goal_position s → r = 0%Q).
Proof.
  intros Hreach Hw Hh Hms Hstep.
  destruct (reachable_in_T s Hreach Hw Hh Hms) as [HT _].
  pose proof (reachable_inv laws s Hreach) as (Hwf & Hsize & _).
  pose proof Hsize as (Hwo & Hho & _ & _).
  pose proof (reachable_layout s Hreach) as Hlay.
  destruct (has_layout_corners s (agent_pos s) Hlay ltac:(lia) ltac:(lia)) as [Hne _].
  destruct (step_Ok_fwd_pos _ _ _ _ Hstep) as [p Hp]. exists p. split; [done|].
  pose proof (T_neighbour (width s) (height s) (agent_pos s) p ltac:(lia) ltac:(lia) Hwo HT
                (fwd_pos_neighbour _ _ _ Hp)) as Hnext.
  assert (Hin : in_grid (grid s) p.1 p.2).
  { apply env_wf_in_grid; [done|].
    destruct Hnext as [Hn | Hn];
      [apply in_T_in_range in Hn|apply wall_near_T_in_range in Hn]; lia. }
  rewrite (step_closed s action p Hwf Hms Hp Hin) in Hstep.
  injection Hstep as _ <- <- _ <-.
  change (agent_pos (gen_obs_env (moved p s))) with (agent_pos (moved p s)).
  change (shaped_reward (gen_obs_env (moved p s))) with (shaped_reward (moved p s)).
  destruct (has_layout_cells s p Hlay Hsize Hw Hh) as [Hwall Hcell].
  destruct Hnext as [Hn | Hn].
  - unfold moved. rewrite (Hcell Hn).
    destruct (decide (Some p = lava_position s)) as [Hl|Hl];
      [|destruct (decide (Some p = goal_position s)) as [Hg|Hg]]; simpl.
    + split; [tauto|]. split; [done|]. split; [|done]. intros Hg. congruence.
    + split; [tauto|]. split; [done|]. split; [done|]. congruence.
    + split; [|done]. split; [done|tauto].
  - unfold moved. rewrite (Hwall Hn). simpl.
    assert (Hoff : ¬ (Some p = goal_position s ∨ Some p = lava_position s)).
    { intros Hc. apply (has_layout_corners s p Hlay) in Hc; [|lia..].
      by apply (T_not_wall (width s) (height s) p); [lia|lia|..]. }
    split; [split; [done|tauto]|]. split; [done|]. split; [tauto|done].
Qed.

End DqnEpisode.

(** ** main_dqn.py: the step counter and the truncation *)

Section DqnCount.

Import MainDqn.
Context {G : Type} `{Generator G}.
Hypothesis laws : GeneratorLaws G.
Implicit Types s : TMaze G.

#[global] Instance counted_preorder : PreOrder (counted (G:=G)).
Proof.
  split.
  - intros s. by repeat split.
  - intros s1 s2 s3 (A1 & A2 & A3) (B1 & B2 & B3). unfold counted.
    repeat split; congruence.
Qed.

Lemma on_grid_counted (f : Grid.t → result Grid.t) : preserves (counted (G:=G)) (on_grid f).
Proof. intros s. unfold on_grid. by destruct (f (grid s)). Qed.

Lemma draw_counted {A} (f : G → A * G) : preserves (counted (G:=G)) (draw f).
Proof. intros s. rewrite draw_eq. by repeat split. Qed.

Lemma gen_obs_counted : preserves (counted (G:=G)) gen_obs.
Proof.
  assert (Hpre : PreOrder (counted (G:=G))) by apply _.
  unfold gen_obs.
  apply (preserves_bind (counted (G:=G))); [apply (preserves_get (counted (G:=G)))|]. intros s.
  apply (preserves_bind (counted (G:=G))); [|].
  { apply (preserves_for_each (counted (G:=G))). intros b _. apply on_grid_counted. }
  intros _.
  match goal with |- context [let '(_, _) := ?x in _] => destruct x as [w h] end.
  apply (preserves_bind (counted (G:=G))); [|].
  { destruct (_ <? _).
    - apply on_grid_counted.
    - apply (preserves_for_each (counted (G:=G))). intros b _.
      apply (preserves_bind (counted (G:=G))); [apply draw_counted|].
      intros r. destruct (Qltb r (1 # 2)).
      + apply on_grid_counted.
      + apply (preserves_ret (counted (G:=G))). }
  intros _. apply (preserves_bind (counted (G:=G))); [apply (preserves_gets (counted (G:=G)))|].
  intros image. apply (preserves_bind (counted (G:=G))); [apply draw_counted|].
  intros a. apply (preserves_bind (counted (G:=G))); [apply (preserves_get (counted (G:=G)))|].
  intros s'. apply (preserves_ret (counted (G:=G))).
Qed.

Lemma move_counted p : preserves (counted (G:=G)) (move p).
Proof.
  assert (Hpre : PreOrder (counted (G:=G))) by apply _.
  unfold move.
  apply (preserves_bind (counted (G:=G))); [apply (preserves_get (counted (G:=G)))|]. intros s.
  apply (preserves_bind (counted (G:=G))); [apply (preserves_lift (counted (G:=G)))|]. intros c.
  apply (preserves_bind (counted (G:=G))); [|].
  { destruct c as [o|]; [destruct (can_overlap o)|];
      first [by intros s' | apply (preserves_ret (counted (G:=G)))]. }
  intros _. apply (preserves_bind (counted (G:=G))); [|].
  { destruct c as [o|]; [destruct (String.eqb _ _)|];
      try (apply (preserves_ret (counted (G:=G)))).
    apply (preserves_bind (counted (G:=G))); [|intros r; apply (preserves_ret (counted (G:=G)))].
    unfold _reward.
    apply (preserves_bind (counted (G:=G))); [apply (preserves_get (counted (G:=G)))|]. intros s'.
    destruct (_ =? 0); [apply (preserves_raise (counted (G:=G)))|apply (preserves_ret (counted (G:=G)))]. }
  intros [r t]. apply (preserves_ret (counted (G:=G))).
Qed.

(** The movement part of [step]. *)
Lemma step_branch_counted action s :
  preserves (counted (G:=G))
    (if action =? Actions.left then move ((agent_pos s).1 - 1, (agent_pos s).2)
     else if action =? Actions.right then move ((agent_pos s).1 + 1, (agent_pos s).2)
     else if action =? Actions.forward then move ((agent_pos s).1, (agent_pos s).2 - 1)
     else if action =? Actions.backward then move ((agent_pos s).1, (agent_pos s).2 + 1)
     else (done ← lift Actions.done;
           if action =? done then mret (0%Q, false)
           else raise (ValueError "Unknown action"))).
Proof.
  assert (Hpre : PreOrder (counted (G:=G))) by apply _.
  repeat (destruct (_ =? _); [apply move_counted|]).
  apply (preserves_bind (counted (G:=G))); [apply (preserves_lift (counted (G:=G)))|]. intros d.
  destruct (_ =? _); [apply preserves_ret|apply preserves_raise]; apply _.
Qed.

(** Every call of [step] counts one step, whatever the action and whether
    it returns or raises, and leaves the budget and the direction. *)
Lemma step_counted s a :
  counted (set_step_count (step_count s + 1) s) (step a s).2.
Proof.
  assert (Hpre : PreOrder (counted (G:=G))) by apply _.
  unfold step.
  erewrite bind_Ok by reflexivity. erewrite bind_Ok by reflexivity.
  set (s1 := set_step_count (step_count s + 1) s).
  pose proof (step_branch_counted a s1 s1) as Hm.
  unfold mbind at 1, method_bind at 1.
  match goal with
  | |- context [match ?x with _ => _ end] => destruct x as [[[r t]|e] s2]
  end; cbn [snd] in Hm; [|exact Hm].
  etrans; [exact Hm|]. cbv iota beta. erewrite bind_Ok by reflexivity.
  pose proof (gen_obs_counted s2) as Hobs.
  unfold mbind, method_bind.
  destruct (gen_obs s2) as [[obs|e] s3]; exact Hobs.
Qed.

Lemma step_counts s a :
  step_count (step a s).2 = step_count s + 1 ∧
  max_steps (step a s).2 = max_steps s ∧ agent_dir (step a s).2 = agent_dir s.
Proof. exact (step_counted s a). Qed.

(** The flag [truncated] of a call of [step] that returns. *)
Lemma step_Ok_truncated s a obs r terminated truncated s' :
  step a s = (Ok (obs, r, terminated, truncated), s') →
  truncated = (max_steps s <=? step_count s + 1).
Proof.
  unfold step. intros Hstep.
  erewrite bind_Ok in Hstep by reflexivity.
  erewrite bind_Ok in Hstep by reflexivity.
  set (s1 := set_step_count (step_count s + 1) s) in *.
  apply bind_Ok_inv in Hstep as ([r' t'] & s2 & Hm & Hstep).
  pose proof (step_branch_counted a s1 s1) as Hc. rewrite Hm in Hc.
  cbn [snd] in Hc. destruct Hc as (Hsc & Hms & _).
  erewrite bind_Ok in Hstep by reflexivity.
  apply bind_Ok_inv in Hstep as (obs' & s3 & _ & Hret).
  injection Hret as _ _ _ <- _. by rewrite Hsc, Hms.
Qed.

Lemma run_cons a actions s : run (a :: actions) s = run actions (step a s).2.
Proof. reflexivity. Qed.

Lemma run_counts actions s :
  step_count (run actions s) = step_count s + Z.of_nat (length actions) ∧
  max_steps (run actions s) = max_steps s ∧ agent_dir (run actions s) = agent_dir s.
Proof.
  revert s. induction actions as [|a actions IH]; intros s.
  - simpl. repeat split. lia.
  - rewrite run_cons. destruct (IH (step a s).2) as (-> & -> & ->).
    destruct (step_counts s a) as (-> & -> & ->). simpl length. repeat split. lia.
Qed.

Lemma reset_Ok_counts seed s obs s' :
  reset seed s = (Ok obs, s') →
  step_count s' = 0 ∧ max_steps s' = max_steps s ∧ agent_dir s' = 3.
Proof.
  intros Hreset. pose proof (reset_Ok_inv laws _ _ _ _ Hreset) as Hsize.
  rewrite (reset_closed laws) in Hreset by done. injection Hreset as _ <-.
  by destruct seed.
Qed.

(** After a reset the calls of [step] are counted one by one, those that
    raise as well, and the call number [n] that returns has
    [truncated = True] exactly when [n] has reached [max_steps]. *)
Theorem truncated_from_max_steps seed s0 obs0 s1 actions a obs r terminated truncated s' :
  reset seed s0 = (Ok obs0, s1) →
  step a (run actions s1) = (Ok (obs, r, terminated, truncated), s') →
  step_count s' = Z.of_nat (length actions) + 1 ∧
  (truncated = true ↔ max_steps s0 ≤ Z.of_nat (length actions) + 1).
Proof.
  intros Hreset Hstep.
  destruct (reset_Ok_counts _ _ _ _ Hreset) as (Hsc & Hms & _).
  destruct (run_counts actions s1) as (Hrc & Hrm & _).
  pose proof (step_counts (run actions s1) a) as (Hc & _). rewrite Hstep in Hc.
  cbn [snd] in Hc. split; [lia|].
  rewrite (step_Ok_truncated _ _ _ _ _ _ _ Hstep), Hrc, Hrm, Hsc, Hms.
  rewrite Z.leb_le. lia.
Qed.

End DqnCount.

(** ** main_dqn.py: rewards and observations of an episode *)

Section DqnEpisodeResults.

Import MainDqn.
Context {G : Type} `{Generator G}.
Hypothesis laws : GeneratorLaws G.
Implicit Types s : TMaze G.

(** In an episode the step counter is the number of steps since the reset
    and the direction is the one [_gen_grid] set. *)
Lemma reachable_counts s : reachable s → 0 ≤ step_count s ∧ agent_dir s = 3.
Proof.
  induction 1 as [s seed obs s' Hreset|s action r s' Hreach IH Hstep].
  - destruct (reset_Ok_counts laws _ _ _ _ Hreset) as (-> & _ & ->). done.
  - destruct (step_counts s action) as (Hc & _ & Hd). rewrite Hstep in Hc, Hd.
    cbn [snd] in Hc, Hd. lia.
Qed.

Lemma observed_reachable obs s' : observed obs s' → reachable s'.
Proof.
  destruct 1 as [s seed obs s' Hreset|s action obs r te tr s' Hreach Hstep].
  - by eapply reachable_reset.
  - by eapply reachable_step.
Qed.

(** A step on one of the four actions returns in an episode of size 9 by 5
    at least, in closed form. *)
Lemma reachable_step_closed s action :
  reachable s → 9 ≤ width s → 5 ≤ height s → 0 < max_steps s → 0 ≤ action ≤ 3 →
  ∃ p, fwd_pos action s = Some p ∧ in_grid (grid s) p.1 p.2 ∧ env_wf s ∧
    step action s =
      (Ok (gen_obs_obs (moved p s),
           if is_type "goal" (Grid.cell (grid s) p.1 p.2)
           then shaped_reward (moved p s) else 0%Q,
           is_type "goal" (Grid.cell (grid s) p.1 p.2)
           || is_type "lava" (Grid.cell (grid s) p.1 p.2),
           max_steps s <=? step_count s + 1),
       gen_obs_env (moved p s)).
Proof.
  intros Hreach Hw Hh Hms Ha.
  destruct (reachable_inside laws s Hreach Hw Hh Hms) as [Hin _].
  pose proof (reachable_inv laws s Hreach) as (Hwf & _).
  destruct (fwd_pos action s) as [p|] eqn:Hp; [|by apply fwd_pos_None in Hp].
  exists p. pose proof (inside_fwd_pos_in_grid action s p Hwf Hin Hp) as Hgrid.
  split; [done|]. split; [done|]. split; [done|]. by apply step_closed.
Qed.




(** Every observation of an episode of a square maze of size 9 at least is
    in the spaces [__init__] declares for the direction, the position and
    the arrow. *)
Theorem observation_in_space obs s' :
  observed obs s' → 9 ≤ width s' → height s' = width s' → 0 < max_steps s' →
  in_observation_space (width s') obs.
Proof.
  intros Hobs Hw Hsq Hms.
  pose proof (observed_reachable _ _ Hobs) as Hreach.
  destruct (reachable_inside laws s' Hreach Hw ltac:(lia) Hms) as [Hin _].
  destruct (reachable_counts s' Hreach) as [_ Hdir].
  assert (Hgen : ∃ s2, episode_inv s2 ∧ obs = gen_obs_obs s2 ∧ s' = gen_obs_env s2).
  { destruct Hobs as [s seed obs s' Hreset|s action obs r te tr s' Hr Hstep].
    - pose proof (reset_Ok_inv laws _ _ _ _ Hreset) as Hsize.
      rewrite (reset_closed laws) in Hreset by done. injection Hreset as <- <-.
      exists (reset_grid seed s). split; [by apply (reset_grid_inv laws)|done].
    - destruct (step_Ok_obs _ _ _ _ _ _ _ Hstep) as (s2 & Hk & Hgen).
      pose proof (kept_episode_inv _ _ Hk (reachable_inv laws s Hr)) as Hinv.
      exists s2. split; [done|]. pose proof Hinv as (Hwf & _).
      rewrite gen_obs_closed in Hgen by done. by injection Hgen as <- <-. }
  destruct Hgen as (s2 & Hinv & -> & ->).
  unfold in_observation_space, inside in *.
  change (direction (gen_obs_obs s2)) with (agent_dir s2).
  change (position (gen_obs_obs s2)) with (agent_pos s2).
  change (agent_dir (gen_obs_env s2)) with (agent_dir s2) in Hdir.
  change (agent_pos (gen_obs_env s2)) with (agent_pos s2) in Hin.
  change (width (gen_obs_env s2)) with (width s2) in *.
  change (height (gen_obs_env s2)) with (height s2) in *.
  split; [lia|]. split; [lia|]. split; [lia|].
  unfold gen_obs_obs; cbn [arrow].
  destruct Hinv as (_ & _ & Harrow & _).
  destruct (at_decision_cell s2).
  - rewrite Harrow. unfold encoding.
    destruct (goal_is_right s2); (split; [done|]); repeat constructor; lra.
  - split; [apply noise_length; exact laws|].
    eapply Forall_impl; [apply (noise_range laws)|]. simpl. intros x Hx. lra.
Qed.

Lemma run_reachable actions s :
  reachable s → 9 ≤ width s → 5 ≤ height s → 0 < max_steps s →
  Forall (λ a, 0 ≤ a ≤ 3) actions → reachable (run actions s).
Proof.
  revert s. induction actions as [|a actions IH]; intros s Hreach Hw Hh Hms Hall;
    [done|].
  apply Forall_cons in Hall as [Ha Hall]. rewrite run_cons.
  destruct (reachable_step_closed s a Hreach Hw Hh Hms Ha) as (p & _ & _ & _ & Hstep).
  destruct (step_frame s a) as (_ & Hkw & Hkh & Hkm & _).
  apply IH; [|lia..|done].
  eapply reachable_step; [exact Hreach|]. rewrite Hstep. reflexivity.
Qed.

End DqnEpisodeResults.

Lemma ex_short_start_reset :
  ∃ obs,
    MainDqn.reset (Some 1) (constructed 11 12 (default_rng 1)) = (Ok obs, ex_short_start).
Proof. eexists. vm_compute. reflexivity. Qed.

Lemma ex_last_step_run :
  run [1; 1; 1; 1; 1; 1; 1; 1; 0; 0; 0] ex_short_start = ex_last_step.
Proof. vm_compute. reflexivity. Qed.

Lemma ex_last_step_reachable : reachable ex_last_step.
Proof.
  destruct ex_short_start_reset as (obs & Hreset).
  rewrite <- ex_last_step_run.
  apply (run_reachable Lcg_laws).
  - eapply reachable_reset. exact Hreset.
  - vm_compute. discriminate.
  - vm_compute. discriminate.
  - reflexivity.
  - repeat constructor; lia.
Qed.

Lemma ex_last_step_goal :
  ∃ obs r s', MainDqn.step 0 ex_last_step = (Ok (obs, r, true, true), s').
Proof. eexists _, _, _. vm_compute. reflexivity. Qed.

Lemma agent_stays_in_T_witness :
  in_T 11 11 (MainDqn.agent_pos ex_last_step) ∧ MainDqn.agent_dir ex_last_step = 3.
Proof.
  destruct (agent_stays_in_T Lcg_laws ex_last_step) as (HT & Hdir & _).
  - exact ex_last_step_reachable.
  - vm_compute. discriminate.
  - vm_compute. discriminate.
  - reflexivity.
  - split; [exact HT|exact Hdir].
Defined.

Lemma episode_ends_at_corners_witness :
  ∃ p, fwd_pos 0 ex_last_step = Some p ∧
    (Some p = MainDqn.goal_position ex_last_step ∨
     Some p = MainDqn.lava_position ex_last_step).
Proof.
  destruct ex_last_step_goal as (obs & r & s' & Hstep).
  destruct (episode_ends_at_corners Lcg_laws ex_last_step 0 obs r true true s')
    as (p & Hp & Hiff & _).
  - exact ex_last_step_reachable.
  - vm_compute. discriminate.
  - vm_compute. discriminate.
  - reflexivity.
  - exact Hstep.
  - exists p. split; [exact Hp|]. by apply Hiff.
Defined.

Lemma truncated_from_max_steps_witness :
  ∃ obs r s',
    MainDqn.step 0 ex_last_step = (Ok (obs, r, true, true), s') ∧
    MainDqn.step_count s' = 12.
Proof.
  destruct ex_last_step_goal as (obs & r & s' & Hstep).
  destruct ex_short_start_reset as (obs0 & Hreset).
  exists obs, r, s'. split; [exact Hstep|].
  rewrite <- ex_last_step_run in Hstep.
  destruct (truncated_from_max_steps Lcg_laws _ _ _ _ _ _ _ _ _ _ _ Hreset Hstep)
    as [Hsc _].
  exact Hsc.
Defined.


Lemma observation_in_space_witness :
  ∃ obs, MainDqn.reset (Some 1) (constructed 11 242 (default_rng 1)) = (Ok obs, ex_start) ∧
    in_observation_space 11 obs.
Proof.
  destruct ex_start_reset as [obs Hreset]. exists obs. split; [exact Hreset|].
  apply (observation_in_space Lcg_laws obs ex_start).
  - by eapply observed_reset.
  - vm_compute. discriminate.
  - reflexivity.
  - reflexivity.
Defined.

(** ** main_dqn.py: the way to the goal *)

Section DqnPath.

Import MainDqn.
Context {G : Type} `{Generator G}.
Hypothesis laws : GeneratorLaws G.
Implicit Types s : TMaze G.

(** A step onto a cell of the T, in closed form. *)
Lemma step_into_T s action p :
  reachable s → 11 ≤ width s → 9 ≤ height s → 0 < max_steps s →
  fwd_pos action s = Some p → in_T (width s) (height s) p →
  let s1 := set_agent_pos p (set_step_count (step_count s + 1) s) in
  step action s =
    (Ok (gen_obs_obs s1,
         if bool_decide (Some p = goal_position s) then shaped_reward s1 else 0%Q,
         bool_decide (Some p = goal_position s)
         || bool_decide (Some p = lava_position s),
         max_steps s <=? step_count s + 1),
     gen_obs_env s1).
Proof.
  intros Hreach Hw Hh Hms Hp HT s1.
  pose proof (fwd_pos_Some _ _ _ Hp) as Ha.
  destruct (reachable_step_closed laws s action Hreach ltac:(lia) ltac:(lia) Hms Ha)
    as (p' & Hp' & Hin & Hwf & ->).
  rewrite Hp in Hp'. injection Hp' as <-.
  pose proof (reachable_inv laws s Hreach) as (_ & Hsize & _).
  pose proof (reachable_layout laws s Hreach) as Hlay.
  destruct (has_layout_cells s p Hlay Hsize Hw Hh) as [_ Hcell].
  destruct (has_layout_corners s p Hlay ltac:(lia) ltac:(lia)) as [Hne _].
  unfold moved. rewrite (Hcell HT). fold s1.
  destruct (decide (Some p = lava_position s)) as [Hl|Hl];
    [|destruct (decide (Some p = goal_position s)) as [Hg|Hg]]; simpl.
  - rewrite (bool_decide_eq_true_2 _ Hl).
    rewrite bool_decide_eq_false_2 by congruence. done.
  - rewrite (bool_decide_eq_true_2 _ Hg). done.
  - rewrite (bool_decide_eq_false_2 _ Hl), (bool_decide_eq_false_2 _ Hg). done.
Qed.

Lemma steps_app l1 l2 s : steps (l1 ++ l2) s = steps l1 s ++ steps l2 (run l1 s).
Proof.
  revert s. induction l1 as [|a l1 IH]; intros s; [done|].
  simpl. by rewrite IH.
Qed.

Lemma run_app l1 l2 s : run (l1 ++ l2) s = run l2 (run l1 s).
Proof. apply foldl_app. Qed.

(** [k] steps of one action along cells of the T that are not the corners:
    every step returns quietly and moves the agent by one cell. *)
Lemma walk (dx dy : Z) action (k : nat) s :
  (∀ s', fwd_pos action s' = Some ((agent_pos s').1 + dx, (agent_pos s').2 + dy)) →
  reachable s → 11 ≤ width s → 9 ≤ height s → 0 < max_steps s →
  (∀ i, 1 ≤ i ≤ Z.of_nat k →
     let p := ((agent_pos s).1 + i * dx, (agent_pos s).2 + i * dy) in
     in_T (width s) (height s) p ∧
     Some p ≠ goal_position s ∧ Some p ≠ lava_position s) →
  let s' := run (replicate k action) s in
  Forall quiet (steps (replicate k action) s) ∧
  reachable s' ∧
  agent_pos s' = ((agent_pos s).1 + Z.of_nat k * dx, (agent_pos s).2 + Z.of_nat k * dy) ∧
  width s' = width s ∧ height s' = height s ∧ max_steps s' = max_steps s ∧
  goal_position s' = goal_position s ∧ lava_position s' = lava_position s ∧
  step_count s' = step_count s + Z.of_nat k.
Proof.
  intros Hfwd. revert s. induction k as [|k IH]; intros s Hreach Hw Hh Hms Hfree.
  - cbv zeta. cbn [replicate run steps foldl].
    split; [constructor|]. split; [done|]. split.
    { destruct (agent_pos s) as [x y]. cbn [fst snd]. f_equal; lia. }
    repeat split; try done. lia.
  - destruct (Hfree 1 ltac:(lia)) as (HT & Hg & Hl). cbv zeta in HT, Hg, Hl.
    rewrite !Z.mul_1_l in HT, Hg, Hl.
    pose proof (step_into_T s action _ Hreach Hw Hh Hms (Hfwd s) HT) as Hstep.
    cbv zeta in Hstep.
    rewrite (bool_decide_eq_false_2 _ Hg), (bool_decide_eq_false_2 _ Hl) in Hstep.
    simpl orb in Hstep.
    set (s1 := gen_obs_env _) in Hstep.
    assert (Hreach1 : reachable s1) by (by eapply reachable_step).
    assert (Hpos1 : agent_pos s1 = ((agent_pos s).1 + dx, (agent_pos s).2 + dy)) by done.
    specialize (IH s1 Hreach1 Hw Hh Hms).
    destruct IH as (Hq & Hr & Hp & Hkw & Hkh & Hkm & Hkg & Hkl & Hkc).
    { intros i Hi. cbv zeta. rewrite Hpos1. cbn [fst snd].
      change (width s1) with (width s). change (height s1) with (height s).
      change (goal_position s1) with (goal_position s).
      change (lava_position s1) with (lava_position s).
      specialize (Hfree (i + 1) ltac:(lia)). cbv zeta in Hfree.
      replace ((agent_pos s).1 + dx + i * dx) with ((agent_pos s).1 + (i + 1) * dx) by lia.
      replace ((agent_pos s).2 + dy + i * dy) with ((agent_pos s).2 + (i + 1) * dy) by lia.
      exact Hfree. }
    cbv zeta. change (replicate (S k) action) with (action :: replicate k action).
    rewrite run_cons. cbn [steps]. rewrite Hstep. cbn [fst snd].
    split; [constructor; [by eexists _, _|exact Hq]|].
    split; [exact Hr|]. rewrite Hp, Hkw, Hkh, Hkm, Hkg, Hkl, Hkc, Hpos1.
    cbn [fst snd].
    change (step_count s1) with (step_count s + 1).
    repeat split; try done; [f_equal; lia|lia].
Qed.

Lemma fwd_pos_forward s :
  fwd_pos Actions.forward s = Some ((agent_pos s).1 + 0, (agent_pos s).2 + -1).
Proof. unfold fwd_pos. simpl. do 2 f_equal; lia. Qed.

Lemma fwd_pos_left s :
  fwd_pos Actions.left s = Some ((agent_pos s).1 + -1, (agent_pos s).2 + 0).
Proof. unfold fwd_pos. simpl. do 2 f_equal; lia. Qed.

Lemma fwd_pos_right s :
  fwd_pos Actions.right s = Some ((agent_pos s).1 + 1, (agent_pos s).2 + 0).
Proof. unfold fwd_pos. simpl. do 2 f_equal; lia. Qed.

(** The environment a reset leaves. *)
Lemma reset_Ok_start seed s0 obs0 s1 :
  reset seed s0 = (Ok obs0, s1) →
  reachable s1 ∧ width s1 = width s0 ∧ height s1 = height s0 ∧
  max_steps s1 = max_steps s0 ∧ step_count s1 = 0 ∧
  agent_pos s1 = (width s0 / 2, height s0 - 2).
Proof.
  intros Hreset. split; [by eapply reachable_reset|].
  pose proof (reset_Ok_inv laws _ _ _ _ Hreset) as Hsize.
  rewrite (reset_closed laws) in Hreset by done. injection Hreset as _ <-.
  destruct (reset_grid_fields seed s0) as (Hw1 & Hh1 & _ & _ & _ & Hpos & _).
  change (width (gen_obs_env (reset_grid seed s0))) with (width (reset_grid seed s0)).
  change (height (gen_obs_env (reset_grid seed s0))) with (height (reset_grid seed s0)).
  change (agent_pos (gen_obs_env (reset_grid seed s0)))
    with (agent_pos (reset_grid seed s0)).
  rewrite Hw1, Hh1, Hpos. repeat split; by destruct seed.
Qed.

(** The side of the goal and the corner of the layout. *)
Lemma goal_side_corner s c :
  5 ≤ width s → c = 0 ∨ c = 1 → goal_position s = Some (corner (width s) c) →
  goal_side s = (if c =? 0 then Actions.left else Actions.right) ∧
  hint_index s = c.
Proof.
  intros Hw Hc Hg. unfold goal_side, hint_index, goal_is_right, array_equal.
  rewrite Hg. unfold corner.
  destruct Hc as [-> | ->].
  - change (0 =? 0) with true. cbv iota. cbn [fst snd].
    replace (1 =? width s - 2) with false by (symmetry; apply Z.eqb_neq; lia). done.
  - change (1 =? 0) with false. cbv iota. cbn [fst snd].
    rewrite Z.eqb_refl. done.
Qed.

(** After a reset of a maze of 11 by 9 cells at least, the steps up the
    corridor and then along the top row to the side of the goal all
    return; the last one, step number [(height - 3) + (width // 2 - 1)],
    moves the agent onto the goal, ends the episode and pays
    [1 - 0.9 * (that number / max_steps)]; the steps before it pay nothing
    and do not end the episode. *)
Theorem goal_path_reaches_goal seed s0 obs0 s1 :
  reset seed s0 = (Ok obs0, s1) →
  11 ≤ width s0 → 9 ≤ height s0 → 0 < max_steps s0 →
  ∃ results obs r truncated,
    steps (goal_path s1) s1 = results ++ [Ok (obs, r, true, truncated)] ∧
    Forall quiet results ∧
    Z.of_nat (length results) + 1 = height s0 - 3 + (width s0 / 2 - 1) ∧
    Some (agent_pos (run (goal_path s1) s1)) = goal_position s1 ∧
    r = (1 - (9 # 10) *
           (inject_Z (height s0 - 3 + (width s0 / 2 - 1)) /
            inject_Z (max_steps s0)))%Q.
Proof.
  intros Hreset Hw Hh Hms.
  destruct (reset_Ok_start _ _ _ _ Hreset) as (Hreach & Hw1 & Hh1 & Hm1 & Hc1 & Hp1).
  pose proof (reachable_inv laws s1 Hreach) as (_ & Hsize & _).
  pose proof Hsize as (Hwo & _). pose proof (half_odd _ Hwo) as Hhalf.
  pose proof (reachable_layout laws s1 Hreach) as (c & Hc & Hg & Hl & _).
  destruct (goal_side_corner s1 c ltac:(lia) Hc Hg) as [Hside _].
  rewrite <- Hw1, <- Hh1, <- Hm1 in *. clear Hw1 Hh1 Hm1 Hreset s0 obs0.
  set (w := width s1) in *. set (h := height s1) in *. set (m := w / 2) in *.
  (* up the corridor *)
  set (k1 := Z.to_nat (h - 3)).
  destruct (walk 0 (-1) Actions.forward k1 s1 fwd_pos_forward Hreach Hw Hh Hms)
    as (Hq1 & Hr2 & Hp2 & Hw2 & Hh2 & Hm2 & Hg2 & Hl2 & Hc2).
  { intros i Hi. cbv zeta. rewrite Hp1, Hg, Hl. cbn [fst snd]. fold w h m.
    unfold k1 in Hi.
    split; [unfold in_T; cbn [fst snd]; fold m; clearbody m w h; right; lia|].
    clearbody m w h.
    unfold corner. destruct Hc as [-> | ->]; simpl; split; intros [=]; lia. }
  cbv zeta in Hr2, Hp2, Hw2, Hh2, Hm2, Hg2, Hl2, Hc2.
  set (s2 := run (replicate k1 Actions.forward) s1) in *.
  rewrite Hp1 in Hp2. cbn [fst snd] in Hp2.
  (* along the top row *)
  set (dx := if c =? 0 then -1 else 1).
  assert (Hfwd : ∀ s', fwd_pos (goal_side s1) s' =
                   Some ((agent_pos s').1 + dx, (agent_pos s').2 + 0)).
  { intros s'. rewrite Hside. unfold dx.
    destruct (c =? 0); [apply fwd_pos_left|apply fwd_pos_right]. }
  set (k2 := Z.to_nat (m - 2)).
  destruct (walk dx 0 (goal_side s1) k2 s2 Hfwd Hr2) as
    (Hq2 & Hr3 & Hp3 & Hw3 & Hh3 & Hm3 & Hg3 & Hl3 & Hc3); [fold w; lia..| |].
  { intros i Hi. cbv zeta. rewrite Hp2, Hw2, Hh2, Hg2, Hl2, Hg, Hl.
    cbn [fst snd]. fold w h m. unfold k2 in Hi. unfold k1, dx.
    split; [unfold in_T; cbn [fst snd]; fold m; clearbody m w h; left;
            destruct (c =? 0); lia|].
    clearbody m w h. unfold corner.
    destruct Hc as [-> | ->]; simpl; split; intros [=]; lia. }
  cbv zeta in Hr3, Hp3, Hw3, Hh3, Hm3, Hg3, Hl3, Hc3.
  set (s3 := run (replicate k2 (goal_side s1)) s2) in *.
  rewrite Hp2 in Hp3. cbn [fst snd] in Hp3.
  (* the last step *)
  assert (Hcorner : ((agent_pos s3).1 + dx, (agent_pos s3).2 + 0) = corner w c).
  { rewrite Hp3. cbn [fst snd]. unfold corner, dx, k1, k2.
    clearbody m w h. destruct Hc as [-> | ->]; simpl; f_equal; lia. }
  assert (Hgoal : Some ((agent_pos s3).1 + dx, (agent_pos s3).2 + 0) = goal_position s3)
    by (by rewrite Hcorner, Hg3, Hg2, Hg).
  pose proof (step_into_T s3 (goal_side s1) _ Hr3 ltac:(lia) ltac:(lia) ltac:(lia)
                (Hfwd s3)) as Hstep.
  cbv zeta in Hstep. rewrite (bool_decide_eq_true_2 _ Hgoal) in Hstep.
  simpl orb in Hstep.
  specialize (Hstep ltac:(rewrite Hcorner, Hw3, Hw2, Hh3, Hh2;
                          by apply corner_in_T; lia)).
  (* the path *)
  assert (Hpath : goal_path s1 =
            replicate k1 Actions.forward ++ replicate k2 (goal_side s1) ++ [goal_side s1]).
  { unfold goal_path. fold w h m. rewrite <- replicate_S_end. do 2 f_equal.
    unfold k2. lia. }
  rewrite Hpath, !steps_app, !run_app, app_assoc. fold s2 s3.
  cbn [steps run foldl]. rewrite Hstep. cbn [fst snd].
  eexists _, _, _, _. split; [reflexivity|].
  split; [by apply Forall_app|]. split.
  { rewrite length_app. 
    assert (Hlen : ∀ l s, length (steps l s) = length l).
    { induction l as [|a l IH]; intros s; simpl; [done|]. by rewrite IH. }
    rewrite !Hlen, !length_replicate. unfold k1, k2. lia. }
  split.
  { change (agent_pos (gen_obs_env ?x)) with (agent_pos x). cbn [agent_pos set_agent_pos].
    by rewrite Hgoal, Hg3, Hg2. }
  unfold shaped_reward. cbn [step_count max_steps set_agent_pos set_step_count].
  rewrite Hc3, Hc2, Hc1, Hm3, Hm2. do 4 f_equal. unfold k1, k2. lia.
Qed.

(** The index of the 1.0 of the arrow is [Actions.left] when the goal is in
    the left corner and [Actions.forward], not [Actions.right], when it is
    in the right corner: at the top of the corridor the step on that index
    moves the agent towards a goal on the left, and leaves it where it is,
    in front of the wall, for a goal on the right. *)
Theorem hint_index_as_action s :
  reachable s → 11 ≤ width s → 9 ≤ height s → 0 < max_steps s →
  agent_pos s = (width s / 2, 1) →
  arrow_q_values s = <[Z.to_nat (hint_index s) := 1%Q]> (replicate 4 0%Q) ∧
  (goal_is_right s = false →
     hint_index s = Actions.left ∧
     agent_pos (step (hint_index s) s).2 = (width s / 2 - 1, 1)) ∧
  (goal_is_right s = true →
     hint_index s = Actions.forward ∧
     agent_pos (step (hint_index s) s).2 = agent_pos s).
Proof.
  intros Hreach Hw Hh Hms Hpos.
  pose proof (reachable_inv laws s Hreach) as (Hwf & Hsize & Harrow & _).
  pose proof Hsize as (Hwo & _). pose proof (half_odd _ Hwo) as Hhalf.
  pose proof (reachable_layout laws s Hreach) as Hlay.
  split; [rewrite Harrow; unfold hint_index; by destruct (goal_is_right s)|].
  unfold hint_index. split; intros ->; (split; [done|]).
  - change (Z.of_nat (Nat.b2n false)) with Actions.left.
    pose proof (step_into_T s Actions.left _ Hreach Hw Hh Hms (fwd_pos_left s))
      as Hstep.
    cbv zeta in Hstep. rewrite Hstep.
    + cbn [snd]. change (agent_pos (gen_obs_env ?x)) with (agent_pos x).
      cbn [agent_pos set_agent_pos]. rewrite Hpos. cbn [fst snd]. f_equal; lia.
    + rewrite Hpos. unfold in_T. cbn [fst snd]. lia.
  - change (Z.of_nat (Nat.b2n true)) with Actions.forward.
    assert (Hp : fwd_pos Actions.forward s = Some (width s / 2, 0)).
    { rewrite fwd_pos_forward, Hpos. cbn [fst snd]. do 2 f_equal; lia. }
    destruct (reachable_step_closed laws s Actions.forward Hreach ltac:(lia)
                ltac:(lia) Hms ltac:(unfold Actions.forward; lia))
      as (p & Hp' & _ & _ & ->).
    rewrite Hp in Hp'. injection Hp' as <-. cbn [snd].
    change (agent_pos (gen_obs_env ?x)) with (agent_pos x).
    destruct (has_layout_cells s (width s / 2, 0) Hlay Hsize Hw Hh) as [Hwall _].
    unfold moved. rewrite Hwall; [done|].
    unfold wall_near_T. cbn [fst snd]. left. lia.
Qed.

End DqnPath.

Lemma goal_path_reaches_goal_witness :
  ∃ results obs r truncated,
    steps (goal_path ex_start) ex_start = results ++ [Ok (obs, r, true, truncated)] ∧
    Z.of_nat (length results) + 1 = 12 ∧
    r = (1 - (9 # 10) * (inject_Z 12 / inject_Z 242))%Q.
Proof.
  destruct ex_start_reset as [obs0 Hreset].
  destruct (goal_path_reaches_goal Lcg_laws _ _ _ _ Hreset)
    as (results & obs & r & tr & Hsteps & _ & Hlen & _ & Hr).
  - vm_compute. discriminate.
  - vm_compute. discriminate.
  - reflexivity.
  - exists results, obs, r, tr. split; [exact Hsteps|]. split; [exact Hlen|exact Hr].
Defined.

Lemma ex_right_start_reset :
  ∃ obs,
    MainDqn.reset (Some 3) (constructed 11 242 (default_rng 1)) = (Ok obs, ex_right_start).
Proof. eexists. vm_compute. reflexivity. Qed.

Lemma ex_right_decision_run :
  run [1; 1; 1; 1; 1; 1; 1; 1] ex_right_start = ex_right_decision.
Proof. vm_compute. reflexivity. Qed.

Lemma ex_right_decision_reachable : reachable ex_right_decision.
Proof.
  destruct ex_right_start_reset as (obs & Hreset).
  rewrite <- ex_right_decision_run.
  apply (run_reachable Lcg_laws).
  - eapply reachable_reset. exact Hreset.
  - vm_compute. discriminate.
  - vm_compute. discriminate.
  - reflexivity.
  - repeat constructor; lia.
Qed.

(** With the goal in the right corner the index of the arrow is the action
    forward, and the step on it leaves the agent on the decision cell. *)
Lemma hint_index_as_action_witness :
  hint_index ex_right_decision = MainDqn.Actions.forward ∧
  MainDqn.agent_pos (MainDqn.step (hint_index ex_right_decision) ex_right_decision).2 =
    (5, 1).
Proof.
  destruct (hint_index_as_action Lcg_laws ex_right_decision) as (_ & _ & Hright).
  - exact ex_right_decision_reachable.
  - vm_compute. discriminate.
  - vm_compute. discriminate.
  - reflexivity.
  - reflexivity.
  - destruct Hright as [Hidx Hpos]; [reflexivity|].
    split; [exact Hidx|]. rewrite Hpos. reflexivity.
Defined.

(** ** main_dqn.py: the exploration schedule *)

Lemma Qltb_lt x y : Qltb x y = true ↔ (x < y)%Q.
Proof.
  unfold Qltb. rewrite negb_true_iff. split.
  - intros Hb. apply Qnot_le_lt. intros Hle. apply Qle_bool_iff in Hle. congruence.
  - intros Hlt. destruct (Qle_bool y x) eqn:E; [|done].
    apply Qle_bool_iff in E. exfalso. by apply (Qlt_not_le _ _ Hlt).
Qed.

Lemma Qltb_ge x y : Qltb x y = false ↔ (y <= x)%Q.
Proof.
  unfold Qltb. rewrite negb_false_iff. apply Qle_bool_iff.
Qed.


Lemma pymin_spec a b :
  (MainDqn.pymin a b <= a ∧ MainDqn.pymin a b <= b)%Q ∧
  (MainDqn.pymin a b = a ∨ MainDqn.pymin a b = b).
Proof.
  unfold MainDqn.pymin. destruct (Qltb b a) eqn:E.
  - apply Qltb_lt in E. split; [lra|by right].
  - apply Qltb_ge in E. split; [lra|by left].
Qed.



(** A zero [duration] makes the schedule raise. *)
Lemma linear_schedule_zero_duration start_e end_e t :
  MainDqn.linear_schedule start_e end_e 0 t = Raise ZeroDivisionError.
Proof. reflexivity. Qed.


(** ** main_dqn.py: the grayscale wrapper *)

(** Of a pixel of three channels of [uint8] the wrapper hands to the cast
    765 minus the luminance: a float of [510, 765], never one of the range
    [0, 255] of [uint8]. *)
Lemma grayscale_sum_range r g b :
  0 ≤ r ≤ 255 → 0 ≤ g ≤ 255 → 0 ≤ b ≤ 255 →
  (MainDqn.grayscale_sum (r, g, b) ==
     765 - ((2125 # 10000) * inject_Z r + (7154 # 10000) * inject_Z g +
            (721 # 10000) * inject_Z b))%Q ∧
  (510 <= MainDqn.grayscale_sum (r, g, b))%Q ∧
  (MainDqn.grayscale_sum (r, g, b) <= 765)%Q.
Proof.
  intros Hr Hg Hb. unfold MainDqn.grayscale_sum, MainDqn.grayscale_weights.
  assert (0 <= inject_Z r ∧ inject_Z r <= 255)%Q
    by (split; [rewrite <- (Zle_Qle 0)|rewrite <- (Zle_Qle _ 255)]; lia).
  assert (0 <= inject_Z g ∧ inject_Z g <= 255)%Q
    by (split; [rewrite <- (Zle_Qle 0)|rewrite <- (Zle_Qle _ 255)]; lia).
  assert (0 <= inject_Z b ∧ inject_Z b <= 255)%Q
    by (split; [rewrite <- (Zle_Qle 0)|rewrite <- (Zle_Qle _ 255)]; lia).
  split; [ring|]. split; lra.
Qed.

(** For an image whose channels are bytes, what [GrayscaleObservation]
    returns is the cast to [uint8] of floats that all lie in [510, 765]:
    every value handed to [astype(np.uint8)] is outside the range [0, 255]
    of the type, so the observation is whatever the cast makes of an
    out-of-range float, not a luminance. *)
Theorem grayscale_cast_out_of_range (astype_uint8 : Q → Z) image :
  Forall (Forall uint8_pixel) image →
  ∃ sums,
    MainDqn.grayscale astype_uint8 image = map (map astype_uint8) sums ∧
    Forall2 (Forall2 (λ pixel x, x = MainDqn.grayscale_sum pixel)) image sums ∧
    Forall (Forall (λ x, 510 <= x ∧ x <= 765)%Q) sums.
Proof.
  intros Himg. exists (map (map MainDqn.grayscale_sum) image).
  split; [|split].
  - unfold MainDqn.grayscale. rewrite <- list_fmap_compose.
    apply list_fmap_ext. intros _ row _. simpl. by rewrite <- list_fmap_compose.
  - apply Forall2_fmap_r, Forall_Forall2_diag, Forall_true. intros row.
    apply Forall2_fmap_r, Forall_Forall2_diag, Forall_true. done.
  - apply Forall_fmap. eapply Forall_impl; [exact Himg|]. intros row Hrow.
    apply Forall_fmap. eapply Forall_impl; [exact Hrow|].
    intros [[r g] b] (Hr & Hg & Hb). simpl in *.
    destruct (grayscale_sum_range r g b Hr Hg Hb) as (_ & H1 & H2). done.
Qed.

Lemma grayscale_cast_out_of_range_witness :
  ∃ x, MainDqn.grayscale (λ _, 0) [[(0, 0, 0); (255, 255, 255)]] = [[0; 0]] ∧
    MainDqn.grayscale_sum (255, 255, 255) = x ∧ (510 <= x)%Q.
Proof.
  destruct (grayscale_cast_out_of_range (λ _, 0) [[(0, 0, 0); (255, 255, 255)]])
    as (sums & Heq & H2 & Hr).
  - repeat constructor; simpl; lia.
  - exists (MainDqn.grayscale_sum (255, 255, 255)).
    split; [reflexivity|]. split; [reflexivity|].
    apply Forall2_cons_inv_l in H2 as (row & sums' & Hrow & _ & ->).
    apply Forall2_cons_inv_l in Hrow as (x0 & row' & _ & Hrow & ->).
    apply Forall2_cons_inv_l in Hrow as (x1 & row'' & -> & _ & ->).
    apply Forall_cons in Hr as [Hr _].
    apply Forall_cons in Hr as [_ Hr]. apply Forall_cons in Hr as [Hr _].
    apply Hr.
Defined.

(** ** main_dqn.py: rendering *)

Section Render.

Import MainDqn MainDqn.DirectionlessGrid.
Context {Tile : Type}.
Variable draw_tile : option WorldObj → bool → bool → Z → Z → Tile.

Lemma encode_inj o1 o2 : encode o1 = encode o2 → o1 = o2.
Proof. by destruct o1 as [|[]|], o2 as [|[]|]. Qed.

Lemma shown_false cell : shown false cell = cell.
Proof. by destruct cell as [[|[]|]|]. Qed.

Lemma shown_idemp b cell : shown b (shown true cell) = shown true cell.
Proof. by destruct b, cell as [[|[]|]|]. Qed.

Lemma cache_sound_nil : cache_sound draw_tile [].
Proof. intros obj d hl ts t. done. Qed.

(** [render_tile] on a sound cache returns the drawing and leaves a sound
    cache. *)
Lemma render_tile_sound obj agent_dir highlight tile_size c :
  cache_sound draw_tile c →
  (render_tile draw_tile obj agent_dir highlight tile_size c).1 =
    draw_tile obj (bool_decide (agent_dir ≠ None)) highlight tile_size 3 ∧
  cache_sound draw_tile (render_tile draw_tile obj agent_dir highlight tile_size c).2.
Proof.
  intros Hc. unfold render_tile.
  destruct (cache_get c _) as [t|] eqn:Hget; cbn [fst snd].
  - split; [by apply Hc|done].
  - split; [done|]. intros obj' d' hl' ts' t. cbn [cache_get].
    destruct (decide _) as [Heq|Hne]; [|apply Hc].
    injection Heq as Ho -> -> ->. intros [= <-].
    f_equal. destruct obj as [o|], obj' as [o'|]; simplify_eq/=; try done.
    f_equal. by apply encode_inj.
Qed.

(** The same call of [Grid.get] on the grid and on the grid without its
    goal and lava. *)
Lemma get_hide g i j :
  Grid.get (hide g) i j = (cell ← Grid.get g i j; Ok (shown true cell)).
Proof.
  unfold Grid.get, hide, mbind, result_bind. cbn [Grid.width Grid.height Grid.grid].
  destruct (assert _) as [[]|e]; [|done].
  destruct (assert _) as [[]|e]; [|done].
  change (map (shown true) (Grid.grid g)) with (shown true <$> Grid.grid g).
  rewrite list_lookup_fmap. by destruct (Grid.grid g !! _).
Qed.

Lemma render_cell_hide g tile_size agent_pos agent_dir i j c :
  render_cell draw_tile true g tile_size agent_pos agent_dir i j c =
  render_cell draw_tile false (hide g) tile_size agent_pos agent_dir i j c.
Proof.
  unfold render_cell. rewrite get_hide.
  destruct (Grid.get g i j) as [cell|e]; [|done]. simpl. by rewrite shown_idemp.
Qed.

Lemma render_row_hide g tile_size agent_pos agent_dir j cols c :
  render_row draw_tile true g tile_size agent_pos agent_dir j cols c =
  render_row draw_tile false (hide g) tile_size agent_pos agent_dir j cols c.
Proof.
  revert c. induction cols as [|i cols IH]; intros c; [done|].
  cbn [render_row]. rewrite render_cell_hide.
  destruct (render_cell _ _ _ _ _ _ _ _ _) as [[t c1]|e]; [|done]. simpl.
  by rewrite IH.
Qed.

(** What the hidden grid holds: the walls and the grey boxes of the grid,
    and nothing where the grid has its green goal or its lava. *)
Lemma hide_cell g i j : Grid.cell (hide g) i j = shown true (Grid.cell g i j).
Proof.
  unfold Grid.cell, hide. cbn [Grid.width Grid.height Grid.grid].
  destruct (_ && _); [|done].
  change (map (shown true) (Grid.grid g)) with (shown true <$> Grid.grid g).
  rewrite list_lookup_fmap. by destruct (Grid.grid g !! _).
Qed.

(** With [invisible_goal] set, [render] returns what it returns without it
    on the grid whose green goal and lava are taken away, the other cells
    (walls, grey boxes, empty cells) being the same; this holds whatever the
    cache holds, of the image and of the cache after the call. *)
Theorem render_invisible_goal g tile_size agent_pos agent_dir c :
  render draw_tile true g tile_size agent_pos agent_dir c =
    render draw_tile false (hide g) tile_size agent_pos agent_dir c ∧
  ∀ i j,
    Grid.cell (hide g) i j =
      match Grid.cell g i j with
      | Some (Goal green) | Some Lava => None
      | cell => cell
      end.
Proof.
  split; [|intros i j; rewrite hide_cell; by destruct (Grid.cell g i j) as [[|[]|]|]].
  unfold render. change (Grid.height (hide g)) with (Grid.height g).
  generalize (seqZ 0 (Grid.height g)). intros js. revert c.
  induction js as [|j js IH]; intros c; [done|].
  cbn [render_rows]. change (Grid.width (hide g)) with (Grid.width g).
  rewrite render_row_hide.
  destruct (render_row _ _ _ _ _ _ _ _ _) as [[row c1]|e]; [|done]. simpl.
  by rewrite IH.
Qed.

Lemma render_cell_sound inv g tile_size agent_pos agent_dir i j c :
  grid_wf g → in_grid g i j → cache_sound draw_tile c →
  ∃ c', render_cell draw_tile inv g tile_size agent_pos agent_dir i j c =
          Ok (tile_of draw_tile inv g tile_size agent_pos agent_dir i j, c') ∧
        cache_sound draw_tile c'.
Proof.
  intros Hwf Hin Hc. unfold render_cell. rewrite Grid_get_in by done. simpl.
  destruct (render_tile_sound (shown inv (Grid.cell g i j))
              (if (agent_pos.1 =? i) && (agent_pos.2 =? j) then agent_dir else None)
              false tile_size c Hc) as [Ht Hc'].
  eexists. split; [|exact Hc'].
  rewrite (surjective_pairing (render_tile _ _ _ _ _ _)). rewrite Ht.
  unfold tile_of. do 3 f_equal.
  destruct ((agent_pos.1 =? i) && (agent_pos.2 =? j)); [done|].
  apply bool_decide_eq_false_2. by intros [].
Qed.

Lemma render_row_sound inv g tile_size agent_pos agent_dir j cols c :
  grid_wf g → Forall (λ i, in_grid g i j) cols → cache_sound draw_tile c →
  ∃ c', render_row draw_tile inv g tile_size agent_pos agent_dir j cols c =
          Ok (map (λ i, tile_of draw_tile inv g tile_size agent_pos agent_dir i j) cols,
              c') ∧
        cache_sound draw_tile c'.
Proof.
  intros Hwf. revert c. induction cols as [|i cols IH]; intros c Hin Hc.
  - by exists c.
  - apply Forall_cons in Hin as [Hi Hin]. cbn [render_row].
    destruct (render_cell_sound inv g tile_size agent_pos agent_dir i j c Hwf Hi Hc)
      as (c1 & -> & Hc1). simpl.
    destruct (IH c1 Hin Hc1) as (c2 & -> & Hc2). simpl. by exists c2.
Qed.

(** On a well-formed grid and a cache that holds only tiles drawn by
    [render_tile], [render] returns, and the image is made of the drawing of
    every cell as it is shown, with the circle of the agent on the cell of
    the agent and nowhere else: what the cache holds changes nothing of
    it. *)
Theorem render_image inv g tile_size agent_pos agent_dir c :
  grid_wf g → cache_sound draw_tile c →
  ∃ c', render draw_tile inv g tile_size agent_pos agent_dir c =
          Ok (image_of draw_tile inv g tile_size agent_pos agent_dir, c') ∧
        cache_sound draw_tile c'.
Proof.
  intros Hwf Hc. unfold render, image_of.
  assert (Hjs : Forall (λ j, 0 ≤ j < Grid.height g) (seqZ 0 (Grid.height g))).
  { apply Forall_forall. intros j [k [-> Hk]%lookup_seqZ]%list_elem_of_lookup. lia. }
  revert Hjs. generalize (seqZ 0 (Grid.height g)). intros js. revert c Hc.
  induction js as [|j js IH]; intros c Hc Hjs.
  - by exists c.
  - apply Forall_cons in Hjs as [Hj Hjs]. cbn [render_rows].
    destruct (render_row_sound inv g tile_size agent_pos agent_dir j
                (seqZ 0 (Grid.width g)) c Hwf) as (c1 & -> & Hc1); [|done|].
    { apply Forall_forall. intros i [k [-> Hk]%lookup_seqZ]%list_elem_of_lookup.
      unfold in_grid. lia. }
    simpl. destruct (IH c1 Hc1 Hjs) as (c2 & -> & Hc2). simpl. by exists c2.
Qed.

End Render.

Lemma render_image_witness :
  ∃ c', MainDqn.DirectionlessGrid.render ex_draw_tile true (MainDqn.grid ex_start) 8
          (5, 9) (Some 3) [] =
          Ok (image_of ex_draw_tile true (MainDqn.grid ex_start) 8 (5, 9) (Some 3), c').
Proof.
  destruct (render_image ex_draw_tile true (MainDqn.grid ex_start) 8 (5, 9) (Some 3) [])
    as (c' & Hrun & _).
  - apply ex_start_wf.
  - apply cache_sound_nil.
  - by exists c'.
Defined.

(** ** main.py: the schedule of the learning rate *)



(** ** main.py: the clipped losses *)

Lemma maximum_spec a b :
  (a <= Main.maximum a b ∧ b <= Main.maximum a b)%Q ∧
  (Main.maximum a b = a ∨ Main.maximum a b = b).
Proof.
  unfold Main.maximum. destruct (Qltb a b) eqn:E.
  - apply Qltb_lt in E. split; [lra|by right].
  - apply Qltb_ge in E. split; [lra|by left].
Qed.

(** [clamp] on an interval that is not empty. *)
Lemma clamp_spec x lo hi :
  (lo <= hi)%Q →
  (lo <= Main.clamp x lo hi ∧ Main.clamp x lo hi <= hi)%Q ∧
  ((lo <= x ∧ x <= hi → Main.clamp x lo hi == x) ∧
   (x <= lo → Main.clamp x lo hi == lo) ∧
   (hi <= x → Main.clamp x lo hi == hi))%Q.
Proof.
  intros Hlh. unfold Main.clamp, Main.minimum, Main.maximum.
  destruct (Qltb x lo) eqn:E1.
  - apply Qltb_lt in E1. destruct (Qltb hi lo) eqn:E2.
    + apply Qltb_lt in E2. lra.
    + repeat split; intros; lra.
  - apply Qltb_ge in E1. destruct (Qltb hi x) eqn:E2.
    + apply Qltb_lt in E2. repeat split; intros; lra.
    + apply Qltb_ge in E2. repeat split; intros; lra.
Qed.

(** The clipped policy loss of one sample, for a clip coefficient that is
    not negative: it is never below the unclipped loss [-A * ratio]; it is
    the unclipped loss while the ratio is within [1 - c, 1 + c], and also
    beyond that range on the side that makes the loss larger; on the other
    side it is the constant [-A * (1 + c)] or [-A * (1 - c)], so that moving
    the ratio further in the direction of the advantage no longer lowers
    the loss. *)
Theorem pg_loss_term_cases (c A r : Q) :
  (0 <= c)%Q →
  (- A * r <= Main.pg_loss_term c A r)%Q ∧
  (1 - c <= r ∧ r <= 1 + c → Main.pg_loss_term c A r == - A * r)%Q ∧
  (0 <= A → 1 + c <= r → Main.pg_loss_term c A r == - A * (1 + c))%Q ∧
  (A <= 0 → r <= 1 - c → Main.pg_loss_term c A r == - A * (1 - c))%Q ∧
  (0 <= A → r <= 1 - c → Main.pg_loss_term c A r == - A * r)%Q ∧
  (A <= 0 → 1 + c <= r → Main.pg_loss_term c A r == - A * r)%Q.
Proof.
  intros Hc. unfold Main.pg_loss_term. cbv zeta.
  set (k := Main.clamp r (1 - c) (1 + c)).
  destruct (clamp_spec r (1 - c) (1 + c) ltac:(lra)) as ((Hk1 & Hk2) & Hin & Hlo & Hhi).
  fold k in Hk1, Hk2, Hin, Hlo, Hhi.
  destruct (maximum_spec (- A * r) (- A * k)) as [[Hm1 Hm2] Hm].
  split; [done|]. split; [|split; [|split; [|split]]].
  - intros Hr. specialize (Hin Hr).
    assert (A * k == A * r)%Q by (by rewrite Hin).
    destruct Hm as [-> | ->]; lra.
  - intros HA Hr. specialize (Hhi Hr).
    assert (A * k == A * (1 + c))%Q by (by rewrite Hhi).
    assert (0 <= A * (r - (1 + c)))%Q by (apply Qmult_le_0_compat; lra).
    destruct Hm as [E | E]; rewrite E in *; lra.
  - intros HA Hr. specialize (Hlo Hr).
    assert (A * k == A * (1 - c))%Q by (by rewrite Hlo).
    assert (0 <= (- A) * ((1 - c) - r))%Q by (apply Qmult_le_0_compat; lra).
    destruct Hm as [E | E]; rewrite E in *; lra.
  - intros HA Hr. specialize (Hlo Hr).
    assert (A * k == A * (1 - c))%Q by (by rewrite Hlo).
    assert (0 <= A * ((1 - c) - r))%Q by (apply Qmult_le_0_compat; lra).
    destruct Hm as [E | E]; rewrite E in *; lra.
  - intros HA Hr. specialize (Hhi Hr).
    assert (A * k == A * (1 + c))%Q by (by rewrite Hhi).
    assert (0 <= (- A) * (r - (1 + c)))%Q by (apply Qmult_le_0_compat; lra).
    destruct Hm as [E | E]; rewrite E in *; lra.
Qed.

Lemma pg_loss_term_cases_witness :
  (Main.pg_loss_term (2 # 10) 1 2 == - (12 # 10))%Q ∧
  (Main.pg_loss_term (2 # 10) 1 (1 # 2) == - (1 # 2))%Q.
Proof.
  destruct (pg_loss_term_cases (2 # 10) 1 2) as (_ & _ & Hhi & _); [discriminate|].
  destruct (pg_loss_term_cases (2 # 10) 1 (1 # 2)) as (_ & _ & _ & _ & Hlo & _);
    [discriminate|].
  split.
  - rewrite Hhi; [reflexivity|discriminate|discriminate].
  - rewrite Hlo; [reflexivity|discriminate|discriminate].
Defined.

(** The clipped value loss of one sample, for a clip coefficient that is
    not negative: it is never below the squared error of the new value, and
    it is that squared error when the new value is within [clip_coef] of
    the value of the rollout. *)
Theorem v_loss_term_cases (c newvalue b_return b_value : Q) :
  (0 <= c)%Q →
  ((newvalue - b_return) * (newvalue - b_return)
     <= Main.v_loss_term c newvalue b_return b_value)%Q ∧
  (- c <= newvalue - b_value ∧ newvalue - b_value <= c →
     Main.v_loss_term c newvalue b_return b_value ==
       (newvalue - b_return) * (newvalue - b_return))%Q.
Proof.
  intros Hc. unfold Main.v_loss_term. cbv zeta.
  set (k := Main.clamp (newvalue - b_value) (- c) c).
  destruct (clamp_spec (newvalue - b_value) (- c) c ltac:(lra))
    as (_ & Hin & _). fold k in Hin.
  destruct (maximum_spec ((newvalue - b_return) * (newvalue - b_return))
              ((b_value + k - b_return) * (b_value + k - b_return)))
    as [[Hm1 Hm2] Hm].
  split; [done|]. intros Hr. specialize (Hin Hr).
  destruct Hm as [-> | ->]; [reflexivity|].
  assert (b_value + k - b_return == newvalue - b_return)%Q by (rewrite Hin; ring).
  by rewrite H.
Qed.

Lemma v_loss_term_cases_witness :
  (Main.v_loss_term (2 # 10) 1 3 (9 # 10) == 4)%Q.
Proof.
  destruct (v_loss_term_cases (2 # 10) 1 3 (9 # 10)) as [_ Hin]; [discriminate|].
  rewrite Hin; [reflexivity|]. split; discriminate.
Defined.

(** ** main.py: the minibatches of an epoch *)

Lemma slice_nonneg {A} (l : list A) (a b : Z) :
  0 ≤ a ≤ b →
  Main.slice l a b = take (Z.to_nat (b - a)) (drop (Z.to_nat a) l).
Proof.
  intros Hab. unfold Main.slice. set (n := Z.of_nat (length l)).
  replace (a <? 0) with false by (symmetry; apply Z.ltb_ge; lia).
  replace (b <? 0) with false by (symmetry; apply Z.ltb_ge; lia).
  destruct (Z_le_gt_dec b n) as [Hb|Hb].
  - by rewrite !Z.max_r, !Z.min_r by lia.
  - destruct (Z_le_gt_dec a n) as [Ha|Ha].
    + rewrite (Z.min_l n b), (Z.min_r n a), !Z.max_r by lia.
      rewrite !take_ge; [done|rewrite length_drop; lia..].
    + rewrite !Z.min_l, !Z.max_r by lia.
      rewrite !drop_ge by lia. by rewrite !take_nil.
Qed.

Lemma range3_from_0 (n step : Z) :
  0 < step →
  Main.range3 0 n step =
    Ok (map (λ k, Z.of_nat k * step) (seq 0 (Z.to_nat ((n + step - 1) / step)))).
Proof.
  intros Hs. unfold Main.range3.
  replace (step =? 0) with false by (symmetry; apply Z.eqb_neq; lia).
  replace (0 <? step) with true by (symmetry; apply Z.ltb_lt; lia).
  rewrite Z.sub_0_r. unfold seqZ. f_equal.
  change (map ?f (?g <$> ?l)) with (f <$> (g <$> l)).
  rewrite <- list_fmap_compose. apply list_fmap_ext. intros _ k _. simpl. lia.
Qed.

(** The first [c] slices of length [m] of a list make its first [c * m]
    elements. *)
Lemma concat_slices {A} (l : list A) (m c : nat) :
  concat (map (λ k, take m (drop (k * m) l)) (seq 0 c)) = take (c * m) l.
Proof.
  induction c as [|c IH]; [done|].
  rewrite seq_S, map_app, concat_app, IH. simpl. rewrite app_nil_r.
  rewrite take_take_drop. f_equal. lia.
Qed.

(** The minibatches in closed form: the slices of [minibatch_size] indices
    at the multiples of [minibatch_size], as many as cover the batch. *)
Lemma minibatches_slices (batch_size minibatch_size : Z) (b_inds : list Z) :
  0 < minibatch_size → 0 ≤ batch_size →
  Main.minibatches batch_size minibatch_size b_inds =
    Ok (map (λ k, take (Z.to_nat minibatch_size)
                    (drop (k * Z.to_nat minibatch_size) b_inds))
          (seq 0 (Z.to_nat ((batch_size + minibatch_size - 1) / minibatch_size)))).
Proof.
  intros Hm Hb. unfold Main.minibatches. rewrite range3_from_0 by done.
  simpl. f_equal. rewrite map_map. apply map_ext. intros k.
  rewrite slice_nonneg by lia. f_equal; [f_equal; lia|]. f_equal. lia.
Qed.

(** The slices cover the batch, and the last one starts inside it. *)
Lemma minibatches_count (batch_size minibatch_size : Z) :
  0 < minibatch_size → 0 ≤ batch_size →
  let count := Z.to_nat ((batch_size + minibatch_size - 1) / minibatch_size) in
  Z.of_nat count = (batch_size + minibatch_size - 1) / minibatch_size ∧
  batch_size ≤ Z.of_nat count * minibatch_size < batch_size + minibatch_size.
Proof.
  intros Hm Hb count.
  assert (Hcount : 0 ≤ (batch_size + minibatch_size - 1) / minibatch_size)
    by (apply Z.div_pos; lia).
  unfold count. rewrite Z2Nat.id by done. split; [done|].
  pose proof (Z.mul_succ_div_gt (batch_size + minibatch_size - 1) minibatch_size Hm).
  pose proof (Z.mul_div_le (batch_size + minibatch_size - 1) minibatch_size Hm).
  lia.
Qed.

(** With a positive [minibatch_size], the minibatches of an epoch are
    consecutive slices of [b_inds] that together make [b_inds]: every index
    of the batch is in exactly one minibatch. There are
    [ceil(batch_size / minibatch_size)] of them, none empty, each of
    [minibatch_size] indices except the last, which has what is left. *)
Theorem minibatches_partition (batch_size minibatch_size : Z) (b_inds : list Z) :
  0 < minibatch_size → Z.of_nat (length b_inds) = batch_size →
  ∃ mbs,
    Main.minibatches batch_size minibatch_size b_inds = Ok mbs ∧
    concat mbs = b_inds ∧
    Z.of_nat (length mbs) = (batch_size + minibatch_size - 1) / minibatch_size ∧
    ∀ k mb, mbs !! k = Some mb →
      0 < Z.of_nat (length mb) ∧
      Z.of_nat (length mb) =
        Z.min minibatch_size (batch_size - Z.of_nat k * minibatch_size).
Proof.
  intros Hm Hlen.
  rewrite minibatches_slices by lia.
  destruct (minibatches_count batch_size minibatch_size Hm ltac:(lia))
    as [Hcount [Hlow Hup]].
  set (count := Z.to_nat ((batch_size + minibatch_size - 1) / minibatch_size)) in *.
  eexists. split; [reflexivity|]. split; [|split].
  - rewrite concat_slices. apply take_ge. lia.
  - by rewrite length_map, length_seq.
  - intros k mb Hk.
    change (map ?f ?l) with (f <$> l) in Hk.
    rewrite list_lookup_fmap in Hk.
    destruct (seq 0 count !! k) as [k'|] eqn:Hseq; [|done].
    apply lookup_seq in Hseq as [-> Hlt]. simpl in Hk. injection Hk as <-.
    rewrite length_take, length_drop.
    assert (Z.of_nat k * minibatch_size < batch_size) by nia.
    lia.
Qed.

(** What [__main__] computes of the sizes, and the minibatches they give:
    [num_minibatches] minibatches when it divides the batch, more than
    that, the last one shorter, when it does not; and with more
    minibatches asked than the batch has samples the size is 0 and the loop
    over the minibatches raises. *)
Theorem sizes_minibatches (num_envs num_steps num_minibatches total_timesteps : Z)
    (b_inds : list Z) :
  0 < num_minibatches → 0 < num_envs * num_steps →
  Z.of_nat (length b_inds) = num_envs * num_steps →
  ∃ minibatch_size num_iterations,
    Main.sizes num_envs num_steps num_minibatches total_timesteps =
      Ok (num_envs * num_steps, minibatch_size, num_iterations) ∧
    num_iterations * (num_envs * num_steps) ≤ total_timesteps
      < (num_iterations + 1) * (num_envs * num_steps) ∧
    (num_envs * num_steps < num_minibatches →
       minibatch_size = 0 ∧
       Main.minibatches (num_envs * num_steps) minibatch_size b_inds =
         Raise (ValueError "range() arg 3 must not be zero")) ∧
    (num_minibatches ≤ num_envs * num_steps →
       ∃ mbs,
         Main.minibatches (num_envs * num_steps) minibatch_size b_inds = Ok mbs ∧
         concat mbs = b_inds ∧
         num_minibatches ≤ Z.of_nat (length mbs) ∧
         (Z.of_nat (length mbs) = num_minibatches ↔
            (num_envs * num_steps) mod num_minibatches = 0)).
Proof.
  intros Hk Hb Hlen. set (b := num_envs * num_steps) in *.
  exists (b / num_minibatches), (total_timesteps / b).
  split; [|split; [|split]].
  - unfold Main.sizes, Main.floordiv. fold b.
    replace (num_minibatches =? 0) with false by (symmetry; apply Z.eqb_neq; lia).
    replace (b =? 0) with false by (symmetry; apply Z.eqb_neq; lia). done.
  - pose proof (Z.mul_div_le total_timesteps b Hb).
    pose proof (Z.mul_succ_div_gt total_timesteps b Hb). lia.
  - intros Hlt. rewrite Z.div_small by lia. done.
  - intros Hle. set (m := b / num_minibatches).
    assert (Hm : 0 < m) by (apply Z.div_str_pos; lia).
    rewrite minibatches_slices by lia.
    destruct (minibatches_count b m Hm ltac:(lia)) as [Hn [Hlow _]].
    eexists. split; [reflexivity|].
    split; [rewrite concat_slices; apply take_ge; lia|].
    rewrite length_map, length_seq, Hn.
    pose proof (Z.div_mod b num_minibatches ltac:(lia)) as Hdm. fold m in Hdm.
    pose proof (Z.mod_pos_bound b num_minibatches Hk) as Hr.
    set (r := b mod num_minibatches) in *.
    assert (Hc1 : num_minibatches ≤ (b + m - 1) / m)
      by (apply Z.div_le_lower_bound; nia).
    split; [done|]. split.
    + intros Heq. destruct (Z.eq_dec r 0) as [|Hr0]; [done|]. exfalso.
      assert (num_minibatches + 1 ≤ (b + m - 1) / m)
        by (apply Z.div_le_lower_bound; nia).
      lia.
    + intros Hr0. apply Z.le_antisymm; [|done].
      assert ((b + m - 1) / m < num_minibatches + 1); [|lia].
      apply Z.div_lt_upper_bound; nia.
Qed.

Lemma minibatches_partition_witness :
  Main.minibatches 5 2 [3; 0; 4; 1; 2] = Ok [[3; 0]; [4; 1]; [2]].
Proof.
  destruct (minibatches_partition 5 2 [3; 0; 4; 1; 2]) as (mbs & Hrun & _);
    [lia|reflexivity|].
  rewrite Hrun. vm_compute in Hrun. injection Hrun as <-. reflexivity.
Defined.

Lemma sizes_minibatches_witness :
  ∃ m n,
    Main.sizes 1 128 3 5000000 = Ok (128, m, n) ∧
    ∃ mbs, Main.minibatches 128 m (seqZ 0 128) = Ok mbs ∧ 3 ≤ Z.of_nat (length mbs).
Proof.
  destruct (sizes_minibatches 1 128 3 5000000 (seqZ 0 128))
    as (m & n & Hsizes & _ & _ & Hmb); [lia|lia|reflexivity|].
  exists m, n. split; [exact Hsizes|].
  destruct Hmb as (mbs & Hrun & _ & Hlen & _).
  - apply (f_equal (λ r, match r with Ok (_, m, _) => m | Raise _ => 0 end)) in Hsizes.
    vm_compute in Hsizes. subst m. lia.
  - by exists mbs.
Defined.

(** * main_dqn.py: the training loop *)

Section DqnLoop.

Import MainDqn.
Context {Env ObsT Act Agent Buffer : Type}.
Variable envs_reset : Env → ObsT * Env.
Variable envs_step : Act → Env → (ObsT * Q * bool * bool) * Env.
Variable select_action : Q → ObsT → Agent → Act * Agent.
Variable rb_add : ObsT → ObsT → Act → Q → bool → Buffer → Buffer.
Variable train : Z → Buffer → Agent → Agent.
Variables start_e end_e exploration_fraction : Q.
Variable total_timesteps : Z.

Local Abbreviation iteration :=
  (MainDqn.iteration envs_reset envs_step select_action rb_add train
     start_e end_e exploration_fraction total_timesteps).
Local Abbreviation schedule :=
  (linear_schedule start_e end_e (exploration_fraction * inject_Z total_timesteps)%Q).

(** With a non-zero exploration duration an iteration that starts
    with both end flags down steps the environment and stores the
    transition with the termination flag, and when that step ended the
    episode the next iteration does not step: it resets the environment,
    stores a second transition made of the fresh observation, the ended
    step's next observation and reward and a false done flag, and carries
    on from the ended episode's last observation, not from the fresh one. *)
Theorem stale_transition_after_episode_end (g : Z) (l : Loop) :
  ¬ (exploration_fraction * inject_Z total_timesteps == 0)%Q →
  terminations l || truncations l = false →
  ∃ e1 e2 l1,
    schedule g = Ok e1 ∧ schedule (g + 1) = Ok e2 ∧ iteration g l = Ok l1 ∧
    let '((o, r, te, tr), env1) := stepped envs_step select_action e1 l in
    obs l1 = o ∧ envs l1 = env1 ∧ terminations l1 = te ∧ truncations l1 = tr ∧
    rb l1 = rb_add (obs l) o (chosen select_action e1 l) r te (rb l) ∧
    (te || tr = true →
     ∃ l2, iteration (g + 1) l1 = Ok l2 ∧
       envs l2 = (envs_reset env1).2 ∧
       rb l2 = rb_add (envs_reset env1).1 o (chosen select_action e2 l1) r false (rb l1) ∧
       obs l2 = o ∧ terminations l2 = false ∧ truncations l2 = false).
Proof.
  intros Hd Hl.
  assert (Hs : ∀ t, ∃ e, schedule t = Ok e).
  { intros t. unfold linear_schedule.
    destruct (Qeq_bool _ 0) eqn:E; [|eauto].
    apply Qeq_bool_iff in E. contradiction. }
  destruct (Hs g) as [e1 He1], (Hs (g + 1)) as [e2 He2].
  exists e1, e2.
  unfold MainDqn.iteration at 1. rewrite He1. cbn [mbind result_bind].
  unfold stepped, chosen.
  destruct (select_action e1 (obs l) (agent l)) as [a1 ag1] eqn:Ea1.
  rewrite Hl. cbn [fst].
  destruct (envs_step a1 (envs l)) as [[[[o r] te] tr] env1] eqn:Est.
  eexists. split; [done|]. split; [done|]. split; [reflexivity|].
  cbn [obs envs terminations truncations rb agent].
  repeat (split; [reflexivity|]).
  intros Hend.
  unfold MainDqn.iteration. rewrite He2. cbn [mbind result_bind].
  cbn [obs envs terminations truncations rb agent next_obs rewards].
  destruct (select_action e2 o _) as [a2 ag2] eqn:Ea2.
  rewrite Hend.
  destruct (envs_reset env1) as [o0 env0] eqn:Er.
  eexists. split; [reflexivity|].
  cbn [obs envs terminations truncations rb agent fst snd]. done.
Qed.

End DqnLoop.

Lemma stale_transition_after_episode_end_witness :
  ∃ l1 l2,
    MainDqn.iteration ex_dqn_reset ex_dqn_step ex_dqn_select ex_dqn_add ex_dqn_train
      1 (1 # 20) (1 # 2) 10 0 ex_dqn_loop = Ok l1 ∧
    MainDqn.terminations l1 = true ∧
    MainDqn.iteration ex_dqn_reset ex_dqn_step ex_dqn_select ex_dqn_add ex_dqn_train
      1 (1 # 20) (1 # 2) 10 1 l1 = Ok l2 ∧
    MainDqn.rb l2 = [(0, 2, 2, 2%Q, false); (1, 2, 1, 2%Q, true)] ∧
    MainDqn.obs l2 = 2 ∧ MainDqn.envs l2 = 0.
Proof.
  destruct (stale_transition_after_episode_end ex_dqn_reset ex_dqn_step ex_dqn_select
              ex_dqn_add ex_dqn_train 1 (1 # 20) (1 # 2) 10 0 ex_dqn_loop)
    as (e1 & e2 & l1 & H1 & H2 & Hit & H); [by vm_compute | reflexivity |].
  cbn in H. destruct H as (Ho & He & Ht & Htr & Hrb & Hnext).
  destruct Hnext as (l2 & Hit2 & He2 & Hrb2 & Ho2 & _); [reflexivity|].
  exists l1, l2. repeat split; try assumption.
  rewrite Hrb2, Hrb, Ho. reflexivity.
Defined.
